(** * VT_Viz: the Volt Typhoon timeline engine

    A shallow embedding of [VoltTyphoonTimeline] (volt-typhoon-timeline.js):
    the playback clock, the stage resolver, the event gate of
    [processEvents], the packet choreography of [createPacketFlow],
    [createSinglePacket] and [animateMultiHop], the pausing info boxes and
    [restart].

    JavaScript numbers are modelled as exact rationals ([Q]); rounding of
    IEEE doubles is outside the model, so the statements below compare and
    add as the code does within one call and make no claim that rests on
    sums being exact across calls.  Timestamps are the integer milliseconds
    that [new Date(ts).getTime()] yields.

    The browser is modelled as far as the engine depends on it: the
    callbacks of [setTimeout] run when their time has come, and gsap's
    global timeline, which the info boxes pause and resume, carries the
    fades of the info boxes and the camera moves.  The script of a packet
    is kept with its flow. *)

From Stdlib Require Import ZArith QArith Qabs Qminmax List String Ascii Bool Lia.
From Stdlib Require Import Sorted Permutation Lqa.
Import ListNotations.

Local Open Scope string_scope.
Local Open Scope Z_scope.
Local Open Scope list_scope.

(** ** JavaScript helpers *)

Module Js.

(** [a < b] on numbers. *)
Definition ltb (a b : Q) : bool := negb (Qle_bool b a).

(** Truthiness of a number: everything but zero. *)
Definition truthy (a : Q) : bool := negb (Qeq_bool a 0).

(** [s.split(sep)] for a one-character separator. *)
Fixpoint split (sep : ascii) (s : string) : list string :=
  match s with
  | EmptyString => [EmptyString]
  | String c rest =>
      if Ascii.eqb c sep then EmptyString :: split sep rest
      else match split sep rest with
           | h :: t => String c h :: t
           | [] => [String c EmptyString]
           end
  end.

(** [parts.join(sep)]. *)
Fixpoint join (sep : string) (parts : list string) : string :=
  match parts with
  | [] => EmptyString
  | [p] => p
  | p :: rest => (p ++ sep ++ join sep rest)%string
  end.

(** [parts.slice(0, n)]. *)
Definition slice0 {A} (n : nat) (parts : list A) : list A := firstn n parts.

(** [s.startsWith(p)]. *)
Definition startsWith (s p : string) : bool := String.prefix p s.

(** [s.includes(sub)]. *)
Fixpoint includes (s sub : string) : bool :=
  String.prefix sub s ||
  match s with
  | EmptyString => false
  | String _ rest => includes rest sub
  end.

(** [xs.includes(x)] on an array of strings. *)
Definition arrayIncludes (xs : list string) (x : string) : bool :=
  existsb (String.eqb x) xs.

(** [xs.findIndex(p)], [None] standing for -1. *)
Fixpoint findIndex {A} (p : A -> bool) (xs : list A) : option nat :=
  match xs with
  | [] => None
  | x :: rest => if p x then Some O else option_map S (findIndex p rest)
  end.

(** The elements of an array paired with their index: the index is the
    identity of the object the array holds at that place. *)
Fixpoint indexedFrom {A} (n : nat) (xs : list A) : list (nat * A) :=
  match xs with
  | [] => []
  | x :: rest => (n, x) :: indexedFrom (S n) rest
  end.

Definition indexed {A} (xs : list A) : list (nat * A) := indexedFrom 0 xs.

(** Stable sort by an integer key, as [Array.prototype.sort] with the
    comparator [(a, b) => key(a) - key(b)]. *)
Section Sort.
Context {A : Type} (key : A -> Z).

Fixpoint insertSorted (x : A) (xs : list A) : list A :=
  match xs with
  | [] => [x]
  | y :: rest =>
      if (key x <=? key y)%Z then x :: y :: rest
      else y :: insertSorted x rest
  end.

Fixpoint sortBy (xs : list A) : list A :=
  match xs with
  | [] => []
  | x :: rest => insertSorted x (sortBy rest)
  end.
End Sort.

End Js.

(** ** Data model *)

Record Vector3 := mkVector3 { vx : Q; vy : Q; vz : Q }.

(** One record of the event log.  [proxy_chain] is the empty list when the
    field is absent: the code only ever tests
    [event.proxy_chain && event.proxy_chain.length > 0].  [processed] is the
    one mutable field. *)
Record Event := mkEvent {
  timestamp : Z;
  severity : Q;
  category : string;
  attack_type : string;
  source_ip : string;
  destination_ip : string;
  success : bool;
  stage : Z;
  proxy_chain : list string;
  description : option string;
  processed : bool
}.

Definition setProcessed (b : bool) (e : Event) : Event :=
  mkEvent (timestamp e) (severity e) (category e) (attack_type e)
          (source_ip e) (destination_ip e) (success e) (stage e)
          (proxy_chain e) (description e) b.

(** [this.data[i].processed = b]: a write through the reference held at
    index [i]. *)
Fixpoint writeProcessed (i : nat) (b : bool) (data : list Event) : list Event :=
  match data, i with
  | [], _ => []
  | e :: rest, O => setProcessed b e :: rest
  | e :: rest, S j => e :: writeProcessed j b rest
  end.

(** A stage window, in simulated hours. *)
Record Stage := mkStage {
  stageName : string;
  stageStart : Z;
  stageEnd : Z;
  focus : string
}.

Definition stages : list Stage :=
  [ mkStage "Initial Compromise" 0 7 "proxy-to-versa";
    mkStage "Living Off the Land" 7 24 "it-network";
    mkStage "Multi-Hop Pivoting" 24 48 "jump-to-dc";
    mkStage "Domain & OT Compromise" 48 60 "ot-systems";
    mkStage "Exfiltration & Persistence" 60 72 "overview" ].

(** ** Node registry *)

(** [this.nodeMap]: a JS [Map], which iterates in insertion order. *)
Definition NodeMap := list (string * Vector3).

Fixpoint mapGet (m : NodeMap) (ip : string) : option Vector3 :=
  match m with
  | [] => None
  | (k, v) :: rest => if String.eqb k ip then Some v else mapGet rest ip
  end.

Fixpoint mapSet (m : NodeMap) (ip : string) (v : Vector3) : NodeMap :=
  match m with
  | [] => [(ip, v)]
  | (k, w) :: rest =>
      if String.eqb k ip then (k, v) :: rest else (k, w) :: mapSet rest ip v
  end.

Definition vec (x y z : Z) : Vector3 :=
  mkVector3 (inject_Z x) (inject_Z y) (inject_Z z).

(** The fixed topology of [createNetworkInfrastructure]. *)
Definition topology : list (string * Vector3) :=
  [ ("45.76.128.0", vec (-1000) 50 0);
    ("103.56.54.0", vec (-800) 50 0);
    ("203.119.88.0", vec (-600) 50 0);
    ("202.181.24.0", vec (-400) 50 0);
    ("192.168.100.10", vec (-200) 50 0);
    ("192.168.100.40", vec 0 50 0);
    ("192.168.100.50", vec 200 100 0);
    ("192.168.100.20", vec 0 50 (-150));
    ("192.168.100.30", vec 0 50 (-300));
    ("192.168.100.60", vec 0 50 150);
    ("10.1.1.10", vec 400 50 0);
    ("10.1.1.20", vec 600 50 (-100));
    ("10.1.1.30", vec 600 50 0);
    ("10.1.1.40", vec 600 50 100);
    ("10.1.1.50", vec 800 50 0) ].

Definition createNetworkInfrastructure : NodeMap :=
  fold_left (fun m node => mapSet m (fst node) (snd node)) topology [].

(** The first three dot-separated parts of a registry key. *)
Definition octetPrefix (nodeIp : string) : string :=
  Js.join "." (Js.slice0 3 (Js.split "."%char nodeIp)).

(** [Math.random()] is an oracle: the [n]-th draw is [random n].  The
    function returns the number of draws made so far along with the
    position; [None] stands for a null or undefined result. *)
Definition getNodePosition (nodeMap : NodeMap) (random : nat -> Q) (n : nat)
    (ip : string) : option Vector3 * nat :=
  match mapGet nodeMap ip with
  | Some pos => (Some pos, n)
  | None =>
      match find (fun node => Js.startsWith ip (octetPrefix (fst node))) nodeMap with
      | Some (_, pos) => (Some pos, n)
      | None =>
          (Some (mkVector3 ((random n - (1 # 2)) * 200)%Q 50%Q
                           ((random (S n) - (1 # 2)) * 200)%Q),
           S (S n))
      end
  end.

(** ** Animation scripts and flows *)

(** What a gsap tween or timeline of a packet holds, in order. *)
Inductive TimelineItem :=
| TrailSegment (fromPos toPos : Vector3)
| TweenTo (toPos : Vector3) (seconds : Q)
| HopPulse (pos : Vector3)
| Pause (seconds : Q)
| OnCompleteImpact (destPos : Vector3) (isFirst : bool)
| FinalCall (isFirst : bool).

(** What playing a script through makes visible. *)
Inductive Effect :=
| TrailLine (fromPos toPos : Vector3)
| HopEffect (pos : Vector3)
| ImpactEffect (pos : Vector3)
| NodeCompromised (ip : string).

Record Flow := mkFlow {
  flowEvent : nat;
  packetSize : Q;
  packetStart : Vector3;
  lineEnd : Vector3;
  animation : list TimelineItem;
  lifetime : Q;
  age : Q
}.

(** ** Engine state *)

Record Playback := mkPlayback {
  currentTime : Q;
  playbackSpeed : Q;
  isPlaying : bool;
  currentStage : Z;
  lastEventProcessedTime : Q;
  lastProcessedEventType : option string
}.

Record Shown := mkShown {
  lastFollowedStage : option Z;
  rdpExplained : bool;
  cveExplained : bool;
  criticalAccessShown : bool;
  ntdsShown : bool;
  otShown : bool
}.

Inductive AlertKind :=
| ZeroDay | NTDSExtraction | CriticalInfrastructure | OTCompromise
| Exfiltration | RDPCredentials | CriticalAccess.

(** The closures handed to [setTimeout].  An event is captured by
    reference: its index in [this.data]. *)
Inductive Callback :=
| CbCreateSinglePacket (event : nat) (sourcePos destPos : Vector3) (isFirst : bool)
| CbResetCriticalAccess
| CbResetOt
| CbFollowAttack (event : nat)
| CbDismiss (box : nat) (wasPlaying : bool).

Record Timer := mkTimer { due : Z; callback : Callback }.

(** The pose the camera rests in: the one last written outright or reached
    by a finished tween.  The poses gsap passes through while a tween runs
    are not modelled. *)
Record Camera := mkCamera { cameraPosition : Vector3; controlsTarget : Vector3 }.

(** What a tween on gsap's global timeline does when it completes: the
    fade of an info box removes the box, a camera tween has brought its
    target to the end values. *)
Inductive TweenEnd :=
| TwRemoveBox (box : nat)
| TwCameraPosition (pos : Vector3)
| TwControlsTarget (pos : Vector3).

(** A tween in flight, with the milliseconds of gsap time it still needs. *)
Record Tween := mkTween { remaining : Z; tweenEnd : TweenEnd }.

(** The part of the browser the engine talks to: the wall clock of
    [setTimeout] in milliseconds, the callbacks still pending (in the order
    they were set), gsap's global timeline with its tweens in flight, the
    info boxes in the document and the random oracle. *)
Record Browser := mkBrowser {
  clock : Z;
  timers : list Timer;
  gsapPaused : bool;
  overlays : list (nat * AlertKind);
  nextBox : nat;
  random : nat -> Q;
  draws : nat;
  tweens : list Tween
}.

(** [flowCalls] is a history variable: the events [createPacketFlow] was
    called with, newest first. *)
Record Timeline := mkTimeline {
  data : list Event;
  startTime : Z;
  nodeMap : NodeMap;
  playback : Playback;
  shown : Shown;
  activeFlows : list Flow;
  camera : Camera;
  browser : Browser;
  flowCalls : list nat
}.

Definition endTime (s : Timeline) : Z := startTime s + 72 * 3600 * 1000.
Definition duration (s : Timeline) : Z := endTime s - startTime s.

(** *** Field updates *)

Definition setCurrentTime (t : Q) (p : Playback) : Playback :=
  mkPlayback t (playbackSpeed p) (isPlaying p) (currentStage p)
             (lastEventProcessedTime p) (lastProcessedEventType p).
Definition setPlaybackSpeed (v : Q) (p : Playback) : Playback :=
  mkPlayback (currentTime p) v (isPlaying p) (currentStage p)
             (lastEventProcessedTime p) (lastProcessedEventType p).
Definition setIsPlaying (b : bool) (p : Playback) : Playback :=
  mkPlayback (currentTime p) (playbackSpeed p) b (currentStage p)
             (lastEventProcessedTime p) (lastProcessedEventType p).
Definition setCurrentStage (n : Z) (p : Playback) : Playback :=
  mkPlayback (currentTime p) (playbackSpeed p) (isPlaying p) n
             (lastEventProcessedTime p) (lastProcessedEventType p).
Definition setLastEvent (t : Q) (ty : option string) (p : Playback) : Playback :=
  mkPlayback (currentTime p) (playbackSpeed p) (isPlaying p) (currentStage p) t ty.

Definition setLastFollowedStage (v : option Z) (f : Shown) : Shown :=
  mkShown v (rdpExplained f) (cveExplained f) (criticalAccessShown f)
          (ntdsShown f) (otShown f).
Definition setCveExplained (b : bool) (f : Shown) : Shown :=
  mkShown (lastFollowedStage f) (rdpExplained f) b (criticalAccessShown f)
          (ntdsShown f) (otShown f).
Definition setCriticalAccessShown (b : bool) (f : Shown) : Shown :=
  mkShown (lastFollowedStage f) (rdpExplained f) (cveExplained f) b
          (ntdsShown f) (otShown f).
Definition setNtdsShown (b : bool) (f : Shown) : Shown :=
  mkShown (lastFollowedStage f) (rdpExplained f) (cveExplained f)
          (criticalAccessShown f) b (otShown f).
Definition setOtShown (b : bool) (f : Shown) : Shown :=
  mkShown (lastFollowedStage f) (rdpExplained f) (cveExplained f)
          (criticalAccessShown f) (ntdsShown f) b.

Definition setClock (t : Z) (b : Browser) : Browser :=
  mkBrowser t (timers b) (gsapPaused b) (overlays b) (nextBox b) (random b) (draws b)
            (tweens b).
Definition setTimers (ts : list Timer) (b : Browser) : Browser :=
  mkBrowser (clock b) ts (gsapPaused b) (overlays b) (nextBox b) (random b) (draws b)
            (tweens b).
Definition setGsapPaused (p : bool) (b : Browser) : Browser :=
  mkBrowser (clock b) (timers b) p (overlays b) (nextBox b) (random b) (draws b)
            (tweens b).
Definition setOverlays (os : list (nat * AlertKind)) (b : Browser) : Browser :=
  mkBrowser (clock b) (timers b) (gsapPaused b) os (nextBox b) (random b) (draws b)
            (tweens b).
Definition setNextBox (n : nat) (b : Browser) : Browser :=
  mkBrowser (clock b) (timers b) (gsapPaused b) (overlays b) n (random b) (draws b)
            (tweens b).
Definition setDraws (n : nat) (b : Browser) : Browser :=
  mkBrowser (clock b) (timers b) (gsapPaused b) (overlays b) (nextBox b) (random b) n
            (tweens b).
Definition setTweens (tw : list Tween) (b : Browser) : Browser :=
  mkBrowser (clock b) (timers b) (gsapPaused b) (overlays b) (nextBox b) (random b)
            (draws b) tw.

Definition onPlayback (f : Playback -> Playback) (s : Timeline) : Timeline :=
  mkTimeline (data s) (startTime s) (nodeMap s) (f (playback s)) (shown s)
             (activeFlows s) (camera s) (browser s) (flowCalls s).
Definition onShown (f : Shown -> Shown) (s : Timeline) : Timeline :=
  mkTimeline (data s) (startTime s) (nodeMap s) (playback s) (f (shown s))
             (activeFlows s) (camera s) (browser s) (flowCalls s).
Definition onBrowser (f : Browser -> Browser) (s : Timeline) : Timeline :=
  mkTimeline (data s) (startTime s) (nodeMap s) (playback s) (shown s)
             (activeFlows s) (camera s) (f (browser s)) (flowCalls s).
Definition setData (d : list Event) (s : Timeline) : Timeline :=
  mkTimeline d (startTime s) (nodeMap s) (playback s) (shown s)
             (activeFlows s) (camera s) (browser s) (flowCalls s).
Definition setActiveFlows (fl : list Flow) (s : Timeline) : Timeline :=
  mkTimeline (data s) (startTime s) (nodeMap s) (playback s) (shown s)
             fl (camera s) (browser s) (flowCalls s).
Definition setCamera (c : Camera) (s : Timeline) : Timeline :=
  mkTimeline (data s) (startTime s) (nodeMap s) (playback s) (shown s)
             (activeFlows s) c (browser s) (flowCalls s).
Definition recordFlowCall (i : nat) (s : Timeline) : Timeline :=
  mkTimeline (data s) (startTime s) (nodeMap s) (playback s) (shown s)
             (activeFlows s) (camera s) (browser s) (i :: flowCalls s).

(** ** Deferred callbacks and info boxes *)

(** [setTimeout(cb, delay)]. *)
Definition setTimeout (cb : Callback) (delay : Z) (s : Timeline) : Timeline :=
  onBrowser (fun b => setTimers (timers b ++ [mkTimer (clock b + delay) cb]) b) s.

(** [gsap.to(target, { ..., duration })]: a tween joins the global
    timeline; [ms] is its duration in milliseconds. *)
Definition gsapTo (e : TweenEnd) (ms : Z) (s : Timeline) : Timeline :=
  onBrowser (fun b => setTweens (tweens b ++ [mkTween ms e]) b) s.

(** How long each info box stays before its dismissal callback runs. *)
Definition alertDuration (k : AlertKind) : Z :=
  match k with
  | ZeroDay => 7000
  | NTDSExtraction => 6000
  | CriticalInfrastructure => 8000
  | OTCompromise => 6000
  | Exfiltration => 6000
  | RDPCredentials => 6000
  | CriticalAccess => 7000
  end.

(** The [z-index] each info box is styled with. *)
Definition zIndex (k : AlertKind) : Z :=
  match k with
  | ZeroDay => 2500
  | NTDSExtraction => 2400
  | CriticalInfrastructure => 2500
  | OTCompromise => 2400
  | Exfiltration => 2400
  | RDPCredentials => 2300
  | CriticalAccess => 3000
  end.

(** The body shared by [highlightZeroDay], [highlightNTDSExtraction],
    [highlightCriticalInfrastructure], [highlightOTCompromise],
    [highlightExfiltration], [explainRDPCredentials] and
    [highlightCriticalAccess]: snapshot [isPlaying], pause, show the box,
    schedule the dismissal. *)
Definition highlight (k : AlertKind) (s : Timeline) : Timeline :=
  let wasPlaying := isPlaying (playback s) in
  let s := onPlayback (setIsPlaying false) s in
  let s := onBrowser (setGsapPaused true) s in
  let box := nextBox (browser s) in
  let s := onBrowser (fun b => setNextBox (S box) (setOverlays (overlays b ++ [(box, k)]) b)) s in
  setTimeout (CbDismiss box wasPlaying) (alertDuration k) s.

Definition highlightZeroDay := highlight ZeroDay.
Definition highlightNTDSExtraction := highlight NTDSExtraction.
Definition highlightCriticalInfrastructure := highlight CriticalInfrastructure.
Definition highlightOTCompromise := highlight OTCompromise.
Definition highlightExfiltration := highlight Exfiltration.
Definition explainRDPCredentials := highlight RDPCredentials.
Definition highlightCriticalAccess := highlight CriticalAccess.

(** The dismissal callback of an info box: playback resumes if it was on
    when the box was shown, and the box starts its one-second fade.  The box
    stays in the document until the fade completes. *)
Definition dismiss (box : nat) (wasPlaying : bool) (s : Timeline) : Timeline :=
  let s := if wasPlaying
           then onBrowser (setGsapPaused false) (onPlayback (setIsPlaying true) s)
           else s in
  gsapTo (TwRemoveBox box) 1000 s.

(** ** Flow choreography *)

(** [this.getNodePosition(ip)], threading the draws of [Math.random]. *)
Definition nodePosition (ip : string) (s : Timeline) : option Vector3 * Timeline :=
  let b := browser s in
  let '(pos, n) := getNodePosition (nodeMap s) (random b) (draws b) ip in
  (pos, onBrowser (setDraws n) s).

Definition followAttack (i : nat) (s : Timeline) : Timeline :=
  match nth_error (data s) i with
  | None => s
  | Some event =>
      let '(sourcePos, s) := nodePosition (source_ip event) s in
      let '(destPos, s) := nodePosition (destination_ip event) s in
      match sourcePos, destPos with
      | Some sp, Some dp =>
          let centerX := ((vx sp + vx dp) / 2)%Q in
          let centerZ := ((vz sp + vz dp) / 2)%Q in
          let s := gsapTo (TwCameraPosition
                             (mkVector3 centerX 700%Q
                                        (400 + Qabs (vx dp - vx sp) * (2 # 10))%Q))
                          2000 s in
          gsapTo (TwControlsTarget (mkVector3 centerX 0%Q centerZ)) 2000 s
      | _, _ => s
      end
  end.

(** The waypoints of a multi-hop packet. *)
Definition fullPath (event : Event) : list string :=
  let path := match proxy_chain event with
              | [] => [source_ip event]
              | chain => chain
              end in
  if Js.arrayIncludes path (destination_ip event) then path
  else path ++ [destination_ip event].

(** The loop [for (let i = 1; i < fullPath.length; i++)] of
    [animateMultiHop], over the path from index [i - 1] on. *)
Fixpoint hops (nodeMap : NodeMap) (random : nat -> Q) (n : nat)
    (path : list string) : list TimelineItem * nat :=
  match path with
  | [] => ([], n)
  | fromIp :: tl =>
      match tl with
      | [] => ([], n)
      | toIp :: rest =>
          let '(fromPos, n) := getNodePosition nodeMap random n fromIp in
          let '(toPos, n) := getNodePosition nodeMap random n toIp in
          match fromPos, toPos with
          | Some fp, Some tp =>
              let pulse := match rest with
                           | [] => []
                           | _ :: _ => [HopPulse tp; Pause (3 # 10)]
                           end in
              let '(items, n) := hops nodeMap random n tl in
              ([TrailSegment fp tp; TweenTo tp (15 # 10)] ++ pulse ++ items, n)
          | _, _ => hops nodeMap random n tl
          end
      end
  end.

Definition animateMultiHop (event : Event) (isFirst : bool) (s : Timeline)
    : list TimelineItem * Timeline :=
  let b := browser s in
  let '(items, n) := hops (nodeMap s) (random b) (draws b) (fullPath event) in
  (items ++ [FinalCall isFirst], onBrowser (setDraws n) s).

Definition createSinglePacket (i : nat) (sourcePos destPos : Vector3)
    (isFirst : bool) (s : Timeline) : Timeline :=
  match nth_error (data s) i with
  | None => s
  | Some event =>
      let size := if String.eqb (category event) "credential_access" then 8%Q
                  else (2 + (severity event / 10) * 4)%Q in
      let '(anim, s) :=
        match proxy_chain event with
        | _ :: _ => animateMultiHop event isFirst s
        | [] => ([TweenTo destPos 4; OnCompleteImpact destPos isFirst], s)
        end in
      setActiveFlows (activeFlows s ++ [mkFlow i size sourcePos destPos anim 3 0]) s
  end.

(** What gsap makes visible when it plays the script of a packet of
    [event] through, the next draw of [Math.random] being the [n]-th. *)
Fixpoint playTimeline (nodeMap : NodeMap) (random : nat -> Q) (n : nat)
    (event : Event) (items : list TimelineItem) : list Effect :=
  match items with
  | [] => []
  | item :: rest =>
      match item with
      | TrailSegment fp tp => TrailLine fp tp :: playTimeline nodeMap random n event rest
      | TweenTo _ _ => playTimeline nodeMap random n event rest
      | HopPulse p => HopEffect p :: playTimeline nodeMap random n event rest
      | Pause _ => playTimeline nodeMap random n event rest
      | OnCompleteImpact destPos isFirst =>
          (if success event && isFirst
           then [ImpactEffect destPos; NodeCompromised (destination_ip event)]
           else []) ++ playTimeline nodeMap random n event rest
      | FinalCall isFirst =>
          let '(destPos, n) := getNodePosition nodeMap random n (destination_ip event) in
          match destPos with
          | Some dp =>
              (if success event && isFirst
               then [ImpactEffect dp; NodeCompromised (destination_ip event)]
               else []) ++ playTimeline nodeMap random n event rest
          | None => playTimeline nodeMap random n event rest
          end
      end
  end.

Definition packetCount (event : Event) : nat :=
  if String.eqb (attack_type event) "lotl_discovery"
     || String.eqb (attack_type event) "wmi_lateral_movement" then 3
  else if String.eqb (attack_type event) "rdp_lateral_movement" then 2
  else if String.eqb (category event) "credential_access" then 5
  else 1.

(** The loop [for (let i = 0; i < packetCount; i++)] that sets one timer
    per packet; [k] is the loop counter and [count] the iterations left. *)
Fixpoint spawnLoop (i : nat) (sp dp : Vector3) (k count : nat) (s : Timeline) : Timeline :=
  match count with
  | O => s
  | S count' =>
      spawnLoop i sp dp (S k) count'
        (setTimeout (CbCreateSinglePacket i sp dp (Nat.eqb k 0)) (Z.of_nat k * 200) s)
  end.

(** The four info-box triggers at the top of [createPacketFlow], in the
    order the code runs them. *)
Definition alertCriticalAccess (event : Event) (s : Timeline) : Timeline :=
  if String.eqb (category event) "credential_access"
     && negb (criticalAccessShown (shown s))
  then setTimeout CbResetCriticalAccess 10000
         (highlightCriticalAccess (onShown (setCriticalAccessShown true) s))
  else s.

Definition alertNtds (event : Event) (s : Timeline) : Timeline :=
  if String.eqb (attack_type event) "credential_harvesting"
     && match description event with
        | Some d => Js.includes d "NTDS.dit"
        | None => false
        end
     && negb (ntdsShown (shown s))
  then highlightNTDSExtraction (onShown (setNtdsShown true) s)
  else s.

Definition alertOt (event : Event) (s : Timeline) : Timeline :=
  if String.eqb (attack_type event) "ot_system_access"
     && negb (otShown (shown s))
  then setTimeout CbResetOt 15000
         (highlightCriticalInfrastructure (onShown (setOtShown true) s))
  else s.

Definition alertExfiltration (event : Event) (s : Timeline) : Timeline :=
  if String.eqb (attack_type event) "multi_hop_exfiltration"
     && Z.eqb (stage event) 5
  then highlightExfiltration s
  else s.

Definition alerts (event : Event) (s : Timeline) : Timeline :=
  alertExfiltration event (alertOt event (alertNtds event (alertCriticalAccess event s))).

(** [createPacketFlow(event)].  Lighting up the connection path is
    presentation and is left out. *)
Definition createPacketFlow (i : nat) (s : Timeline) : Timeline :=
  let s := recordFlowCall i s in
  match nth_error (data s) i with
  | None => s
  | Some event =>
      let '(sourcePos, s) := nodePosition (source_ip event) s in
      let '(destPos, s) := nodePosition (destination_ip event) s in
      match sourcePos, destPos with
      | Some sp, Some dp => spawnLoop i sp dp 0 (packetCount event) (alerts event s)
      | _, _ => s
      end
  end.

(** ** Event gate *)

Definition minEventInterval : Q := 500.

(** The events that are due and not yet processed, with their index. *)
Definition availableEvents (currentTimestamp : Q) (s : Timeline) : list (nat * Event) :=
  filter (fun ie => Qle_bool (inject_Z (timestamp (snd ie))) currentTimestamp
                    && negb (processed (snd ie)))
         (Js.indexed (data s)).

(** The choice of [nextEvent] among the available events. *)
Definition selectNext (available : list (nat * Event)) (stageNow : Z)
    (lastProcessedType : option string) : option (nat * Event) :=
  let currentStageEvents := filter (fun ie => Z.eqb (stage (snd ie)) stageNow) available in
  match currentStageEvents with
  | firstOfStage :: _ =>
      let sameTypeEvents :=
        filter (fun ie => match lastProcessedType with
                          | Some ty => String.eqb (attack_type (snd ie)) ty
                          | None => false
                          end) currentStageEvents in
      match sameTypeEvents with
      | sameType :: _ => Some sameType
      | [] => Some firstOfStage
      end
  | [] => hd_error available
  end.

Definition gateClosed (currentTimestamp : Q) (s : Timeline) : bool :=
  Js.truthy (lastEventProcessedTime (playback s))
  && Js.ltb (currentTimestamp - lastEventProcessedTime (playback s)) minEventInterval.

(** After the flow is created: the zero-day box, shown once. *)
Definition explainZeroDay (nextEvent : Event) (s : Timeline) : Timeline :=
  if String.eqb (attack_type nextEvent) "zero_day_exploit"
     && negb (cveExplained (shown s))
  then highlightZeroDay (onShown (setCveExplained true) s)
  else s.

(** The camera follows a major event, once per stage and two seconds late
    for the zero-day. *)
Definition followMajor (i : nat) (nextEvent : Event) (s : Timeline) : Timeline :=
  if negb match lastFollowedStage (shown s) with
          | Some st => Z.eqb (stage nextEvent) st
          | None => false
          end
     && (Qle_bool 9 (severity nextEvent)
         || String.eqb (attack_type nextEvent) "ot_system_access")
  then
    let s := if String.eqb (attack_type nextEvent) "zero_day_exploit"
             then setTimeout (CbFollowAttack i) 2000 s
             else followAttack i s in
    onShown (setLastFollowedStage (Some (stage nextEvent))) s
  else s.

(** The body of [if (nextEvent) { ... }]. *)
Definition dispatch (currentTimestamp : Q) (i : nat) (nextEvent : Event)
    (s : Timeline) : Timeline :=
  let s := onPlayback (setLastEvent currentTimestamp (Some (attack_type nextEvent))) s in
  let s := setData (writeProcessed i true (data s)) s in
  let s := createPacketFlow i s in
  let s := explainZeroDay nextEvent s in
  followMajor i nextEvent s.

(** [processEvents(currentTimestamp)].  The texts written to the
    technique display are presentation and are left out. *)
Definition processEvents (currentTimestamp : Q) (s : Timeline) : Timeline :=
  if gateClosed currentTimestamp s then s
  else
    match selectNext (availableEvents currentTimestamp s)
                     (currentStage (playback s))
                     (lastProcessedEventType (playback s)) with
    | None => s
    | Some (i, nextEvent) => dispatch currentTimestamp i nextEvent s
    end.

(** ** Playback clock *)

(** [updateFlows(deltaTime)]: age every flow and drop the expired ones. *)
Definition updateFlows (deltaTime : Q) (s : Timeline) : Timeline :=
  let aged := map (fun f => mkFlow (flowEvent f) (packetSize f) (packetStart f)
                                   (lineEnd f) (animation f) (lifetime f)
                                   (age f + deltaTime)%Q) (activeFlows s) in
  setActiveFlows (filter (fun f => negb (Js.ltb (lifetime f) (age f))) aged) s.

(** [animateCamera(stage)], called by [onStageChange]; the stage
    announcement is presentation. *)
Definition animateCamera (st : Stage) (s : Timeline) : Timeline :=
  let targetX := if String.eqb (focus st) "proxy-to-versa" then (-400)%Q
                 else if String.eqb (focus st) "ot-systems" then 400%Q
                 else 0%Q in
  let s := gsapTo (TwCameraPosition (mkVector3 targetX 700 400)) 3000 s in
  gsapTo (TwControlsTarget (mkVector3 targetX 0 0)) 3000 s.

Definition onStageChange (st : Stage) (s : Timeline) : Timeline := animateCamera st s.

(** [stages.findIndex(s => currentHour >= s.start && currentHour < s.end)]. *)
Definition resolveStage (currentHour : Q) : option nat :=
  Js.findIndex (fun st => Qle_bool (inject_Z (stageStart st)) currentHour
                          && Js.ltb currentHour (inject_Z (stageEnd st))) stages.

(** The first half of [update]: advance and clamp the clock. *)
Definition advanceClock (deltaTime : Q) (s : Timeline) : Timeline :=
  let s := onPlayback (fun p => setCurrentTime
              (currentTime p + deltaTime * playbackSpeed p * 360 * 1000)%Q p) s in
  if Js.ltb (inject_Z (duration s)) (currentTime (playback s))
  then onPlayback (fun p => setIsPlaying false (setCurrentTime (inject_Z (duration s)) p)) s
  else s.

Definition updateStage (s : Timeline) : Timeline :=
  let currentHour := (currentTime (playback s) / (3600 * 1000))%Q in
  match resolveStage currentHour with
  | Some newStage =>
      if negb (Z.eqb (Z.of_nat newStage) (currentStage (playback s)))
      then match nth_error stages newStage with
           | Some st => onStageChange st (onPlayback (setCurrentStage (Z.of_nat newStage)) s)
           | None => onPlayback (setCurrentStage (Z.of_nat newStage)) s
           end
      else s
  | None => s
  end.

(** [update(deltaTime)]. *)
Definition update (deltaTime : Q) (s : Timeline) : Timeline :=
  if negb (isPlaying (playback s)) then s
  else
    let s := advanceClock deltaTime s in
    let s := updateStage s in
    let currentTimestamp := (inject_Z (startTime s) + currentTime (playback s))%Q in
    let s := processEvents currentTimestamp s in
    updateFlows deltaTime s.

(** ** Controls *)

Definition togglePlayback (s : Timeline) : Timeline :=
  onPlayback (fun p => setIsPlaying (negb (isPlaying p)) p) s.

Definition setSpeed (speed : Q) (s : Timeline) : Timeline :=
  onPlayback (setPlaybackSpeed speed) s.

(** The info box a tween fades, if it is the fade of one. *)
Definition fadedBox (t : Tween) : option nat :=
  match tweenEnd t with
  | TwRemoveBox box => Some box
  | TwCameraPosition _ | TwControlsTarget _ => None
  end.

(** [gsap.killTweensOf('*')]: the selector matches the elements that are in
    the document, so of the tweens in flight the fades of the boxes still
    there are dropped.  The camera is no element: its tweens go on. *)
Definition killTweensOfAll (s : Timeline) : Timeline :=
  onBrowser (fun b =>
    setTweens
      (filter (fun t => match fadedBox t with
                        | Some box => negb (existsb (fun o => Nat.eqb (fst o) box) (overlays b))
                        | None => true
                        end)
              (tweens b)) b) s.

(** [cleanupAllInfoBoxes]: every [div] styled with one of the engine's
    [z-index] values leaves the document; then the tweens of what is left
    are killed. *)
Definition cleanupAllInfoBoxes (s : Timeline) : Timeline :=
  let s := onBrowser (fun b =>
    setOverlays
      (filter (fun o => negb (existsb (Z.eqb (zIndex (snd o))) [2300; 2400; 2500; 2999; 3000]))
              (overlays b)) b) s in
  killTweensOfAll s.

Definition initialCamera : Camera :=
  mkCamera (vec (-700) 800 600) (vec (-700) 0 (-100)).

Definition restart (s : Timeline) : Timeline :=
  let s := cleanupAllInfoBoxes s in
  let s := onPlayback (fun p => mkPlayback 0 (playbackSpeed p) true 0 0 None) s in
  let s := onShown (fun _ => mkShown None false false false false false) s in
  let s := onBrowser (setGsapPaused false) s in
  let s := setActiveFlows [] s in
  let s := setData (map (setProcessed false) (data s)) s in
  setCamera initialCamera s.

(** ** The browser's event loop *)

Definition fire (cb : Callback) (s : Timeline) : Timeline :=
  match cb with
  | CbCreateSinglePacket i sp dp isFirst => createSinglePacket i sp dp isFirst s
  | CbResetCriticalAccess => onShown (setCriticalAccessShown false) s
  | CbResetOt => onShown (setOtShown false) s
  | CbFollowAttack i => followAttack i s
  | CbDismiss box wasPlaying => dismiss box wasPlaying s
  end.

(** A tween completes: [onComplete] of a fade removes the box if it is
    still in the document; a camera tween has written its end values. *)
Definition finishTween (e : TweenEnd) (s : Timeline) : Timeline :=
  match e with
  | TwRemoveBox box =>
      onBrowser (fun b =>
        setOverlays (filter (fun o => negb (Nat.eqb (fst o) box)) (overlays b)) b) s
  | TwCameraPosition pos => setCamera (mkCamera pos (controlsTarget (camera s))) s
  | TwControlsTarget pos => setCamera (mkCamera (cameraPosition (camera s)) pos) s
  end.

(** gsap's ticker over [ms] milliseconds: nothing moves while the global
    timeline is paused; otherwise the tweens that reach their end complete,
    earliest first and in the order created among equals, and the others
    come [ms] closer to theirs.  The global timeline is taken to run with
    the wall clock whenever it is not paused (gsap's lag smoothing is left
    out). *)
Definition gsapTick (ms : Z) (s : Timeline) : Timeline :=
  if gsapPaused (browser s) then s
  else
    let finished := filter (fun t => remaining t <=? ms) (tweens (browser s)) in
    let running := filter (fun t => negb (remaining t <=? ms)) (tweens (browser s)) in
    let s := onBrowser (setTweens (map (fun t => mkTween (remaining t - ms) (tweenEnd t))
                                       running)) s in
    fold_left (fun s t => finishTween (tweenEnd t) s) (Js.sortBy remaining finished) s.

(** Wall-clock time passes until the clock reads [t]. *)
Definition waitUntil (t : Z) (s : Timeline) : Timeline :=
  if t <=? clock (browser s) then s
  else onBrowser (setClock t) (gsapTick (t - clock (browser s)) s).

(** [ms] milliseconds of wall-clock time pass: the callbacks that come due
    run at their time, earliest first and in the order set among equals,
    and gsap's ticker runs in between (a tween that ends at the very
    millisecond a callback is due completes first).  No callback of the
    engine sets a timer itself. *)
Definition elapse (ms : Z) (s : Timeline) : Timeline :=
  let now := clock (browser s) + ms in
  let ready := filter (fun t => due t <=? now) (timers (browser s)) in
  let waiting := filter (fun t => negb (due t <=? now)) (timers (browser s)) in
  let s := onBrowser (setTimers waiting) s in
  let s := fold_left (fun s t => fire (callback t) (waitUntil (due t) s))
                     (Js.sortBy due ready) s in
  onBrowser (setClock now) (waitUntil now s).

(** What can happen to a running engine. *)
Inductive Input :=
| Frame (deltaTime : Q)
| ClickPlayPause
| ClickSpeed (speed : Q)
| ClickRestart
| Elapse (ms : Z).

Definition step (s : Timeline) (i : Input) : Timeline :=
  match i with
  | Frame deltaTime => update deltaTime s
  | ClickPlayPause => togglePlayback s
  | ClickSpeed speed => setSpeed speed s
  | ClickRestart => restart s
  | Elapse ms => elapse ms s
  end.

Definition run (s : Timeline) (inputs : list Input) : Timeline :=
  fold_left step inputs s.

(** [new VoltTyphoonTimeline(scene, data, camera, controls)] in a browser
    whose clock reads [now].  Reading [this.data[0].timestamp] of an empty
    array throws: [None]. *)
Definition construct (rawData : list Event) (cam : Camera) (now : Z)
    (rnd : nat -> Q) : option Timeline :=
  match Js.sortBy timestamp rawData with
  | [] => None
  | (first :: _) as sorted =>
      Some (mkTimeline sorted (timestamp first) createNetworkInfrastructure
              (mkPlayback 0 1 true 0 0 None)
              (mkShown None false false false false false)
              [] cam (mkBrowser now [] false [] 0 rnd 0 []) [])
  end.

(** ** Vocabulary of the statements *)

(** Each of the frames [dts] leaves the simulated timestamp fewer than
    [minEventInterval] after the last dispatch recorded in [s]. *)
Fixpoint staysNear (s : Timeline) (dts : list Q) : Prop :=
  match dts with
  | [] => True
  | dt :: rest =>
      (inject_Z (startTime s) + currentTime (playback (update dt s))
       - lastEventProcessedTime (playback s) < minEventInterval)%Q
      /\ staysNear (update dt s) rest
  end.

(** What an operation nested in [update] leaves of the clock: the
    simulated time, the speed and the origin stay, and a stopped clock stays
    stopped. *)
Record clockKept (s s' : Timeline) : Prop := mkClockKept {
  ck_time : currentTime (playback s') = currentTime (playback s);
  ck_speed : playbackSpeed (playback s') = playbackSpeed (playback s);
  ck_start : startTime s' = startTime s;
  ck_stopped : isPlaying (playback s) = false -> isPlaying (playback s') = false
}.

(** What an operation nested in [update] does to the pause: either it
    leaves [isPlaying] and the info boxes as they are, or it shows info
    boxes and leaves the engine paused. *)
Definition pausesIffShows (s s' : Timeline) : Prop :=
  (overlays (browser s') = overlays (browser s)
   /\ isPlaying (playback s') = isPlaying (playback s))
  \/ (exists extra, extra <> []
                    /\ overlays (browser s') = overlays (browser s) ++ extra
                    /\ isPlaying (playback s') = false).

(** What every operation but a dispatch and [restart] leaves alone: the
    event log with its flags, and the history of [createPacketFlow] calls. *)
Record logKept (s s' : Timeline) : Prop := mkLogKept {
  lk_data : data s' = data s;
  lk_calls : flowCalls s' = flowCalls s
}.

(** The event log is in timestamp order. *)
Definition sortedByTime (events : list Event) : Prop :=
  StronglySorted (fun a b => timestamp a <= timestamp b) events.

(** Event [j] of the log is due at [ts] and not yet processed. *)
Definition candidate (ts : Q) (s : Timeline) (j : nat) (x : Event) : Prop :=
  nth_error (data s) j = Some x
  /\ (inject_Z (timestamp x) <= ts)%Q
  /\ processed x = false.

Definition inCurrentStage (s : Timeline) (x : Event) : Prop :=
  stage x = currentStage (playback s).

Definition sameTypeAsLast (s : Timeline) (x : Event) : Prop :=
  lastProcessedEventType (playback s) = Some (attack_type x).

(** [i], [e] is the member of the class [P] that comes first in the log,
    hence first in timestamp order. *)
Definition earliestAmong (P : nat -> Event -> Prop) (i : nat) (e : Event) : Prop :=
  P i e /\ forall j x, P j x -> (i <= j)%nat /\ timestamp e <= timestamp x.

(** The rule of choice at a tick with simulated timestamp [ts]: some
    event [i] is dispatched, and it is the earliest current-stage candidate
    of the last dispatched attack type if there is one, else the earliest
    current-stage candidate if there is one, else the earliest candidate. *)
Definition selectionRule (s : Timeline) (ts : Q) : Prop :=
  exists i e,
    processEvents ts s = dispatch ts i e s
    /\ flowCalls (processEvents ts s) = i :: flowCalls s
    /\ let inStage j x := candidate ts s j x /\ inCurrentStage s x in
       let sameType j x :=
         candidate ts s j x /\ inCurrentStage s x /\ sameTypeAsLast s x in
       ((exists j x, sameType j x) -> earliestAmong sameType i e)
       /\ (~ (exists j x, sameType j x) -> (exists j x, inStage j x) ->
             earliestAmong inStage i e)
       /\ (~ (exists j x, inStage j x) -> earliestAmong (candidate ts s) i e).

Definition isProcessed (s : Timeline) (i : nat) : bool :=
  match nth_error (data s) i with
  | Some e => processed e
  | None => false
  end.

(** A step that flags one event that was not flagged and enters it in the
    history. *)
Definition dispatchesOne (s s' : Timeline) : Prop :=
  exists i, isProcessed s i = false
            /\ (i < List.length (data s))%nat
            /\ data s' = writeProcessed i true (data s)
            /\ flowCalls s' = i :: flowCalls s.

(** How often the flag of event [i] goes from false to true along a run. *)
Fixpoint flips (i : nat) (s : Timeline) (inputs : list Input) : nat :=
  match inputs with
  | [] => 0
  | input :: rest =>
      ((if negb (isProcessed s i) && isProcessed (step s input) i then 1 else 0)
       + flips i (step s input) rest)%nat
  end.

Definition restartFree (inputs : list Input) : Prop :=
  Forall (fun input => input <> ClickRestart) inputs.







(** The items a hop contributes: trail, tween, pulse and pause. *)
Definition isMotion (item : TimelineItem) : bool :=
  match item with
  | TrailSegment _ _ | TweenTo _ _ | HopPulse _ | Pause _ => true
  | OnCompleteImpact _ _ | FinalCall _ => false
  end.

(** A pending timer that will create a packet. *)
Definition isSpawn (t : Timer) : bool :=
  match callback t with
  | CbCreateSinglePacket _ _ _ _ => true
  | _ => false
  end.

(** The operation leaves the browser's clock alone and only adds timers
    that do not create packets. *)
Definition addsNoSpawn (s s' : Timeline) : Prop :=
  clock (browser s') = clock (browser s)
  /\ exists extra, timers (browser s') = timers (browser s) ++ extra
                   /\ filter isSpawn extra = [].

(** The climax of a packet: the impact ring and the marking of the
    destination node. *)
Definition isClimax (x : Effect) : bool :=
  match x with
  | ImpactEffect _ | NodeCompromised _ => true
  | TrailLine _ _ | HopEffect _ => false
  end.

(** The climax effects a flow shows when gsap plays its script through,
    the next draw of [Math.random] being the [n]-th. *)
Definition climaxOf (s : Timeline) (n : nat) (fl : Flow) : list Effect :=
  match nth_error (data s) (flowEvent fl) with
  | Some e => filter isClimax
                (playTimeline (nodeMap s) (random (browser s)) n e (animation fl))
  | None => []
  end.

(** The timers that [createPacketFlow] sets for the packets of event [i]. *)
Definition batchTimers (now : Z) (i : nat) (sp dp : Vector3) (count : nat)
    : list Timer :=
  map (fun k => mkTimer (now + Z.of_nat k * 200)
                        (CbCreateSinglePacket i sp dp (Nat.eqb k 0)))
      (seq 0 count).

(** The dismissal of info box [box] is still pending: the box is active. *)
Definition alertActive (box : nat) (s : Timeline) : Prop :=
  exists t wasPlaying,
    In (mkTimer t (CbDismiss box wasPlaying)) (timers (browser s)).

Definition Input_restart_dec (input : Input) :
  {input = ClickRestart} + {input <> ClickRestart}.
Proof. destruct input; (left; reflexivity) || (right; discriminate). Defined.

(** Concrete engines for the scenarios. *)
Module Sample.

Definition t0 : Z := 1700000000000.

Definition event (ms : Z) (ty cat : string) (st : Z) (chain : list string)
    (ok : bool) : Event :=
  mkEvent (t0 + ms) 3 cat ty "45.76.128.0" "192.168.100.10" ok st chain None false.

Definition noRandom : nat -> Q := fun _ => 0%Q.

(** The state the constructor leaves for an already sorted log that starts
    at [t0], in a browser whose clock reads 0. *)
Definition fresh (sorted : list Event) : Timeline :=
  mkTimeline sorted t0 createNetworkInfrastructure
    (mkPlayback 0 1 true 0 0 None)
    (mkShown None false false false false false)
    [] initialCamera (mkBrowser 0 [] false [] 0 noRandom 0 []) [].

(** Two harmless events, 10 ms apart. *)
Definition pair : Timeline :=
  fresh [event 0 "http" "benign" 0 [] true; event 10 "http" "benign" 0 [] true].

(** The three events of the continuity scenario, as loaded and as the
    constructor sorts them. *)
Definition rawTrio : list Event :=
  [ event 0 "port_scan" "reconnaissance" 1 [] false;
    event 100 "port_scan" "reconnaissance" 1 [] false;
    event 50 "zero_day_exploit" "exploitation" 1 [] true ].

Definition trio : Timeline :=
  fresh [ event 0 "port_scan" "reconnaissance" 1 [] false;
          event 50 "zero_day_exploit" "exploitation" 1 [] true;
          event 100 "port_scan" "reconnaissance" 1 [] false ].



(** A successful credential theft, and a credential-access event carried
    out with a living-off-the-land tool. *)
Definition theft : Event :=
  mkEvent t0 8 "credential_access" "credential_harvesting"
          "192.168.100.40" "192.168.100.50" true 0 [] None false.

Definition theftByLotl : Event :=
  mkEvent t0 8 "credential_access" "lotl_discovery"
          "192.168.100.40" "192.168.100.50" true 0 [] None false.

(** An engine whose first frame has dispatched the zero-day exploit and
    shown its info box. *)
Definition exploit : Event := event 0 "zero_day_exploit" "exploitation" 0 [] true.

Definition explaining : Timeline := update (1 # 1000) (fresh [exploit]).

(** One harmless event. *)
Definition quiet : Timeline := fresh [event 0 "http" "benign" 0 [] true].

End Sample.

(** ** Vocabulary of the further properties *)

(** The hour [h] lies in the window of stage [st]. *)
Definition inWindow (h : Q) (st : Stage) : Prop :=
  (inject_Z (stageStart st) <= h)%Q /\ (h < inject_Z (stageEnd st))%Q.

(** The speed a run ends with: that of its last speed click, if any. *)
Definition lastSpeed (inputs : list Input) (v : Q) : Q :=
  fold_left (fun v input => match input with
                            | ClickSpeed v' => v'
                            | _ => v
                            end) inputs v.

(** Frames never run backwards and speeds are never negative. *)
Definition wellTimed (inputs : list Input) : Prop :=
  Forall (fun input => match input with
                       | Frame dt => (0 <= dt)%Q
                       | ClickSpeed v => (0 <= v)%Q
                       | _ => True
                       end) inputs.

Definition clockInBounds (s : Timeline) : Prop :=
  (0 <= playbackSpeed (playback s))%Q
  /\ (0 <= currentTime (playback s))%Q
  /\ (currentTime (playback s) <= inject_Z (duration s))%Q.

(** Every processed event lies at or before the simulated present. *)
Definition dispatchedAreDue (s : Timeline) : Prop :=
  forall e, In e (data s) -> processed e = true ->
    (inject_Z (timestamp e) <= inject_Z (startTime s) + currentTime (playback s))%Q.

(** [updateFlows] called once per frame of [dts]. *)
Definition ageFlows (dts : list Q) (s : Timeline) : Timeline :=
  fold_left (fun s dt => updateFlows dt s) dts s.

(** The flow is still within its lifetime when it is [d] seconds older. *)
Definition outlives (d : Q) (fl : Flow) : bool :=
  Qle_bool (age fl + d) (lifetime fl).

(** [fl'] is [fl], [d] seconds older. *)
Definition agedBy (d : Q) (fl fl' : Flow) : Prop :=
  flowEvent fl' = flowEvent fl
  /\ packetSize fl' = packetSize fl
  /\ packetStart fl' = packetStart fl
  /\ lineEnd fl' = lineEnd fl
  /\ animation fl' = animation fl
  /\ lifetime fl' = lifetime fl
  /\ (age fl' == age fl + d)%Q.

(** [fl'] is [fl] at a later time: the same flow, and not younger. *)
Definition olderCopy (fl fl' : Flow) : Prop :=
  flowEvent fl' = flowEvent fl
  /\ packetSize fl' = packetSize fl
  /\ packetStart fl' = packetStart fl
  /\ lineEnd fl' = lineEnd fl
  /\ animation fl' = animation fl
  /\ lifetime fl' = lifetime fl
  /\ (age fl <= age fl')%Q.

(** The flows [after] are the flows [before] with some of them gone and
    the others older, in the order they had. *)
Inductive keptOlder : list Flow -> list Flow -> Prop :=
| keptOlder_nil : keptOlder [] []
| keptOlder_drop fl before after :
    keptOlder before after -> keptOlder (fl :: before) after
| keptOlder_keep fl fl' before after :
    olderCopy fl fl' -> keptOlder before after ->
    keptOlder (fl :: before) (fl' :: after).

(** The first two counters of [updateCounters]: the processed events, and
    the size of the set of destinations of the processed, successful
    events. *)
Definition processedEvents (s : Timeline) : nat :=
  List.length (filter processed (data s)).

Definition compromised (s : Timeline) : nat :=
  List.length
    (nodup string_dec
       (map destination_ip (filter (fun e => processed e && success e) (data s)))).

(** The event a pending timer will create a packet for. *)
Definition spawnEvent (t : Timer) : option nat :=
  match callback t with
  | CbCreateSinglePacket i _ _ _ => Some i
  | _ => None
  end.

(** Every active flow and every pending packet timer belongs to an event
    that was handed to [createPacketFlow]. *)
Definition flowsAreDispatched (s : Timeline) : Prop :=
  (forall fl, In fl (activeFlows s) -> In (flowEvent fl) (flowCalls s))
  /\ (forall t i, In t (timers (browser s)) -> spawnEvent t = Some i ->
                  In i (flowCalls s)).

Definition AlertKind_eq_dec (a b : AlertKind) : {a = b} + {a <> b}.
Proof. decide equality. Defined.

(** The info boxes of kind [k] in the document. *)
Definition countBox (k : AlertKind) (s : Timeline) : nat :=
  List.length (filter (fun o => if AlertKind_eq_dec (snd o) k then true else false)
                      (overlays (browser s))).

(** At most one box of kind [k] is in the document, and none while the
    flag that guards the kind is down. *)
Definition shownOnce (k : AlertKind) (flag : Shown -> bool) (s : Timeline) : Prop :=
  (countBox k s <= (if flag (shown s) then 1 else 0))%nat.

(** The operation leaves the shown-flags and the info boxes alone. *)
Definition sameBoxes (s s' : Timeline) : Prop :=
  shown s' = shown s /\ overlays (browser s') = overlays (browser s).

(** The seconds a script takes when gsap plays it through: its tweens and
    pauses run one after the other, its calls take no time. *)
Fixpoint scriptSeconds (items : list TimelineItem) : Q :=
  match items with
  | [] => 0%Q
  | TweenTo _ d :: rest => (d + scriptSeconds rest)%Q
  | Pause d :: rest => (d + scriptSeconds rest)%Q
  | _ :: rest => scriptSeconds rest
  end.

Definition isTween (item : TimelineItem) : bool :=
  match item with TweenTo _ _ => true | _ => false end.

(** No tween in flight is the fade of box [box]. *)
Definition notFading (box : nat) (s : Timeline) : Prop :=
  forall t, In t (tweens (browser s)) -> fadedBox t <> Some box.

(** Every pending dismissal of box [box] comes due after [time]. *)
Definition dismissalAfter (box : nat) (time : Z) (s : Timeline) : Prop :=
  forall t wasPlaying,
    In t (timers (browser s)) -> callback t = CbDismiss box wasPlaying -> time < due t.


(** * Properties *)

(** ** Numbers *)

Lemma ltb_true (a b : Q) : Js.ltb a b = true <-> (a < b)%Q.
Proof.
  unfold Js.ltb. rewrite negb_true_iff. split; intro H.
  - apply Qnot_le_lt. intro Hle. apply Qle_bool_iff in Hle. congruence.
  - destruct (Qle_bool b a) eqn:E; [|reflexivity].
    apply Qle_bool_iff in E. exfalso. exact (Qlt_not_le _ _ H E).
Qed.

Lemma ltb_false (a b : Q) : Js.ltb a b = false <-> (b <= a)%Q.
Proof.
  unfold Js.ltb. rewrite negb_false_iff. apply Qle_bool_iff.
Qed.

Lemma duration_72h (s : Timeline) : duration s = 259200000.
Proof. unfold duration, endTime. lia. Qed.

(** A reflexive and transitive relation that every step of a fold keeps
    relates the start of the fold to its end. *)
Lemma fold_left_kept {S A : Type} (R : S -> S -> Prop) (f : S -> A -> S) :
  (forall s, R s s) ->
  (forall a b c, R a b -> R b c -> R a c) ->
  (forall s x, R s (f s x)) ->
  forall l s, R s (fold_left f l s).
Proof.
  intros Hrefl Htrans Hstep l.
  induction l as [|x l IH]; intro s; simpl; [apply Hrefl|].
  eapply Htrans; [apply Hstep|apply IH].
Qed.

(** An invariant that every step of a fold keeps holds at its end. *)
Lemma fold_left_inv {S A : Type} (P : S -> Prop) (f : S -> A -> S) :
  (forall s x, P s -> P (f s x)) ->
  forall l s, P s -> P (fold_left f l s).
Proof.
  intros Hstep l.
  induction l as [|x l IH]; intros s H; simpl; [exact H|].
  apply IH, Hstep, H.
Qed.

(** ** What the steps inside [update] keep of the clock *)

Lemma clockKept_refl (s : Timeline) : clockKept s s.
Proof. constructor; auto. Qed.

Lemma clockKept_trans (s1 s2 s3 : Timeline) :
  clockKept s1 s2 -> clockKept s2 s3 -> clockKept s1 s3.
Proof.
  intros [T1 V1 O1 P1] [T2 V2 O2 P2]. constructor; try congruence. auto.
Qed.

Lemma clockKept_onShown f s : clockKept s (onShown f s).
Proof. constructor; auto. Qed.

Lemma clockKept_onBrowser f s : clockKept s (onBrowser f s).
Proof. constructor; auto. Qed.

Lemma clockKept_setData d s : clockKept s (setData d s).
Proof. constructor; auto. Qed.

Lemma clockKept_setActiveFlows fl s : clockKept s (setActiveFlows fl s).
Proof. constructor; auto. Qed.

Lemma clockKept_setCamera c s : clockKept s (setCamera c s).
Proof. constructor; auto. Qed.

Lemma clockKept_recordFlowCall i s : clockKept s (recordFlowCall i s).
Proof. constructor; auto. Qed.

Lemma clockKept_setTimeout cb d s : clockKept s (setTimeout cb d s).
Proof. constructor; auto. Qed.

Lemma clockKept_highlight k s : clockKept s (highlight k s).
Proof. constructor; auto. Qed.

Lemma clockKept_setLastEvent t ty s : clockKept s (onPlayback (setLastEvent t ty) s).
Proof. constructor; auto. Qed.

Lemma clockKept_setCurrentStage n s : clockKept s (onPlayback (setCurrentStage n) s).
Proof. constructor; auto. Qed.

Create HintDb clock.

#[local] Hint Resolve clockKept_refl clockKept_onShown clockKept_onBrowser
  clockKept_setData clockKept_setActiveFlows clockKept_setCamera
  clockKept_recordFlowCall clockKept_setTimeout clockKept_highlight
  clockKept_setLastEvent clockKept_setCurrentStage : clock.

Ltac clock_leaf := constructor; simpl; auto.

Lemma nodePosition_state ip s :
  snd (nodePosition ip s)
  = onBrowser (setDraws (snd (getNodePosition (nodeMap s) (random (browser s))
                                              (draws (browser s)) ip))) s.
Proof.
  unfold nodePosition.
  destruct (getNodePosition _ _ _ ip); reflexivity.
Qed.

Lemma clockKept_nodePosition ip s : clockKept s (snd (nodePosition ip s)).
Proof. rewrite nodePosition_state. auto with clock. Qed.

Lemma clockKept_followAttack i s : clockKept s (followAttack i s).
Proof.
  unfold followAttack. destruct (nth_error (data s) i) as [e|]; [|auto with clock].
  pose proof (clockKept_nodePosition (source_ip e) s) as H1.
  destruct (nodePosition (source_ip e) s) as [sp s1]. simpl in H1.
  pose proof (clockKept_nodePosition (destination_ip e) s1) as H2.
  destruct (nodePosition (destination_ip e) s1) as [dp s2]. simpl in H2.
  assert (H : clockKept s s2) by (eapply clockKept_trans; eassumption).
  destruct sp, dp; try exact H.
  eapply clockKept_trans; [exact H|clock_leaf].
Qed.

Lemma clockKept_spawnLoop i sp dp count : forall k s,
  clockKept s (spawnLoop i sp dp k count s).
Proof.
  induction count as [|count IH]; intros k s; simpl; [auto with clock|].
  eapply clockKept_trans; [|apply IH]. auto with clock.
Qed.

Lemma clockKept_alerts e s : clockKept s (alerts e s).
Proof.
  unfold alerts.
  assert (A1 : clockKept s (alertCriticalAccess e s)).
  { unfold alertCriticalAccess, highlightCriticalAccess.
    destruct (_ && _); clock_leaf. }
  assert (A2 : forall s, clockKept s (alertNtds e s)).
  { intro s'. unfold alertNtds, highlightNTDSExtraction.
    destruct (_ && _); clock_leaf. }
  assert (A3 : forall s, clockKept s (alertOt e s)).
  { intro s'. unfold alertOt, highlightCriticalInfrastructure.
    destruct (_ && _); clock_leaf. }
  assert (A4 : forall s, clockKept s (alertExfiltration e s)).
  { intro s'. unfold alertExfiltration, highlightExfiltration.
    destruct (_ && _); clock_leaf. }
  eapply clockKept_trans; [exact A1|].
  eapply clockKept_trans; [apply A2|].
  eapply clockKept_trans; [apply A3|apply A4].
Qed.

Lemma clockKept_createPacketFlow i s : clockKept s (createPacketFlow i s).
Proof.
  unfold createPacketFlow.
  set (s0 := recordFlowCall i s).
  assert (H0 : clockKept s s0) by (subst s0; auto with clock).
  destruct (nth_error (data s0) i) as [e|]; [|exact H0].
  pose proof (clockKept_nodePosition (source_ip e) s0) as H1.
  destruct (nodePosition (source_ip e) s0) as [sp s1]. simpl in H1.
  pose proof (clockKept_nodePosition (destination_ip e) s1) as H2.
  destruct (nodePosition (destination_ip e) s1) as [dp s2]. simpl in H2.
  assert (H : clockKept s s2).
  { eapply clockKept_trans; [exact H0|]. eapply clockKept_trans; eassumption. }
  destruct sp, dp; try exact H.
  eapply clockKept_trans; [exact H|].
  eapply clockKept_trans; [apply clockKept_alerts|apply clockKept_spawnLoop].
Qed.

Lemma clockKept_explainZeroDay e s : clockKept s (explainZeroDay e s).
Proof.
  unfold explainZeroDay, highlightZeroDay. destruct (_ && _); clock_leaf.
Qed.

Lemma clockKept_followMajor i e s : clockKept s (followMajor i e s).
Proof.
  unfold followMajor. destruct (_ && _); [|apply clockKept_refl].
  destruct (String.eqb (attack_type e) "zero_day_exploit").
  - clock_leaf.
  - eapply clockKept_trans; [apply clockKept_followAttack|apply clockKept_onShown].
Qed.

Lemma clockKept_dispatch t i e s : clockKept s (dispatch t i e s).
Proof.
  unfold dispatch.
  eapply clockKept_trans; [apply clockKept_setLastEvent|].
  eapply clockKept_trans; [apply clockKept_setData|].
  eapply clockKept_trans; [apply clockKept_createPacketFlow|].
  eapply clockKept_trans; [apply clockKept_explainZeroDay|].
  apply clockKept_followMajor.
Qed.

Lemma clockKept_processEvents t s : clockKept s (processEvents t s).
Proof.
  unfold processEvents. destruct (gateClosed t s); [auto with clock|].
  destruct (selectNext _ _ _) as [[i e]|]; auto using clockKept_dispatch with clock.
Qed.

Lemma clockKept_updateStage s : clockKept s (updateStage s).
Proof.
  unfold updateStage. destruct (resolveStage _) as [n|]; [|auto with clock].
  destruct (negb _); [|auto with clock].
  destruct (nth_error stages n); [|auto with clock].
  unfold onStageChange, animateCamera. clock_leaf.
Qed.

Lemma clockKept_updateFlows dt s : clockKept s (updateFlows dt s).
Proof. unfold updateFlows. auto with clock. Qed.

(** After the clock has advanced, the rest of [update] leaves it alone. *)
Lemma update_playing dt s :
  isPlaying (playback s) = true ->
  clockKept (advanceClock dt s) (update dt s).
Proof.
  intro P. unfold update. rewrite P. simpl.
  eapply clockKept_trans; [apply clockKept_updateStage|].
  eapply clockKept_trans; [apply clockKept_processEvents|].
  apply clockKept_updateFlows.
Qed.

(** ** Playback clock *)

Lemma advanceClock_speed dt s :
  playbackSpeed (playback (advanceClock dt s)) = playbackSpeed (playback s).
Proof. unfold advanceClock. destruct (Js.ltb _ _); reflexivity. Qed.

Lemma update_stopped dt s : isPlaying (playback s) = false -> update dt s = s.
Proof. intro P. unfold update. rewrite P. reflexivity. Qed.

Lemma update_speed dt s :
  playbackSpeed (playback (update dt s)) = playbackSpeed (playback s).
Proof.
  destruct (isPlaying (playback s)) eqn:P.
  - rewrite (ck_speed _ _ (update_playing dt s P)). apply advanceClock_speed.
  - rewrite update_stopped by exact P. reflexivity.
Qed.

(** *** The pause inside [update] *)

Lemma pausesIffShows_refl s : pausesIffShows s s.
Proof. left. split; reflexivity. Qed.

Lemma pausesIffShows_trans s1 s2 s3 :
  pausesIffShows s1 s2 -> pausesIffShows s2 s3 -> pausesIffShows s1 s3.
Proof.
  intros [[O1 P1]|(x1 & N1 & O1 & P1)] [[O2 P2]|(x2 & N2 & O2 & P2)].
  - left. split; congruence.
  - right. exists x2. repeat split; congruence.
  - right. exists x1. repeat split; congruence.
  - right. exists (x1 ++ x2). repeat split.
    + destruct x1; [congruence|discriminate].
    + rewrite O2, O1, app_assoc. reflexivity.
    + exact P2.
Qed.

Lemma pausesIffShows_highlight k s : pausesIffShows s (highlight k s).
Proof.
  right. exists [(nextBox (browser s), k)]. repeat split. discriminate.
Qed.

Ltac pause_leaf := left; split; reflexivity.

Lemma pausesIffShows_onShown f s : pausesIffShows s (onShown f s).
Proof. pause_leaf. Qed.

Lemma pausesIffShows_setTimeout cb d s : pausesIffShows s (setTimeout cb d s).
Proof. pause_leaf. Qed.

Lemma pausesIffShows_updateFlows dt s : pausesIffShows s (updateFlows dt s).
Proof. pause_leaf. Qed.

Lemma pausesIffShows_nodePosition ip s : pausesIffShows s (snd (nodePosition ip s)).
Proof. rewrite nodePosition_state. pause_leaf. Qed.

Lemma pausesIffShows_followAttack i s : pausesIffShows s (followAttack i s).
Proof.
  unfold followAttack. destruct (nth_error (data s) i) as [e|]; [|apply pausesIffShows_refl].
  pose proof (pausesIffShows_nodePosition (source_ip e) s) as H1.
  destruct (nodePosition (source_ip e) s) as [sp s1]. simpl in H1.
  pose proof (pausesIffShows_nodePosition (destination_ip e) s1) as H2.
  destruct (nodePosition (destination_ip e) s1) as [dp s2]. simpl in H2.
  assert (H : pausesIffShows s s2) by (eapply pausesIffShows_trans; eassumption).
  destruct sp, dp; exact H.
Qed.

Lemma pausesIffShows_spawnLoop i sp dp count : forall k s,
  pausesIffShows s (spawnLoop i sp dp k count s).
Proof.
  induction count as [|count IH]; intros k s; simpl; [apply pausesIffShows_refl|].
  eapply pausesIffShows_trans; [|apply IH]. pause_leaf.
Qed.

Lemma pausesIffShows_alerts e s : pausesIffShows s (alerts e s).
Proof.
  unfold alerts.
  assert (A1 : forall s, pausesIffShows s (alertCriticalAccess e s)).
  { intro s'. unfold alertCriticalAccess, highlightCriticalAccess.
    destruct (_ && _); [|apply pausesIffShows_refl].
    eapply pausesIffShows_trans; [|apply pausesIffShows_setTimeout].
    eapply pausesIffShows_trans; [apply pausesIffShows_onShown|apply pausesIffShows_highlight]. }
  assert (A2 : forall s, pausesIffShows s (alertNtds e s)).
  { intro s'. unfold alertNtds, highlightNTDSExtraction.
    destruct (_ && _); [|apply pausesIffShows_refl].
    eapply pausesIffShows_trans; [apply pausesIffShows_onShown|apply pausesIffShows_highlight]. }
  assert (A3 : forall s, pausesIffShows s (alertOt e s)).
  { intro s'. unfold alertOt, highlightCriticalInfrastructure.
    destruct (_ && _); [|apply pausesIffShows_refl].
    eapply pausesIffShows_trans; [|apply pausesIffShows_setTimeout].
    eapply pausesIffShows_trans; [apply pausesIffShows_onShown|apply pausesIffShows_highlight]. }
  assert (A4 : forall s, pausesIffShows s (alertExfiltration e s)).
  { intro s'. unfold alertExfiltration, highlightExfiltration.
    destruct (_ && _); [apply pausesIffShows_highlight|apply pausesIffShows_refl]. }
  eapply pausesIffShows_trans; [apply A1|].
  eapply pausesIffShows_trans; [apply A2|].
  eapply pausesIffShows_trans; [apply A3|apply A4].
Qed.

Lemma pausesIffShows_createPacketFlow i s : pausesIffShows s (createPacketFlow i s).
Proof.
  unfold createPacketFlow.
  set (s0 := recordFlowCall i s).
  assert (H0 : pausesIffShows s s0) by (subst s0; pause_leaf).
  destruct (nth_error (data s0) i) as [e|]; [|exact H0].
  pose proof (pausesIffShows_nodePosition (source_ip e) s0) as H1.
  destruct (nodePosition (source_ip e) s0) as [sp s1]. simpl in H1.
  pose proof (pausesIffShows_nodePosition (destination_ip e) s1) as H2.
  destruct (nodePosition (destination_ip e) s1) as [dp s2]. simpl in H2.
  assert (H : pausesIffShows s s2).
  { eapply pausesIffShows_trans; [exact H0|]. eapply pausesIffShows_trans; eassumption. }
  destruct sp, dp; try exact H.
  eapply pausesIffShows_trans; [exact H|].
  eapply pausesIffShows_trans; [apply pausesIffShows_alerts|apply pausesIffShows_spawnLoop].
Qed.

Lemma pausesIffShows_dispatch t i e s : pausesIffShows s (dispatch t i e s).
Proof.
  assert (F : forall s, pausesIffShows s (followMajor i e s)).
  { intro s'. unfold followMajor. destruct (_ && _); [|apply pausesIffShows_refl].
    eapply pausesIffShows_trans; [|apply pausesIffShows_onShown].
    destruct (String.eqb (attack_type e) "zero_day_exploit");
      [apply pausesIffShows_setTimeout|apply pausesIffShows_followAttack]. }
  assert (Z : forall s, pausesIffShows s (explainZeroDay e s)).
  { intro s'. unfold explainZeroDay, highlightZeroDay.
    destruct (_ && _); [|apply pausesIffShows_refl].
    eapply pausesIffShows_trans; [apply pausesIffShows_onShown|apply pausesIffShows_highlight]. }
  unfold dispatch. cbv zeta.
  eapply pausesIffShows_trans; [|apply F].
  eapply pausesIffShows_trans; [|apply Z].
  eapply pausesIffShows_trans; [|apply pausesIffShows_createPacketFlow].
  pause_leaf.
Qed.

Lemma pausesIffShows_processEvents t s : pausesIffShows s (processEvents t s).
Proof.
  unfold processEvents. destruct (gateClosed t s); [apply pausesIffShows_refl|].
  destruct (selectNext _ _ _) as [[i e]|];
    [apply pausesIffShows_dispatch|apply pausesIffShows_refl].
Qed.

Lemma pausesIffShows_updateStage s : pausesIffShows s (updateStage s).
Proof.
  unfold updateStage. destruct (resolveStage _) as [n|]; [|apply pausesIffShows_refl].
  destruct (negb _); [|apply pausesIffShows_refl].
  destruct (nth_error stages n); pause_leaf.
Qed.

(** After the clock has advanced, the rest of [update] pauses exactly when
    it shows an info box. *)
Lemma update_pause dt s :
  isPlaying (playback s) = true ->
  pausesIffShows (advanceClock dt s) (update dt s).
Proof.
  intro P. unfold update. rewrite P. simpl.
  eapply pausesIffShows_trans; [apply pausesIffShows_updateStage|].
  eapply pausesIffShows_trans;
    [apply pausesIffShows_processEvents|apply pausesIffShows_updateFlows].
Qed.

Lemma advanceClock_overlays dt s :
  overlays (browser (advanceClock dt s)) = overlays (browser s).
Proof. unfold advanceClock. destruct (Js.ltb _ _); reflexivity. Qed.

Lemma advanceClock_code dt s :
  let t := (currentTime (playback s) + dt * playbackSpeed (playback s) * 360 * 1000)%Q in
  ((t <= inject_Z (duration s))%Q ->
     currentTime (playback (advanceClock dt s)) = t
     /\ isPlaying (playback (advanceClock dt s)) = isPlaying (playback s))
  /\ ((inject_Z (duration s) < t)%Q ->
        currentTime (playback (advanceClock dt s)) = inject_Z (duration s)
        /\ isPlaying (playback (advanceClock dt s)) = false).
Proof.
  intro t. subst t. unfold advanceClock.
  destruct (Js.ltb _ _) eqn:E; simpl in *.
  - apply ltb_true in E. split; intro H; [|auto].
    exfalso. exact (Qlt_not_le _ _ E H).
  - apply ltb_false in E. split; intro H; [auto|].
    exfalso. exact (Qlt_not_le _ _ H E).
Qed.

(** What a call of [update] does to the clock while the engine plays. *)
Lemma update_playing_clock dt s :
  isPlaying (playback s) = true ->
  let t := (currentTime (playback s) + dt * playbackSpeed (playback s) * 360 * 1000)%Q in
  ((t <= inject_Z (duration s))%Q ->
     currentTime (playback (update dt s)) = t
     /\ (isPlaying (playback (update dt s)) = true
         <-> overlays (browser (update dt s)) = overlays (browser s)))
  /\ ((inject_Z (duration s) < t)%Q ->
        currentTime (playback (update dt s)) = inject_Z (duration s)
        /\ isPlaying (playback (update dt s)) = false).
Proof.
  intros P t. subst t.
  pose proof (update_playing dt s P) as K.
  pose proof (update_pause dt s P) as W.
  destruct (advanceClock_code dt s) as [Hin Hout].
  split; intro H.
  - destruct (Hin H) as [Ht Hp]. split.
    + rewrite (ck_time _ _ K). exact Ht.
    + unfold pausesIffShows in W. rewrite advanceClock_overlays, Hp, P in W.
      destruct W as [[O Q]|(extra & N & O & Q)].
      * split; intro; assumption.
      * split; intro X; [congruence|].
        exfalso. apply N.
        rewrite <- (app_nil_r (overlays (browser s))) in X at 1.
        rewrite O in X. apply app_inv_head in X. congruence.
  - destruct (Hout H) as [Ht Hp]. split.
    + rewrite (ck_time _ _ K). exact Ht.
    + apply (ck_stopped _ _ K), Hp.
Qed.

(** C1, as the code has it.  A call to [update] while paused changes
    nothing.  While playing, the call computes
    [t = currentTime + deltaTime * playbackSpeed * 360 * 1000]: when [t]
    does not exceed the 72-hour duration, simulated time becomes [t], and
    the engine is still playing after the call unless the call has shown an
    info box; when [t] exceeds the duration, simulated time is set to the
    duration and [isPlaying] to false.  So a frame that lands exactly on
    the duration does not stop the clock (the test is a strict [>]).  At
    1x one second adds 360,000 ms, and one frame of 720 seconds from time 0
    gives exactly 259,200,000 ms, the duration. *)
Theorem update_clock :
  (forall s dt, isPlaying (playback s) = false -> update dt s = s)
  /\ (forall s dt, isPlaying (playback s) = true ->
        let t := (currentTime (playback s)
                  + dt * playbackSpeed (playback s) * 360 * 1000)%Q in
        ((t <= inject_Z (duration s))%Q ->
           currentTime (playback (update dt s)) = t
           /\ (isPlaying (playback (update dt s)) = true
               <-> overlays (browser (update dt s)) = overlays (browser s)))
        /\ ((inject_Z (duration s) < t)%Q ->
              currentTime (playback (update dt s)) = inject_Z (duration s)
              /\ isPlaying (playback (update dt s)) = false))
  /\ (forall s dt, isPlaying (playback s) = true ->
        (currentTime (playback s) + dt * playbackSpeed (playback s) * 360 * 1000
         == inject_Z (duration s))%Q ->
        (currentTime (playback (update dt s)) == inject_Z (duration s))%Q
        /\ (isPlaying (playback (update dt s)) = true
            <-> overlays (browser (update dt s)) = overlays (browser s)))
  /\ (forall s, isPlaying (playback s) = true ->
        (playbackSpeed (playback s) == 1)%Q ->
        ((currentTime (playback s) + 360000 <= inject_Z (duration s))%Q ->
           (currentTime (playback (update 1 s)) == currentTime (playback s) + 360000)%Q)
        /\ ((currentTime (playback s) == 0)%Q ->
              (currentTime (playback (update 720 s)) == 259200000)%Q))
  /\ (forall s, duration s = 259200000).
Proof.
  split; [|split; [|split; [|split]]].
  - intros s dt P. apply update_stopped, P.
  - intros s dt P. apply update_playing_clock, P.
  - intros s dt P E.
    destruct (update_playing_clock dt s P) as [Hin _].
    destruct Hin as [Ht Hp]; [rewrite E; apply Qle_refl|].
    split; [rewrite Ht; exact E|exact Hp].
  - intros s P V. split; intro H.
    + destruct (update_playing_clock 1 s P) as [Hin _].
      destruct Hin as [Ht _]; [rewrite V; lra|].
      rewrite Ht, V. ring.
    + destruct (update_playing_clock 720 s P) as [Hin _].
      destruct Hin as [Ht _].
      * rewrite V, H, duration_72h. unfold inject_Z. lra.
      * rewrite Ht, V, H. reflexivity.
  - exact duration_72h.
Qed.

(** One frame of 720 seconds on a fresh engine lands exactly on the
    duration. *)
Lemma update_clock_witness :
  (currentTime (playback (update 720 Sample.quiet)) == inject_Z (duration Sample.quiet))%Q
  /\ (isPlaying (playback (update 720 Sample.quiet)) = true
      <-> overlays (browser (update 720 Sample.quiet)) = overlays (browser Sample.quiet)).
Proof.
  apply (proj1 (proj2 (proj2 update_clock)) Sample.quiet 720%Q).
  - reflexivity.
  - vm_compute. reflexivity.
Defined.

(** C1 as stated fails at the boundary: one frame of exactly 720 seconds at
    1x brings simulated time to the full 259,200,000 ms, and the engine is
    still playing. *)
Lemma exact_end_keeps_playing :
  (currentTime (playback (update 720 Sample.quiet)) == inject_Z (duration Sample.quiet))%Q
  /\ (currentTime (playback (update 720 Sample.quiet)) == 259200000)%Q
  /\ isPlaying (playback (update 720 Sample.quiet)) = true.
Proof. vm_compute. repeat split; reflexivity. Qed.

(** ** Event gate: the interval *)

Lemma truthy_true (a : Q) : Js.truthy a = true <-> ~ (a == 0)%Q.
Proof.
  unfold Js.truthy. rewrite negb_true_iff. split.
  - intros H E. apply Qeq_bool_iff in E. congruence.
  - intro H. destruct (Qeq_bool a 0) eqn:E; [|reflexivity].
    exfalso. apply H, Qeq_bool_iff, E.
Qed.

(** What [update] does before it reaches the gate leaves the log, the
    history and the gate's own variables alone. *)
Lemma before_gate dt s :
  let s2 := updateStage (advanceClock dt s) in
  data s2 = data s /\ flowCalls s2 = flowCalls s
  /\ lastEventProcessedTime (playback s2) = lastEventProcessedTime (playback s)
  /\ lastProcessedEventType (playback s2) = lastProcessedEventType (playback s)
  /\ timers (browser s2) = timers (browser s) /\ activeFlows s2 = activeFlows s.
Proof.
  unfold updateStage, advanceClock, onStageChange, animateCamera.
  destruct (Js.ltb _ _); simpl;
    destruct (resolveStage _) as [n|]; simpl; auto 10;
    destruct (negb _); simpl; auto 10;
    destruct (nth_error stages n); simpl; auto 10.
Qed.

Lemma update_unfold dt s :
  isPlaying (playback s) = true ->
  update dt s
  = let s2 := updateStage (advanceClock dt s) in
    updateFlows dt
      (processEvents (inject_Z (startTime s2) + currentTime (playback s2))%Q s2).
Proof. intro P. unfold update. rewrite P. reflexivity. Qed.

(** The simulated timestamp [update] hands to [processEvents] is the one
    the clock shows afterwards. *)
Lemma update_timestamp dt s :
  isPlaying (playback s) = true ->
  let s2 := updateStage (advanceClock dt s) in
  startTime s2 = startTime s
  /\ currentTime (playback s2) = currentTime (playback (update dt s)).
Proof.
  intros P s2. split.
  - subst s2. rewrite (ck_start _ _ (clockKept_updateStage _)).
    unfold advanceClock. destruct (Js.ltb _ _); reflexivity.
  - rewrite (ck_time _ _ (update_playing dt s P)).
    subst s2. apply (ck_time _ _ (clockKept_updateStage _)).
Qed.

Lemma processEvents_closed t s : gateClosed t s = true -> processEvents t s = s.
Proof. intro G. unfold processEvents. rewrite G. reflexivity. Qed.

Lemma gate_frame (s : Timeline) (dt : Q) :
  ~ (lastEventProcessedTime (playback s) == 0)%Q ->
  (inject_Z (startTime s) + currentTime (playback (update dt s))
   - lastEventProcessedTime (playback s) < minEventInterval)%Q ->
  flowCalls (update dt s) = flowCalls s
  /\ data (update dt s) = data s
  /\ lastEventProcessedTime (playback (update dt s))
     = lastEventProcessedTime (playback s)
  /\ startTime (update dt s) = startTime s.
Proof.
  intros Hlast Hnear.
  destruct (isPlaying (playback s)) eqn:P.
  - destruct (update_timestamp dt s P) as [Hst Hct].
    destruct (before_gate dt s) as (Hd & Hf & Hl & _).
    rewrite (update_unfold dt s P). cbv zeta.
    rewrite processEvents_closed.
    + unfold updateFlows. simpl. auto.
    + unfold gateClosed. rewrite Hl, Hst, Hct. apply andb_true_iff. split.
      * apply truthy_true, Hlast.
      * apply ltb_true, Hnear.
  - rewrite update_stopped by exact P. auto.
Qed.

(** C2, as the code has it.  The interval of the gate is measured on the
    simulated timestamp [startTime + currentTime] that [update] passes to
    [processEvents]: when an event has been dispatched before (the recorded
    timestamp is not zero), the frames that leave the simulated timestamp
    fewer than 500 simulated milliseconds after that dispatch dispatch
    nothing and flag nothing, whatever candidates are due. *)
Theorem gate_simulated_interval : forall (dts : list Q) (s : Timeline),
  ~ (lastEventProcessedTime (playback s) == 0)%Q ->
  staysNear s dts ->
  flowCalls (run s (map Frame dts)) = flowCalls s
  /\ data (run s (map Frame dts)) = data s
  /\ lastEventProcessedTime (playback (run s (map Frame dts)))
     = lastEventProcessedTime (playback s).
Proof.
  induction dts as [|dt rest IH]; intros s Hlast Hnear; simpl; [auto|].
  destruct Hnear as [Hdt Hrest].
  destruct (gate_frame s dt Hlast Hdt) as (C & D & L & _).
  destruct (IH (update dt s)) as (C' & D' & L').
  - rewrite L. exact Hlast.
  - exact Hrest.
  - repeat split; congruence.
Qed.

(** Two candidates 10 ms apart: the first frame dispatches one of them at
    simulated millisecond 360; the next two frames, 90 simulated
    milliseconds each, dispatch nothing although the other one is due. *)
Lemma gate_simulated_interval_witness :
  let s1 := update (1 # 1000) Sample.pair in
  flowCalls s1 = [0%nat]
  /\ map processed (data s1) = [true; false]
  /\ flowCalls (run s1 (map Frame [1 # 4000; 1 # 4000]%Q)) = flowCalls s1
  /\ data (run s1 (map Frame [1 # 4000; 1 # 4000]%Q)) = data s1
  /\ lastEventProcessedTime (playback (run s1 (map Frame [1 # 4000; 1 # 4000]%Q)))
     = lastEventProcessedTime (playback s1).
Proof.
  intro s1. split; [reflexivity|]. split; [reflexivity|].
  apply (gate_simulated_interval [1 # 4000; 1 # 4000]%Q s1).
  - vm_compute. discriminate.
  - vm_compute. repeat split; reflexivity.
Defined.

(** C2 as stated fails: the interval is not one of wall-clock time.  Two
    frames a tenth of a second apart (100 ms of real time, well under 500)
    dispatch the two candidates one after the other. *)
Lemma gate_ignores_wall_clock :
  let s1 := update (1 # 10) Sample.pair in
  let s2 := update (1 # 10) (elapse 100 s1) in
  flowCalls s1 = [0%nat]
  /\ flowCalls s2 = [1%nat; 0%nat]
  /\ clock (browser s2) - clock (browser s1) = 100
  /\ ((1 # 10) * 1000 < 500)%Q.
Proof. vm_compute. repeat split; reflexivity. Qed.

(** ** What leaves the log and the history alone *)

Lemma logKept_refl s : logKept s s.
Proof. constructor; reflexivity. Qed.

Lemma logKept_trans s1 s2 s3 : logKept s1 s2 -> logKept s2 s3 -> logKept s1 s3.
Proof. intros [D1 C1] [D2 C2]. constructor; congruence. Qed.

Ltac log_leaf := constructor; reflexivity.

Lemma logKept_onPlayback f s : logKept s (onPlayback f s).
Proof. log_leaf. Qed.

Lemma logKept_onShown f s : logKept s (onShown f s).
Proof. log_leaf. Qed.

Lemma logKept_onBrowser f s : logKept s (onBrowser f s).
Proof. log_leaf. Qed.

Lemma logKept_setActiveFlows fl s : logKept s (setActiveFlows fl s).
Proof. log_leaf. Qed.

Lemma logKept_setCamera c s : logKept s (setCamera c s).
Proof. log_leaf. Qed.

Lemma logKept_setTimeout cb d s : logKept s (setTimeout cb d s).
Proof. log_leaf. Qed.

Lemma logKept_highlight k s : logKept s (highlight k s).
Proof. log_leaf. Qed.

Lemma logKept_dismiss box w s : logKept s (dismiss box w s).
Proof. unfold dismiss. destruct w; log_leaf. Qed.

Lemma logKept_finishTween e s : logKept s (finishTween e s).
Proof. destruct e; log_leaf. Qed.

Lemma logKept_gsapTick ms s : logKept s (gsapTick ms s).
Proof.
  unfold gsapTick. destruct (gsapPaused (browser s)); [apply logKept_refl|].
  cbv zeta. eapply logKept_trans; [apply logKept_onBrowser|].
  apply fold_left_kept;
    [apply logKept_refl|apply logKept_trans|intros; apply logKept_finishTween].
Qed.

Lemma logKept_waitUntil t s : logKept s (waitUntil t s).
Proof.
  unfold waitUntil. destruct (t <=? clock (browser s)); [apply logKept_refl|].
  eapply logKept_trans; [apply logKept_gsapTick|apply logKept_onBrowser].
Qed.

Lemma logKept_nodePosition ip s : logKept s (snd (nodePosition ip s)).
Proof. rewrite nodePosition_state. log_leaf. Qed.

Lemma logKept_followAttack i s : logKept s (followAttack i s).
Proof.
  unfold followAttack. destruct (nth_error (data s) i) as [e|]; [|apply logKept_refl].
  pose proof (logKept_nodePosition (source_ip e) s) as H1.
  destruct (nodePosition (source_ip e) s) as [sp s1]. simpl in H1.
  pose proof (logKept_nodePosition (destination_ip e) s1) as H2.
  destruct (nodePosition (destination_ip e) s1) as [dp s2]. simpl in H2.
  assert (H : logKept s s2) by (eapply logKept_trans; eassumption).
  destruct sp, dp; try exact H.
  eapply logKept_trans; [exact H|log_leaf].
Qed.

Lemma logKept_spawnLoop i sp dp count : forall k s,
  logKept s (spawnLoop i sp dp k count s).
Proof.
  induction count as [|count IH]; intros k s; simpl; [apply logKept_refl|].
  eapply logKept_trans; [apply logKept_setTimeout|apply IH].
Qed.

Lemma logKept_alerts e s : logKept s (alerts e s).
Proof.
  unfold alerts.
  assert (A1 : logKept s (alertCriticalAccess e s)).
  { unfold alertCriticalAccess, highlightCriticalAccess.
    destruct (_ && _); log_leaf. }
  assert (A2 : forall s, logKept s (alertNtds e s)).
  { intro s'. unfold alertNtds, highlightNTDSExtraction.
    destruct (_ && _); log_leaf. }
  assert (A3 : forall s, logKept s (alertOt e s)).
  { intro s'. unfold alertOt, highlightCriticalInfrastructure.
    destruct (_ && _); log_leaf. }
  assert (A4 : forall s, logKept s (alertExfiltration e s)).
  { intro s'. unfold alertExfiltration, highlightExfiltration.
    destruct (_ && _); log_leaf. }
  eapply logKept_trans; [exact A1|].
  eapply logKept_trans; [apply A2|].
  eapply logKept_trans; [apply A3|apply A4].
Qed.

Lemma logKept_explainZeroDay e s : logKept s (explainZeroDay e s).
Proof.
  unfold explainZeroDay, highlightZeroDay. destruct (_ && _); log_leaf.
Qed.

Lemma logKept_followMajor i e s : logKept s (followMajor i e s).
Proof.
  unfold followMajor. destruct (_ && _); [|apply logKept_refl].
  destruct (String.eqb (attack_type e) "zero_day_exploit").
  - log_leaf.
  - eapply logKept_trans; [apply logKept_followAttack|apply logKept_onShown].
Qed.

Lemma logKept_createSinglePacket i sp dp isFirst s :
  logKept s (createSinglePacket i sp dp isFirst s).
Proof.
  unfold createSinglePacket, animateMultiHop.
  destruct (nth_error (data s) i) as [e|]; [|apply logKept_refl].
  destruct (proxy_chain e); [log_leaf|].
  destruct (hops _ _ _ _). log_leaf.
Qed.

Lemma logKept_fire cb s : logKept s (fire cb s).
Proof.
  destruct cb; simpl.
  - apply logKept_createSinglePacket.
  - log_leaf.
  - log_leaf.
  - apply logKept_followAttack.
  - apply logKept_dismiss.
Qed.

Lemma logKept_fireAll ts : forall s,
  logKept s (fold_left (fun s t => fire (callback t) (waitUntil (due t) s)) ts s).
Proof.
  apply fold_left_kept; [apply logKept_refl|apply logKept_trans|].
  intros s t. eapply logKept_trans; [apply logKept_waitUntil|apply logKept_fire].
Qed.

Lemma logKept_elapse ms s : logKept s (elapse ms s).
Proof.
  unfold elapse. cbv zeta.
  eapply logKept_trans; [apply logKept_onBrowser|].
  eapply logKept_trans; [apply logKept_fireAll|].
  eapply logKept_trans; [apply logKept_waitUntil|apply logKept_onBrowser].
Qed.

Lemma logKept_before_gate dt s : logKept s (updateStage (advanceClock dt s)).
Proof.
  destruct (before_gate dt s) as (D & C & _). constructor; assumption.
Qed.

Lemma logKept_updateFlows dt s : logKept s (updateFlows dt s).
Proof. log_leaf. Qed.

(** A call of [createPacketFlow] enters the history and leaves the log. *)
Lemma createPacketFlow_log i s :
  data (createPacketFlow i s) = data s
  /\ flowCalls (createPacketFlow i s) = i :: flowCalls s.
Proof.
  unfold createPacketFlow.
  set (s0 := recordFlowCall i s).
  assert (H0 : data s0 = data s /\ flowCalls s0 = i :: flowCalls s) by (split; reflexivity).
  destruct (nth_error (data s0) i) as [e|]; [|exact H0].
  pose proof (logKept_nodePosition (source_ip e) s0) as H1.
  destruct (nodePosition (source_ip e) s0) as [sp s1]. simpl in H1.
  pose proof (logKept_nodePosition (destination_ip e) s1) as H2.
  destruct (nodePosition (destination_ip e) s1) as [dp s2]. simpl in H2.
  assert (H : logKept s0 s2) by (eapply logKept_trans; eassumption).
  assert (K : logKept s0 (spawnLoop i match sp with Some v => v | None => mkVector3 0 0 0 end
                                      match dp with Some v => v | None => mkVector3 0 0 0 end
                                      0 (packetCount e) (alerts e s2))).
  { eapply logKept_trans; [exact H|].
    eapply logKept_trans; [apply logKept_alerts|apply logKept_spawnLoop]. }
  destruct H0 as [D0 C0]. destruct H as [HD HC].
  destruct sp, dp; simpl in K; try (split; congruence).
  destruct K as [KD KC]. split; congruence.
Qed.

Lemma dispatch_log t i e s :
  data (dispatch t i e s) = writeProcessed i true (data s)
  /\ flowCalls (dispatch t i e s) = i :: flowCalls s.
Proof.
  unfold dispatch.
  match goal with
  | |- context [createPacketFlow i ?a] =>
      destruct (createPacketFlow_log i a) as [D C];
      pose proof (logKept_explainZeroDay e (createPacketFlow i a)) as [D1 C1];
      pose proof (logKept_followMajor i e (explainZeroDay e (createPacketFlow i a))) as [D2 C2]
  end.
  split.
  - rewrite D2, D1, D. reflexivity.
  - rewrite C2, C1, C. reflexivity.
Qed.

(** ** Event gate: the choice *)

Lemma indexedFrom_In {A} (l : list A) : forall n j x,
  In (j, x) (Js.indexedFrom n l) <-> (n <= j)%nat /\ nth_error l (j - n) = Some x.
Proof.
  induction l as [|a l IH]; intros n j x; simpl.
  - split; [tauto|]. intros [_ H]. destruct (j - n)%nat; discriminate.
  - rewrite IH. split.
    + intros [E|[Hle Hn]].
      * inversion E; subst. split; [lia|]. rewrite Nat.sub_diag. reflexivity.
      * split; [lia|]. replace (j - n)%nat with (S (j - S n)) by lia. exact Hn.
    + intros [Hle Hn]. destruct (Nat.eq_dec n j) as [->|Hne].
      * left. rewrite Nat.sub_diag in Hn. simpl in Hn. congruence.
      * right. split; [lia|].
        replace (j - n)%nat with (S (j - S n)) in Hn by lia. exact Hn.
Qed.

Lemma indexed_In {A} (l : list A) j x :
  In (j, x) (Js.indexed l) <-> nth_error l j = Some x.
Proof.
  unfold Js.indexed. rewrite indexedFrom_In, Nat.sub_0_r.
  split; [tauto|]. split; [lia|assumption].
Qed.

Lemma indexedFrom_sorted {A} (l : list A) : forall n,
  StronglySorted (fun a b => (fst a < fst b)%nat) (Js.indexedFrom n l).
Proof.
  induction l as [|a l IH]; intro n; simpl; constructor.
  - apply IH.
  - apply Forall_forall. intros [j x] H. apply indexedFrom_In in H. simpl. lia.
Qed.

Lemma filter_sorted {A} (R : A -> A -> Prop) (p : A -> bool) (l : list A) :
  StronglySorted R l -> StronglySorted R (filter p l).
Proof.
  induction 1 as [|a l Hs IH Hall]; simpl; [constructor|].
  destruct (p a); [|exact IH]. constructor; [exact IH|].
  apply Forall_forall. intros b Hb. apply filter_In in Hb.
  rewrite Forall_forall in Hall. apply Hall, Hb.
Qed.

Lemma filter_twice {A} (p q : A -> bool) (l : list A) :
  filter q (filter p l) = filter (fun a => p a && q a) l.
Proof.
  induction l as [|a l IH]; simpl; [reflexivity|].
  destruct (p a); simpl; [destruct (q a)|]; rewrite IH; reflexivity.
Qed.

Lemma sorted_nth (events : list Event) :
  sortedByTime events ->
  forall i j e x, (i <= j)%nat ->
    nth_error events i = Some e -> nth_error events j = Some x ->
    timestamp e <= timestamp x.
Proof.
  induction 1 as [|a l Hs IH Hall]; intros i j e x Hle Hi Hj.
  - destruct i; discriminate.
  - destruct i as [|i], j as [|j]; simpl in *; try lia.
    + inversion Hi; inversion Hj; subst. lia.
    + inversion Hi; subst. rewrite Forall_forall in Hall.
      apply Hall. eapply nth_error_In, Hj.
    + eapply IH with (i := i) (j := j); eauto. lia.
Qed.

Lemma availableEvents_In ts s j x :
  In (j, x) (availableEvents ts s) <-> candidate ts s j x.
Proof.
  unfold availableEvents, candidate. rewrite filter_In, indexed_In. simpl.
  rewrite andb_true_iff, Qle_bool_iff, negb_true_iff. tauto.
Qed.

(** The head of a filter of the available events is the earliest member of
    the class the filter describes. *)
Lemma head_is_earliest ts s (p : nat * Event -> bool) (P : Event -> Prop) i e rest :
  sortedByTime (data s) ->
  (forall j x, p (j, x) = true <-> P x) ->
  filter p (availableEvents ts s) = (i, e) :: rest ->
  earliestAmong (fun j x => candidate ts s j x /\ P x) i e.
Proof.
  intros Hsorted Hp Hhead.
  assert (Hin : forall j x,
            In (j, x) ((i, e) :: rest) <-> candidate ts s j x /\ P x).
  { intros j x. rewrite <- Hhead, filter_In, availableEvents_In, Hp. tauto. }
  assert (Hs : StronglySorted (fun a b => (fst a < fst b)%nat) ((i, e) :: rest)).
  { rewrite <- Hhead. unfold availableEvents, Js.indexed.
    apply filter_sorted, filter_sorted, indexedFrom_sorted. }
  split.
  - apply Hin. left. reflexivity.
  - intros j x Hjx.
    assert (Hle : (i <= j)%nat).
    { apply Hin in Hjx. destruct Hjx as [E|Hr].
      - inversion E. lia.
      - inversion Hs as [|? ? _ Hall]; subst.
        rewrite Forall_forall in Hall. apply Hall in Hr. simpl in Hr. lia. }
    split; [exact Hle|].
    assert (Hie : candidate ts s i e) by (apply (Hin i e); left; reflexivity).
    destruct Hie as (Hi & _). destruct Hjx as [(Hj & _) _].
    eapply sorted_nth; eauto.
Qed.

Lemma no_member {A} (p : A -> bool) (l : list A) (a : A) :
  filter p l = [] -> In a l -> p a = true -> False.
Proof.
  intros Hnil Hin Hp.
  assert (H : In a (filter p l)) by (apply filter_In; split; assumption).
  rewrite Hnil in H. exact H.
Qed.

Lemma stageFilter_spec s (j : nat) x :
  Z.eqb (stage (snd (j, x))) (currentStage (playback s)) = true <-> inCurrentStage s x.
Proof. simpl. apply Z.eqb_eq. Qed.

Lemma typeFilter_spec s (j : nat) x :
  match lastProcessedEventType (playback s) with
  | Some ty => String.eqb (attack_type (snd (j, x))) ty
  | None => false
  end = true <-> sameTypeAsLast s x.
Proof.
  unfold sameTypeAsLast. simpl.
  destruct (lastProcessedEventType (playback s)) as [ty|].
  - rewrite String.eqb_eq. split; congruence.
  - split; discriminate.
Qed.

Lemma selection_cases s ts :
  sortedByTime (data s) ->
  gateClosed ts s = false ->
  (exists j x, candidate ts s j x) ->
  selectionRule s ts.
Proof.
  intros Hsorted Hgate [j0 [x0 Hc0]].
  unfold selectionRule, processEvents. rewrite Hgate. unfold selectNext.
  set (available := availableEvents ts s).
  set (pS := fun ie : nat * Event => Z.eqb (stage (snd ie)) (currentStage (playback s))).
  set (pT := fun ie : nat * Event =>
               match lastProcessedEventType (playback s) with
               | Some ty => String.eqb (attack_type (snd ie)) ty
               | None => false
               end).
  assert (HpS : forall j x, pS (j, x) = true <-> inCurrentStage s x)
    by (intros; apply stageFilter_spec).
  assert (HpT : forall j x, pT (j, x) = true <-> sameTypeAsLast s x)
    by (intros; apply typeFilter_spec).
  assert (HpST : forall j x, pS (j, x) && pT (j, x) = true
                             <-> inCurrentStage s x /\ sameTypeAsLast s x).
  { intros j x. rewrite andb_true_iff, HpS, HpT. tauto. }
  destruct (filter pS available) as [|[c ce] stageRest] eqn:Estage.
  - (* no candidate of the current stage *)
    destruct available as [|[a ae] rest] eqn:Eav.
    { exfalso. apply availableEvents_In in Hc0. fold available in Hc0.
      rewrite Eav in Hc0. exact Hc0. }
    exists a, ae. simpl. split; [reflexivity|].
    split; [apply dispatch_log|].
    assert (Hnone : forall j x, candidate ts s j x -> inCurrentStage s x -> False).
    { intros j x Hc Hs. apply availableEvents_In in Hc. fold available in Hc.
      rewrite Eav in Hc.
      eapply no_member; [exact Estage|exact Hc|]. apply HpS, Hs. }
    split; [|split].
    + intros (j & x & Hc & Hs & _). exfalso. eapply Hnone; eauto.
    + intros _ (j & x & Hc & Hs). exfalso. eapply Hnone; eauto.
    + intros _.
      assert (Hall : filter (fun _ => true) (availableEvents ts s) = (a, ae) :: rest).
      { fold available. rewrite Eav. clear.
        generalize ((a, ae) :: rest). intro l.
        induction l as [|y l IH]; simpl; congruence. }
      pose proof (head_is_earliest ts s _ (fun _ => True) a ae rest Hsorted
                    (fun _ _ => conj (fun _ => I) (fun _ => eq_refl)) Hall) as [H1 H2].
      split; [tauto|]. intros j x Hc. apply H2. tauto.
  - pose proof (filter_twice pS pT available) as Etwice.
    rewrite Estage in Etwice.
    destruct (filter pT ((c, ce) :: stageRest)) as [|[t te] typeRest] eqn:Etype.
    + (* candidates of the current stage, none of the last type *)
      exists c, ce. split; [reflexivity|]. split; [apply dispatch_log|].
      pose proof (head_is_earliest ts s pS (inCurrentStage s) c ce stageRest
                    Hsorted HpS Estage) as Hfirst.
      split; [|split].
      * intros (j & x & Hc & Hs & Ht). exfalso.
        apply availableEvents_In in Hc.
        eapply (no_member (fun a => pS a && pT a)); [symmetry; exact Etwice|exact Hc|].
        apply HpST. tauto.
      * intros _ _. exact Hfirst.
      * intros Hno. exfalso. apply Hno. exists c, ce. apply Hfirst.
    + (* a candidate of the current stage and of the last type *)
      exists t, te. split; [reflexivity|]. split; [apply dispatch_log|].
      pose proof (head_is_earliest ts s (fun a => pS a && pT a)
                    (fun x => inCurrentStage s x /\ sameTypeAsLast s x)
                    t te typeRest Hsorted HpST (eq_sym Etwice)) as Hfirst.
      split; [|split].
      * intros _. exact Hfirst.
      * intros Hno. exfalso. apply Hno. exists t, te. apply Hfirst.
      * intros Hno. exfalso. apply Hno. exists t, te.
        destruct Hfirst as [(Hc & Hs & _) _]. tauto.
Qed.

(** C3.  When the gate is open and some event is due, the event dispatched
    is the earliest current-stage candidate whose [attack_type] is the last
    dispatched one; failing that the earliest current-stage candidate;
    failing that the earliest candidate of any stage.  In the scenario of
    three stage-1 events at 0, 100 and 50 ms, once the engine is in stage 1
    and the first port scan is out, the port scan at 100 ms goes before the
    zero-day exploit at 50 ms. *)
Theorem selection_priority :
  (forall s ts,
     sortedByTime (data s) ->
     gateClosed ts s = false ->
     (exists j x, candidate ts s j x) ->
     selectionRule s ts)
  /\ construct Sample.rawTrio initialCamera 0 Sample.noRandom = Some Sample.trio
  /\ let s1 := update 70 Sample.trio in
     let s2 := update (1 # 100) s1 in
     flowCalls s1 = [0%nat]
     /\ currentStage (playback s1) = 1
     /\ lastProcessedEventType (playback s1) = Some "port_scan"
     /\ map (fun ie => (fst ie, attack_type (snd ie), timestamp (snd ie) - Sample.t0))
            (availableEvents (inject_Z (startTime s2) + currentTime (playback s2)) s1)
        = [(1%nat, "zero_day_exploit", 50); (2%nat, "port_scan", 100)]
     /\ flowCalls s2 = [2%nat; 0%nat].
Proof.
  split; [exact selection_cases|].
  split; [reflexivity|].
  vm_compute. repeat split; reflexivity.
Qed.

(** The rule at the second dispatch of the scenario. *)
Lemma selection_priority_witness :
  selectionRule (update 70 Sample.trio) (inject_Z Sample.t0 + 25203600)%Q.
Proof.
  apply (proj1 selection_priority).
  - vm_compute. repeat constructor; discriminate.
  - vm_compute. reflexivity.
  - exists 2%nat, (Sample.event 100 "port_scan" "reconnaissance" 1 [] false).
    vm_compute. repeat split; discriminate.
Defined.

(** The constructor leaves the log in timestamp order. *)
Lemma insertSorted_In {A} (key : A -> Z) x y (l : list A) :
  In y (Js.insertSorted key x l) <-> y = x \/ In y l.
Proof.
  induction l as [|a l IH]; simpl.
  - intuition congruence.
  - destruct (key x <=? key a); simpl; [|rewrite IH]; intuition congruence.
Qed.

Lemma sortBy_In {A} (key : A -> Z) (l : list A) x :
  In x (Js.sortBy key l) <-> In x l.
Proof.
  induction l as [|y l IH]; simpl; [tauto|].
  rewrite insertSorted_In, IH. intuition congruence.
Qed.

Lemma sortBy_sorted {A} (key : A -> Z) (l : list A) :
  StronglySorted (fun a b => key a <= key b) (Js.sortBy key l).
Proof.
  induction l as [|x l IH]; simpl; [constructor|].
  induction IH as [|a m Hs IHm Hall]; simpl; [repeat constructor|].
  destruct (key x <=? key a) eqn:E.
  - apply Z.leb_le in E. constructor; [constructor; assumption|].
    constructor; [exact E|].
    rewrite Forall_forall in *. intros b Hb. specialize (Hall b Hb). lia.
  - apply Z.leb_gt in E. constructor; [exact IHm|].
    rewrite Forall_forall in *. intros b Hb.
    apply insertSorted_In in Hb. destruct Hb as [->|Hb]; [lia|auto].
Qed.

Lemma construct_sorted raw cam now rnd s :
  construct raw cam now rnd = Some s -> sortedByTime (data s).
Proof.
  unfold construct. pose proof (sortBy_sorted timestamp raw) as H.
  destruct (Js.sortBy timestamp raw) as [|first rest]; [discriminate|].
  intro E. inversion E; subst. exact H.
Qed.

(** ** Dispatch uniqueness *)

Lemma selectNext_In l st ty ie : selectNext l st ty = Some ie -> In ie l.
Proof.
  unfold selectNext.
  destruct (filter _ l) as [|c rest] eqn:Estage.
  - destruct l; simpl; [discriminate|]. intro E. inversion E. left. reflexivity.
  - match goal with |- context [filter ?q (c :: rest)] =>
      destruct (filter q (c :: rest)) as [|t trest] eqn:Etype end.
    + intro E. inversion E; subst.
      assert (H : In ie (filter (fun ie => Z.eqb (stage (snd ie)) st) l))
        by (rewrite Estage; left; reflexivity).
      apply filter_In in H. tauto.
    + intro E. inversion E; subst.
      match type of Etype with filter ?q _ = _ =>
        assert (H : In ie (filter q (c :: rest))) by (rewrite Etype; left; reflexivity) end.
      apply filter_In in H. destruct H as [H _].
      rewrite <- Estage in H. apply filter_In in H. tauto.
Qed.

Lemma processEvents_log t s :
  logKept s (processEvents t s) \/ dispatchesOne s (processEvents t s).
Proof.
  unfold processEvents. destruct (gateClosed t s); [left; apply logKept_refl|].
  destruct (selectNext _ _ _) as [[i e]|] eqn:E; [|left; apply logKept_refl].
  right. apply selectNext_In, availableEvents_In in E.
  destruct E as (Hn & _ & Hp).
  destruct (dispatch_log t i e s) as [D C].
  exists i. unfold isProcessed. rewrite Hn. repeat split; try assumption.
  apply nth_error_Some. congruence.
Qed.

Lemma dispatchesOne_shift s1 s2 s3 s4 :
  logKept s1 s2 -> dispatchesOne s2 s3 -> logKept s3 s4 -> dispatchesOne s1 s4.
Proof.
  intros [D1 C1] (i & Hp & Hl & D & C) [D3 C3].
  exists i. unfold isProcessed in *. rewrite D1 in *.
  repeat split; try assumption; congruence.
Qed.

Lemma update_log dt s :
  logKept s (update dt s) \/ dispatchesOne s (update dt s).
Proof.
  destruct (isPlaying (playback s)) eqn:P.
  - rewrite (update_unfold dt s P). cbv zeta.
    set (s2 := updateStage (advanceClock dt s)).
    pose proof (logKept_before_gate dt s) as H2. fold s2 in H2.
    destruct (processEvents_log (inject_Z (startTime s2) + currentTime (playback s2)) s2)
      as [K|K].
    + left. eapply logKept_trans; [exact H2|].
      eapply logKept_trans; [exact K|apply logKept_updateFlows].
    + right. eapply dispatchesOne_shift; [exact H2|exact K|apply logKept_updateFlows].
  - left. rewrite update_stopped by exact P. apply logKept_refl.
Qed.

Lemma step_log s input :
  input <> ClickRestart ->
  logKept s (step s input) \/ dispatchesOne s (step s input).
Proof.
  intro Hne. destruct input; simpl.
  - apply update_log.
  - left. apply logKept_onPlayback.
  - left. apply logKept_onPlayback.
  - congruence.
  - left. apply logKept_elapse.
Qed.

Lemma nth_error_writeProcessed b (l : list Event) : forall i j,
  nth_error (writeProcessed i b l) j
  = if Nat.eqb j i then option_map (setProcessed b) (nth_error l j)
    else nth_error l j.
Proof.
  induction l as [|e l IH]; intros i j.
  - simpl. destruct (Nat.eqb j i), i, j; reflexivity.
  - destruct i as [|i], j as [|j]; simpl; try reflexivity. apply IH.
Qed.

Lemma isProcessed_dispatched s s' i :
  (i < List.length (data s))%nat ->
  data s' = writeProcessed i true (data s) ->
  forall j, isProcessed s' j = (Nat.eqb j i || isProcessed s j)%bool.
Proof.
  intros Hl D j. unfold isProcessed. rewrite D, nth_error_writeProcessed.
  destruct (Nat.eqb j i) eqn:E; [|reflexivity].
  apply Nat.eqb_eq in E. subst j.
  destruct (nth_error (data s) i) eqn:N; [reflexivity|].
  apply nth_error_None in N. lia.
Qed.

(** Without [restart] a flag that is set stays set. *)
Lemma step_keeps_flag s input i :
  input <> ClickRestart ->
  isProcessed s i = true -> isProcessed (step s input) i = true.
Proof.
  intros Hne Hp. destruct (step_log s input Hne) as [[D _]|(k & _ & Hl & D & _)].
  - unfold isProcessed in *. rewrite D. exact Hp.
  - rewrite (isProcessed_dispatched s _ k Hl D). rewrite Hp. apply orb_true_r.
Qed.

Lemma flips_after_set i : forall inputs s,
  restartFree inputs -> isProcessed s i = true -> flips i s inputs = 0%nat.
Proof.
  induction inputs as [|input rest IH]; intros s Hfree Hp; simpl; [reflexivity|].
  inversion Hfree as [|? ? Hne Hrest]; subst.
  rewrite Hp. simpl. apply IH; [exact Hrest|].
  apply step_keeps_flag; assumption.
Qed.

Lemma flips_at_most_once i : forall inputs s,
  restartFree inputs -> (flips i s inputs <= 1)%nat.
Proof.
  induction inputs as [|input rest IH]; intros s Hfree; simpl; [lia|].
  inversion Hfree as [|? ? Hne Hrest]; subst.
  destruct (negb (isProcessed s i) && isProcessed (step s input) i) eqn:E.
  - apply andb_true_iff in E. destruct E as [_ E].
    rewrite (flips_after_set i rest _ Hrest E). lia.
  - simpl. apply IH, Hrest.
Qed.

Lemma calls_are_fresh : forall inputs s,
  restartFree inputs ->
  exists new,
    flowCalls (run s inputs) = new ++ flowCalls s
    /\ NoDup new
    /\ forall i, In i new -> isProcessed s i = false.
Proof.
  induction inputs as [|input rest IH]; intros s Hfree.
  - exists []. simpl. repeat split; [constructor|tauto].
  - inversion Hfree as [|? ? Hne Hrest]; subst. simpl.
    destruct (IH (step s input) Hrest) as (new & Hc & Hnd & Hun).
    assert (Hback : forall i, In i new -> isProcessed s i = false).
    { intros i Hi. specialize (Hun i Hi).
      destruct (isProcessed s i) eqn:E; [|reflexivity].
      rewrite (step_keeps_flag s input i Hne E) in Hun. discriminate. }
    destruct (step_log s input Hne) as [[_ C]|(k & Hk & Hl & D & C)].
    + exists new. rewrite Hc, C. auto.
    + exists (new ++ [k]). rewrite Hc, C, <- app_assoc. split; [reflexivity|].
      split.
      * apply NoDup_app_remove_l with (l := []). simpl.
        apply Permutation_NoDup with (l := k :: new).
        { apply Permutation_cons_append. }
        constructor; [|exact Hnd].
        intro Hin. specialize (Hun k Hin).
        rewrite (isProcessed_dispatched s _ k Hl D), Nat.eqb_refl in Hun.
        discriminate.
      * intros i Hi. apply in_app_or in Hi. destruct Hi as [Hi|[<-|[]]]; auto.
Qed.

(** C4.  Along any run without [restart], the flag of each event goes from
    false to true at most once, and the events handed to [createPacketFlow]
    during the run are pairwise distinct; a call of [update] hands over at
    most one event. *)
Theorem dispatch_unique :
  (forall s inputs, restartFree inputs ->
     (forall i, (flips i s inputs <= 1)%nat)
     /\ exists new, flowCalls (run s inputs) = new ++ flowCalls s /\ NoDup new)
  /\ (forall s dt,
        flowCalls (update dt s) = flowCalls s
        \/ exists i, flowCalls (update dt s) = i :: flowCalls s).
Proof.
  split.
  - intros s inputs Hfree. split.
    + intro i. apply flips_at_most_once, Hfree.
    + destruct (calls_are_fresh inputs s Hfree) as (new & Hc & Hnd & _).
      exists new. split; assumption.
  - intros s dt. destruct (update_log dt s) as [[_ C]|(i & _ & _ & _ & C)].
    + left. exact C.
    + right. exists i. exact C.
Qed.

(** A run of two frames, a tenth of a second apart, without [restart]. *)
Lemma dispatch_unique_witness :
  (forall i, (flips i Sample.pair [Frame (1 # 10); Elapse 100; Frame (1 # 10)] <= 1)%nat)
  /\ exists new,
       flowCalls (run Sample.pair [Frame (1 # 10); Elapse 100; Frame (1 # 10)])
       = new ++ flowCalls Sample.pair
       /\ NoDup new.
Proof.
  apply (proj1 dispatch_unique).
  repeat constructor; discriminate.
Defined.

(** ** Node lookup *)

Lemma getNodePosition_total nodeMap rnd n ip :
  exists pos n', getNodePosition nodeMap rnd n ip = (Some pos, n').
Proof.
  unfold getNodePosition.
  destruct (mapGet nodeMap ip) as [pos|]; [eauto|].
  destruct (find _ nodeMap) as [[k pos]|]; eauto.
Qed.

(** ** Multi-hop choreography *)

Lemma arrayIncludes_In xs x : Js.arrayIncludes xs x = true <-> In x xs.
Proof.
  unfold Js.arrayIncludes. rewrite existsb_exists. split.
  - intros (y & Hy & E). apply String.eqb_eq in E. congruence.
  - intro H. exists x. split; [exact H|apply String.eqb_refl].
Qed.

Lemma hops_step nodeMap rnd n fromIp toIp rest :
  hops nodeMap rnd n (fromIp :: toIp :: rest)
  = let '(fromPos, n1) := getNodePosition nodeMap rnd n fromIp in
    let '(toPos, n2) := getNodePosition nodeMap rnd n1 toIp in
    match fromPos, toPos with
    | Some fp, Some tp =>
        let pulse := match rest with
                     | [] => []
                     | _ :: _ => [HopPulse tp; Pause (3 # 10)]
                     end in
        let '(items, n3) := hops nodeMap rnd n2 (toIp :: rest) in
        ([TrailSegment fp tp; TweenTo tp (15 # 10)] ++ pulse ++ items, n3)
    | _, _ => hops nodeMap rnd n2 (toIp :: rest)
    end.
Proof. reflexivity. Qed.


Lemma hops_motion nodeMap rnd : forall path n,
  forallb isMotion (fst (hops nodeMap rnd n path)) = true.
Proof.
  induction path as [|fromIp tl IH]; intro n; [reflexivity|].
  destruct tl as [|toIp rest]; [reflexivity|].
  rewrite hops_step.
  destruct (getNodePosition_total nodeMap rnd n fromIp) as (fp & n1 & E1). rewrite E1.
  destruct (getNodePosition_total nodeMap rnd n1 toIp) as (tp & n2 & E2). rewrite E2.
  specialize (IH n2).
  destruct (hops nodeMap rnd n2 (toIp :: rest)) as [items n3]. simpl in IH.
  cbv zeta. cbn [fst]. rewrite !forallb_app, IH.
  destruct rest; reflexivity.
Qed.














(** ** Packet batches *)

Lemma addsNoSpawn_refl s : addsNoSpawn s s.
Proof. split; [reflexivity|]. exists []. rewrite app_nil_r. auto. Qed.

Lemma addsNoSpawn_trans s1 s2 s3 :
  addsNoSpawn s1 s2 -> addsNoSpawn s2 s3 -> addsNoSpawn s1 s3.
Proof.
  intros [C1 (x1 & T1 & F1)] [C2 (x2 & T2 & F2)]. split; [congruence|].
  exists (x1 ++ x2). rewrite T2, T1, app_assoc, filter_app, F1, F2. auto.
Qed.

Lemma addsNoSpawn_highlight k s : addsNoSpawn s (highlight k s).
Proof.
  split; [reflexivity|].
  exists [mkTimer (clock (browser s) + alertDuration k)
                  (CbDismiss (nextBox (browser s)) (isPlaying (playback s)))].
  split; reflexivity.
Qed.

Lemma addsNoSpawn_onShown f s : addsNoSpawn s (onShown f s).
Proof. exact (addsNoSpawn_refl s). Qed.

Lemma addsNoSpawn_setTimeout cb d s :
  isSpawn (mkTimer 0 cb) = false -> addsNoSpawn s (setTimeout cb d s).
Proof.
  intro H. split; [reflexivity|].
  exists [mkTimer (clock (browser s) + d) cb]. split; [reflexivity|].
  simpl. unfold isSpawn in *. simpl in *. rewrite H. reflexivity.
Qed.

Lemma addsNoSpawn_alerts e s : addsNoSpawn s (alerts e s).
Proof.
  unfold alerts.
  assert (A1 : forall s, addsNoSpawn s (alertCriticalAccess e s)).
  { intro s'. unfold alertCriticalAccess, highlightCriticalAccess.
    destruct (_ && _); [|apply addsNoSpawn_refl].
    eapply addsNoSpawn_trans; [apply addsNoSpawn_onShown|].
    eapply addsNoSpawn_trans; [apply addsNoSpawn_highlight|].
    apply addsNoSpawn_setTimeout. reflexivity. }
  assert (A2 : forall s, addsNoSpawn s (alertNtds e s)).
  { intro s'. unfold alertNtds, highlightNTDSExtraction.
    destruct (_ && _); [|apply addsNoSpawn_refl].
    eapply addsNoSpawn_trans; [apply addsNoSpawn_onShown|apply addsNoSpawn_highlight]. }
  assert (A3 : forall s, addsNoSpawn s (alertOt e s)).
  { intro s'. unfold alertOt, highlightCriticalInfrastructure.
    destruct (_ && _); [|apply addsNoSpawn_refl].
    eapply addsNoSpawn_trans; [apply addsNoSpawn_onShown|].
    eapply addsNoSpawn_trans; [apply addsNoSpawn_highlight|].
    apply addsNoSpawn_setTimeout. reflexivity. }
  assert (A4 : forall s, addsNoSpawn s (alertExfiltration e s)).
  { intro s'. unfold alertExfiltration, highlightExfiltration.
    destruct (_ && _); [apply addsNoSpawn_highlight|apply addsNoSpawn_refl]. }
  eapply addsNoSpawn_trans; [apply A1|].
  eapply addsNoSpawn_trans; [apply A2|].
  eapply addsNoSpawn_trans; [apply A3|apply A4].
Qed.

Lemma spawnLoop_timers i sp dp : forall count k s,
  clock (browser (spawnLoop i sp dp k count s)) = clock (browser s)
  /\ timers (browser (spawnLoop i sp dp k count s))
     = timers (browser s)
       ++ map (fun j => mkTimer (clock (browser s) + Z.of_nat j * 200)
                                (CbCreateSinglePacket i sp dp (Nat.eqb j 0)))
              (seq k count).
Proof.
  induction count as [|count IH]; intros k s; simpl.
  - rewrite app_nil_r. auto.
  - destruct (IH (S k) (setTimeout (CbCreateSinglePacket i sp dp (Nat.eqb k 0))
                                   (Z.of_nat k * 200) s)) as [C T].
    rewrite C, T. simpl. rewrite <- app_assoc. auto.
Qed.

Lemma filter_spawn_batch now i sp dp count :
  filter isSpawn (batchTimers now i sp dp count) = batchTimers now i sp dp count.
Proof.
  unfold batchTimers. induction (seq 0 count) as [|k l IH]; simpl; congruence.
Qed.

Lemma nodePosition_total ip s :
  exists pos n, nodePosition ip s = (Some pos, onBrowser (setDraws n) s).
Proof.
  unfold nodePosition.
  destruct (getNodePosition_total (nodeMap s) (random (browser s)) (draws (browser s)) ip)
    as (pos & n & E).
  rewrite E. eauto.
Qed.

(** [createPacketFlow] never takes its abort branch: it sets the timers of
    a full batch. *)
Lemma createPacketFlow_batch s i e :
  nth_error (data s) i = Some e ->
  exists sp dp,
    filter isSpawn (timers (browser (createPacketFlow i s)))
    = filter isSpawn (timers (browser s))
      ++ batchTimers (clock (browser s)) i sp dp (packetCount e).
Proof.
  intro Hn. unfold createPacketFlow. cbv zeta.
  replace (nth_error (data (recordFlowCall i s)) i) with (Some e) by (symmetry; exact Hn).
  destruct (nodePosition_total (source_ip e) (recordFlowCall i s)) as (sp & n1 & E1).
  rewrite E1.
  destruct (nodePosition_total (destination_ip e)
              (onBrowser (setDraws n1) (recordFlowCall i s))) as (dp & n2 & E2).
  rewrite E2. exists sp, dp.
  match goal with |- context [alerts e ?a] =>
    destruct (addsNoSpawn_alerts e a) as [C (extra & T & F)];
    destruct (spawnLoop_timers i sp dp (packetCount e) 0 (alerts e a)) as [_ TS]
  end.
  rewrite TS, T, C. simpl.
  rewrite !filter_app, F, app_nil_r.
  fold (batchTimers (clock (browser s)) i sp dp (packetCount e)).
  rewrite filter_spawn_batch. reflexivity.
Qed.

Lemma play_motion_climax nodeMap rnd n e : forall items tail,
  forallb isMotion items = true ->
  filter isClimax (playTimeline nodeMap rnd n e (items ++ tail))
  = filter isClimax (playTimeline nodeMap rnd n e tail).
Proof.
  induction items as [|item items IH]; intros tail Hm; [reflexivity|].
  simpl in Hm. apply andb_true_iff in Hm. destruct Hm as [Hi Hm].
  destruct item; try discriminate; simpl; apply IH, Hm.
Qed.

(** A packet shows its climax, impact and marking, exactly when the event
    succeeded and the packet is the first of its batch. *)
Lemma createSinglePacket_flow s i e sp dp isFirst :
  nth_error (data s) i = Some e ->
  let s' := createSinglePacket i sp dp isFirst s in
  exists fl,
    activeFlows s' = activeFlows s ++ [fl]
    /\ flowEvent fl = i
    /\ forall n,
         List.length (climaxOf s' n fl) = (if success e && isFirst then 2 else 0)%nat.
Proof.
  intro Hn. unfold createSinglePacket. rewrite Hn.
  destruct (proxy_chain e) as [|hop chain] eqn:Echain.
  - eexists. split; [reflexivity|]. split; [reflexivity|].
    intro n. unfold climaxOf. simpl. rewrite Hn. simpl.
    destruct (success e && isFirst); reflexivity.
  - unfold animateMultiHop.
    pose proof (hops_motion (nodeMap s) (random (browser s)) (fullPath e)
                            (draws (browser s))) as Hm.
    destruct (hops _ _ _ _) as [items n']. simpl in Hm.
    eexists. split; [reflexivity|]. split; [reflexivity|].
    intro n. unfold climaxOf. simpl. rewrite Hn.
    rewrite play_motion_climax by exact Hm. simpl.
    destruct (getNodePosition_total (nodeMap s) (random (browser s)) n (destination_ip e))
      as (pos & n1 & E).
    rewrite E. destruct (success e && isFirst); reflexivity.
Qed.

Lemma packetCount_rule e :
  (attack_type e = "lotl_discovery" \/ attack_type e = "wmi_lateral_movement" ->
   packetCount e = 3%nat)
  /\ (attack_type e = "rdp_lateral_movement" -> packetCount e = 2%nat)
  /\ (attack_type e <> "lotl_discovery" ->
      attack_type e <> "wmi_lateral_movement" ->
      attack_type e <> "rdp_lateral_movement" ->
      (category e = "credential_access" -> packetCount e = 5%nat)
      /\ (category e <> "credential_access" -> packetCount e = 1%nat)).
Proof.
  unfold packetCount. split; [|split].
  - intros [->| ->]; reflexivity.
  - intros ->. reflexivity.
  - intros H1 H2 H3.
    apply String.eqb_neq in H1, H2, H3. rewrite H1, H2, H3. simpl. split.
    + intros ->. reflexivity.
    + intro H4. apply String.eqb_neq in H4. rewrite H4. reflexivity.
Qed.

(** C6, as the code has it.  The attack type is tested first: 3 packets
    for [lotl_discovery] and [wmi_lateral_movement], 2 for
    [rdp_lateral_movement]; for any other attack type 5 when the category
    is [credential_access], else 1.  [createPacketFlow] sets one timer per
    packet, 200 ms apart, and only the timer of the first packet carries
    the flag [isFirst]; a packet shows impact and node marking exactly
    when its event succeeded and it carries the flag.  A successful
    credential theft spawns 5 flows, the first of which alone shows the
    climax. *)
Theorem packet_batch :
  (forall e,
     (attack_type e = "lotl_discovery" \/ attack_type e = "wmi_lateral_movement" ->
      packetCount e = 3%nat)
     /\ (attack_type e = "rdp_lateral_movement" -> packetCount e = 2%nat)
     /\ (attack_type e <> "lotl_discovery" ->
         attack_type e <> "wmi_lateral_movement" ->
         attack_type e <> "rdp_lateral_movement" ->
         (category e = "credential_access" -> packetCount e = 5%nat)
         /\ (category e <> "credential_access" -> packetCount e = 1%nat)))
  /\ (forall s i e,
        nth_error (data s) i = Some e ->
        exists sp dp,
          filter isSpawn (timers (browser (createPacketFlow i s)))
          = filter isSpawn (timers (browser s))
            ++ batchTimers (clock (browser s)) i sp dp (packetCount e))
  /\ (forall s i e sp dp isFirst,
        nth_error (data s) i = Some e ->
        let s' := fire (CbCreateSinglePacket i sp dp isFirst) s in
        exists fl,
          activeFlows s' = activeFlows s ++ [fl]
          /\ flowEvent fl = i
          /\ forall n,
               List.length (climaxOf s' n fl)
               = (if success e && isFirst then 2 else 0)%nat)
  /\ (let s1 := update (1 # 1000) (Sample.fresh [Sample.theft]) in
      let s2 := elapse 1000 s1 in
      flowCalls s1 = [0%nat]
      /\ map due (filter isSpawn (timers (browser s1))) = [0; 200; 400; 600; 800]
      /\ List.length (activeFlows (elapse 300 s1)) = 2%nat
      /\ map (fun fl => List.length (climaxOf s2 0 fl)) (activeFlows s2)
         = [2; 0; 0; 0; 0]%nat).
Proof.
  split; [exact packetCount_rule|].
  split; [exact createPacketFlow_batch|].
  split; [exact createSinglePacket_flow|].
  vm_compute. repeat split; reflexivity.
Qed.

(** The batch of the credential theft. *)
Lemma packet_batch_witness :
  exists sp dp,
    filter isSpawn (timers (browser (createPacketFlow 0 (Sample.fresh [Sample.theft]))))
    = filter isSpawn (timers (browser (Sample.fresh [Sample.theft])))
      ++ batchTimers (clock (browser (Sample.fresh [Sample.theft]))) 0 sp dp
                     (packetCount Sample.theft).
Proof.
  apply (proj1 (proj2 packet_batch) (Sample.fresh [Sample.theft]) 0%nat Sample.theft).
  reflexivity.
Defined.

(** C6 as stated fails where the two tests overlap: a credential-access
    event whose attack type is [lotl_discovery] spawns 3 flows, not 5. *)
Lemma credential_access_by_lotl_spawns_three :
  let s1 := update (1 # 1000) (Sample.fresh [Sample.theftByLotl]) in
  category Sample.theftByLotl = "credential_access"
  /\ flowCalls s1 = [0%nat]
  /\ packetCount Sample.theftByLotl = 3%nat
  /\ List.length (filter isSpawn (timers (browser s1))) = 3%nat
  /\ List.length (activeFlows (elapse 1000 s1)) = 3%nat
  /\ List.length (activeFlows (elapse 1000 s1)) <> 5%nat.
Proof. vm_compute. repeat split; try reflexivity. discriminate. Qed.

(** ** Info boxes and the pause *)

Lemma frames_while_stopped : forall dts s,
  isPlaying (playback s) = false -> run s (map Frame dts) = s.
Proof.
  induction dts as [|dt dts IH]; intros s P; simpl; [reflexivity|].
  rewrite update_stopped by exact P. apply IH, P.
Qed.

(** Tweens that complete take boxes away and show none. *)
Lemma finishAll_overlays ts : forall s o,
  In o (overlays (browser (fold_left (fun s t => finishTween (tweenEnd t) s) ts s))) ->
  In o (overlays (browser s)).
Proof.
  induction ts as [|t ts IH]; intros s o H; [exact H|].
  simpl in H. apply IH in H. destruct (tweenEnd t); simpl in H; [|exact H|exact H].
  apply filter_In in H. tauto.
Qed.

(** After the fade of a box has completed the box is gone. *)
Lemma finishAll_removes box k : forall ts s t,
  In t ts -> tweenEnd t = TwRemoveBox box ->
  ~ In (box, k) (overlays (browser (fold_left (fun s t => finishTween (tweenEnd t) s) ts s))).
Proof.
  induction ts as [|t0 ts IH]; intros s t Hin Hend; [destruct Hin|].
  simpl. destruct Hin as [->|Hin]; [|apply (IH _ t Hin Hend)].
  intro H. apply finishAll_overlays in H. rewrite Hend in H. simpl in H.
  apply filter_In in H. destruct H as [_ H]. simpl in H.
  rewrite Nat.eqb_refl in H. discriminate.
Qed.

Lemma gsapTick_fades ms s t box k :
  gsapPaused (browser s) = false ->
  In t (tweens (browser s)) -> tweenEnd t = TwRemoveBox box -> remaining t <= ms ->
  ~ In (box, k) (overlays (browser (gsapTick ms s))).
Proof.
  intros Hrun Hin Hend Hdue. unfold gsapTick. rewrite Hrun. cbv zeta.
  apply (finishAll_removes box k _ _ t); [|exact Hend].
  apply sortBy_In, filter_In. split; [exact Hin|]. apply Z.leb_le, Hdue.
Qed.

(** C7, as the code has it.  Showing an info box snapshots [isPlaying],
    sets it to false, pauses gsap and schedules the dismissal; calls of
    [update] then change nothing, simulated time included, for as long as
    [isPlaying] stays false, and no tween moves while gsap is paused.
    Nothing locks the flag while the box is shown.  The dismissal sets
    [isPlaying] to true and resumes gsap when the snapshot was true and
    leaves both as they are otherwise; it does not remove the box but starts
    its one-second fade, and the box leaves the document when the fade
    completes: once gsap has run for the time the fade still needs. *)
Theorem alert_pauses :
  (forall k s,
     let s' := highlight k s in
     isPlaying (playback s') = false
     /\ gsapPaused (browser s') = true
     /\ overlays (browser s') = overlays (browser s) ++ [(nextBox (browser s), k)]
     /\ timers (browser s')
        = timers (browser s)
          ++ [mkTimer (clock (browser s) + alertDuration k)
                      (CbDismiss (nextBox (browser s)) (isPlaying (playback s)))]
     /\ alertActive (nextBox (browser s)) s'
     /\ (forall ms, gsapTick ms s' = s')
     /\ forall dts,
          run s' (map Frame dts) = s'
          /\ currentTime (playback (run s' (map Frame dts))) = currentTime (playback s))
  /\ (forall box wasPlaying s,
        let s' := fire (CbDismiss box wasPlaying) s in
        isPlaying (playback s') = (wasPlaying || isPlaying (playback s))%bool
        /\ gsapPaused (browser s') = (negb wasPlaying && gsapPaused (browser s))%bool
        /\ currentTime (playback s') = currentTime (playback s)
        /\ overlays (browser s') = overlays (browser s)
        /\ tweens (browser s') = tweens (browser s) ++ [mkTween 1000 (TwRemoveBox box)])
  /\ (forall box s k,
        ~ In (box, k) (overlays (browser (finishTween (TwRemoveBox box) s))))
  /\ (forall ms s t box k,
        gsapPaused (browser s) = false ->
        In t (tweens (browser s)) -> tweenEnd t = TwRemoveBox box ->
        remaining t <= ms ->
        ~ In (box, k) (overlays (browser (gsapTick ms s))))
  /\ (isPlaying (playback Sample.explaining) = false
      /\ overlays (browser Sample.explaining) = [(0%nat, ZeroDay)]
      /\ timers (browser (elapse 6999 Sample.explaining))
         = [mkTimer 7000 (CbDismiss 0 true)]
      /\ isPlaying (playback (elapse 6999 Sample.explaining)) = false
      /\ isPlaying (playback (elapse 7000 Sample.explaining)) = true
      /\ overlays (browser (elapse 7000 Sample.explaining)) = [(0%nat, ZeroDay)]
      /\ tweens (browser (elapse 7000 Sample.explaining))
         = [mkTween 1000 (TwRemoveBox 0)]
      /\ overlays (browser (elapse 7999 Sample.explaining)) = [(0%nat, ZeroDay)]
      /\ overlays (browser (elapse 8000 Sample.explaining)) = []).
Proof.
  split; [|split; [|split; [|split]]].
  - intros k s s'. subst s'.
    repeat split; try reflexivity.
    + eexists _, _. simpl. apply in_or_app. right. left. reflexivity.
    + apply frames_while_stopped. reflexivity.
    + rewrite frames_while_stopped by reflexivity. reflexivity.
  - intros box wasPlaying s s'. subst s'. simpl. unfold dismiss.
    destruct wasPlaying; simpl; repeat split; reflexivity.
  - intros box s k Hin. simpl in Hin. apply filter_In in Hin.
    destruct Hin as [_ Hin]. simpl in Hin. rewrite Nat.eqb_refl in Hin. discriminate.
  - exact gsapTick_fades.
  - vm_compute. repeat split; reflexivity.
Qed.

(** The zero-day box a second after its dismissal. *)
Lemma alert_pauses_witness :
  ~ In (0%nat, ZeroDay)
       (overlays (browser (gsapTick 1000 (elapse 7000 Sample.explaining)))).
Proof.
  apply (proj1 (proj2 (proj2 (proj2 alert_pauses)))
           1000 (elapse 7000 Sample.explaining) (mkTween 1000 (TwRemoveBox 0)) 0%nat ZeroDay).
  - reflexivity.
  - vm_compute. left. reflexivity.
  - reflexivity.
  - discriminate.
Defined.

(** C7 as stated fails: while the zero-day box is shown and its dismissal
    is pending, a click on play/pause sets [isPlaying] again and the next
    call of [update] moves simulated time. *)
Lemma toggle_during_alert_advances_time :
  let s1 := Sample.explaining in
  let s2 := togglePlayback s1 in
  let s3 := update 1 s2 in
  overlays (browser s3) = [(0%nat, ZeroDay)]
  /\ alertActive 0 s3
  /\ (currentTime (playback s2) == 360)%Q
  /\ (currentTime (playback s3) == 360360)%Q
  /\ ~ (currentTime (playback s3) == currentTime (playback s2))%Q.
Proof.
  cbv zeta. split; [reflexivity|]. split.
  - exists 7000, true. vm_compute. auto.
  - vm_compute. repeat split; try reflexivity. discriminate.
Qed.

(** ** Play and pause *)

(** C8, as the code has it.  [togglePlayback] flips [isPlaying] in every
    state, info box or not, and touches nothing else. *)
Theorem togglePlayback_flips (s : Timeline) :
  isPlaying (playback (togglePlayback s)) = negb (isPlaying (playback s))
  /\ currentTime (playback (togglePlayback s)) = currentTime (playback s)
  /\ playbackSpeed (playback (togglePlayback s)) = playbackSpeed (playback s)
  /\ currentStage (playback (togglePlayback s)) = currentStage (playback s)
  /\ data (togglePlayback s) = data s
  /\ shown (togglePlayback s) = shown s
  /\ activeFlows (togglePlayback s) = activeFlows s
  /\ browser (togglePlayback s) = browser s.
Proof. repeat split; reflexivity. Qed.

(** C8 as stated fails: with the zero-day box on screen and its dismissal
    pending, [togglePlayback] turns the paused engine back on. *)
Lemma toggle_not_locked_by_alert :
  overlays (browser Sample.explaining) = [(0%nat, ZeroDay)]
  /\ alertActive 0 Sample.explaining
  /\ isPlaying (playback Sample.explaining) = false
  /\ isPlaying (playback (togglePlayback Sample.explaining)) = true.
Proof.
  split; [reflexivity|]. split.
  - exists 7000, true. vm_compute. auto.
  - split; reflexivity.
Qed.

(** ** Restart *)

Lemma filter_all {A} (p : A -> bool) (l : list A) :
  (forall x, In x l -> p x = true) -> filter p l = l.
Proof.
  induction l as [|x l IH]; intro H; simpl; [reflexivity|].
  rewrite (H x) by (left; reflexivity). f_equal. apply IH.
  intros y Hy. apply H. right. exact Hy.
Qed.

Lemma cleanup_removes_all (os : list (nat * AlertKind)) :
  filter (fun o => negb (existsb (Z.eqb (zIndex (snd o))) [2300; 2400; 2500; 2999; 3000])) os
  = [].
Proof.
  induction os as [|[box k] os IH]; [reflexivity|].
  destruct k; exact IH.
Qed.

Lemma restart_state s :
  restart s
  = mkTimeline (map (setProcessed false) (data s)) (startTime s) (nodeMap s)
      (mkPlayback 0 (playbackSpeed (playback s)) true 0 0 None)
      (mkShown None false false false false false)
      [] initialCamera
      (mkBrowser (clock (browser s)) (timers (browser s)) false []
                 (nextBox (browser s)) (random (browser s)) (draws (browser s))
                 (tweens (browser s)))
      (flowCalls s).
Proof.
  assert (H : cleanupAllInfoBoxes s = onBrowser (setOverlays []) s).
  { unfold cleanupAllInfoBoxes, killTweensOfAll, onBrowser, setTweens, setOverlays.
    simpl. rewrite cleanup_removes_all. simpl.
    rewrite filter_all; [reflexivity|].
    intros t _. destruct (fadedBox t); reflexivity. }
  unfold restart. rewrite H. reflexivity.
Qed.

(** C9, as the code has it.  From any state [restart] yields the fixed
    initial processed-state: simulated time 0, playing, stage 0, the gate's
    memory and the shown-flags cleared, every event unprocessed, no active
    flow, no info box, gsap running, the camera at its initial pose; the
    speed is kept.  The pending [setTimeout] callbacks are left in place:
    nothing cancels them.  A second [restart] changes nothing. *)
Theorem restart_resets (s : Timeline) :
  let r := restart s in
  playback r = mkPlayback 0 (playbackSpeed (playback s)) true 0 0 None
  /\ shown r = mkShown None false false false false false
  /\ data r = map (setProcessed false) (data s)
  /\ Forall (fun e => processed e = false) (data r)
  /\ activeFlows r = []
  /\ overlays (browser r) = []
  /\ gsapPaused (browser r) = false
  /\ camera r = initialCamera
  /\ timers (browser r) = timers (browser s)
  /\ restart r = r.
Proof.
  cbv zeta. rewrite restart_state. simpl.
  repeat split; try reflexivity.
  - apply Forall_forall. intros e He. apply in_map_iff in He.
    destruct He as (e0 & <- & _). reflexivity.
  - rewrite restart_state. simpl. rewrite map_map. reflexivity.
Qed.

(** C9 as stated fails on the cancellation: the timers of a dispatched
    batch survive [restart], and when they run the reset engine holds five
    flows of the old batch; the old dismissal still runs as well. *)
Lemma restart_leaves_timers :
  let s1 := update (1 # 1000) (Sample.fresh [Sample.theft]) in
  let r := restart s1 in
  List.length (timers (browser s1)) = 7%nat
  /\ timers (browser r) = timers (browser s1)
  /\ activeFlows r = []
  /\ List.length (activeFlows (elapse 1000 r)) = 5%nat
  /\ map callback (timers (browser (elapse 6999 r))) = [CbDismiss 0 true; CbResetCriticalAccess]
  /\ timers (browser (elapse 10000 r)) = [].
Proof. vm_compute. repeat split; reflexivity. Qed.

(** ** Every dispatched event gets a flow *)

Lemma find_first {A} (f : A -> bool) before x after :
  (forall y, In y before -> f y = false) -> f x = true ->
  find f (before ++ x :: after) = Some x.
Proof.
  intros Hb Hx. induction before as [|y before IH]; simpl.
  - rewrite Hx. reflexivity.
  - rewrite (Hb y) by (left; reflexivity). apply IH.
    intros z Hz. apply Hb. right. exact Hz.
Qed.

Lemma find_nowhere {A} (f : A -> bool) l :
  (forall y, In y l -> f y = false) -> find f l = None.
Proof.
  intro H. induction l as [|y l IH]; simpl; [reflexivity|].
  rewrite (H y) by (left; reflexivity). apply IH.
  intros z Hz. apply H. right. exact Hz.
Qed.

Lemma getNodePosition_cases nodeMap rnd n ip :
  (forall pos, mapGet nodeMap ip = Some pos ->
     getNodePosition nodeMap rnd n ip = (Some pos, n))
  /\ (mapGet nodeMap ip = None ->
      forall before k pos after,
        nodeMap = before ++ (k, pos) :: after ->
        (forall node, In node before ->
           Js.startsWith ip (octetPrefix (fst node)) = false) ->
        Js.startsWith ip (octetPrefix k) = true ->
        getNodePosition nodeMap rnd n ip = (Some pos, n))
  /\ (mapGet nodeMap ip = None ->
      (forall node, In node nodeMap ->
         Js.startsWith ip (octetPrefix (fst node)) = false) ->
      getNodePosition nodeMap rnd n ip
      = (Some (mkVector3 ((rnd n - (1 # 2)) * 200)%Q 50%Q
                         ((rnd (S n) - (1 # 2)) * 200)%Q),
         S (S n))).
Proof.
  unfold getNodePosition. split; [|split].
  - intros pos ->. reflexivity.
  - intros -> before k pos after -> Hb Hk.
    rewrite (find_first _ before (k, pos) after Hb Hk). reflexivity.
  - intros -> Hall. rewrite (find_nowhere _ nodeMap Hall). reflexivity.
Qed.

Lemma packetCount_positive e : (1 <= packetCount e)%nat.
Proof.
  unfold packetCount.
  destruct (_ || _); [lia|]. destruct (String.eqb _ _); [lia|].
  destruct (String.eqb _ _); lia.
Qed.

Lemma createPacketFlow_clock i s :
  clock (browser (createPacketFlow i s)) = clock (browser s).
Proof.
  unfold createPacketFlow. cbv zeta.
  destruct (nth_error (data (recordFlowCall i s)) i) as [e|]; [|reflexivity].
  destruct (nodePosition_total (source_ip e) (recordFlowCall i s)) as (sp & n1 & E1).
  rewrite E1.
  destruct (nodePosition_total (destination_ip e)
              (onBrowser (setDraws n1) (recordFlowCall i s))) as (dp & n2 & E2).
  rewrite E2.
  match goal with |- context [alerts e ?a] =>
    destruct (addsNoSpawn_alerts e a) as [C _];
    destruct (spawnLoop_timers i sp dp (packetCount e) 0 (alerts e a)) as [CS _]
  end.
  rewrite CS, C. reflexivity.
Qed.

Lemma createPacketFlow_first_timer s i e :
  nth_error (data s) i = Some e ->
  exists sp dp,
    In (mkTimer (clock (browser s)) (CbCreateSinglePacket i sp dp true))
       (timers (browser (createPacketFlow i s))).
Proof.
  intro Hn. destruct (createPacketFlow_batch s i e Hn) as (sp & dp & Hb).
  exists sp, dp.
  assert (H : In (mkTimer (clock (browser s)) (CbCreateSinglePacket i sp dp true))
                 (filter isSpawn (timers (browser (createPacketFlow i s))))).
  { rewrite Hb. apply in_or_app. right. unfold batchTimers.
    pose proof (packetCount_positive e) as Hpos.
    destruct (packetCount e) as [|m]; [lia|]. simpl. left.
    rewrite Z.add_0_r. reflexivity. }
  apply filter_In in H. tauto.
Qed.

Lemma followAttack_flows i s : activeFlows (followAttack i s) = activeFlows s.
Proof.
  unfold followAttack. destruct (nth_error (data s) i) as [e|]; [|reflexivity].
  destruct (nodePosition_total (source_ip e) s) as (sp & n1 & E1). rewrite E1.
  destruct (nodePosition_total (destination_ip e) (onBrowser (setDraws n1) s))
    as (dp & n2 & E2).
  rewrite E2. reflexivity.
Qed.

Lemma fire_keeps_flows cb s fl :
  In fl (activeFlows s) -> In fl (activeFlows (fire cb s)).
Proof.
  intro H. destruct cb as [i sp dp isFirst| | |i|box w]; simpl.
  - unfold createSinglePacket. destruct (nth_error (data s) i) as [e|]; [|exact H].
    destruct (proxy_chain e).
    + simpl. apply in_or_app. left. exact H.
    + destruct (animateMultiHop e isFirst s) as [anim s1] eqn:E.
      unfold animateMultiHop in E. destruct (hops _ _ _ _) in E.
      inversion E; subst. simpl. apply in_or_app. left. exact H.
  - exact H.
  - exact H.
  - rewrite followAttack_flows. exact H.
  - unfold dismiss. destruct w; exact H.
Qed.

Lemma gsapTick_flows ms s : activeFlows (gsapTick ms s) = activeFlows s.
Proof.
  unfold gsapTick. destruct (gsapPaused (browser s)); [reflexivity|]. cbv zeta.
  match goal with |- activeFlows (fold_left ?f ?l ?a) = _ =>
    change (activeFlows (fold_left f l a) = activeFlows a);
    apply (fold_left_kept (fun x y => activeFlows y = activeFlows x))
  end.
  - reflexivity.
  - intros a b c H1 H2. congruence.
  - intros a t. destruct (tweenEnd t); reflexivity.
Qed.

Lemma waitUntil_flows t s : activeFlows (waitUntil t s) = activeFlows s.
Proof.
  unfold waitUntil. destruct (t <=? clock (browser s)); [reflexivity|].
  simpl. apply gsapTick_flows.
Qed.

Lemma fireAll_keeps_flows ts : forall s fl,
  In fl (activeFlows s) ->
  In fl (activeFlows (fold_left (fun s t => fire (callback t) (waitUntil (due t) s)) ts s)).
Proof.
  induction ts as [|t ts IH]; intros s fl H; simpl; [exact H|].
  apply IH, fire_keeps_flows. rewrite waitUntil_flows. exact H.
Qed.

(** Running a batch of due callbacks that holds a packet timer of event
    [i] leaves a flow of event [i]. *)
Lemma fireAll_spawns i e sp dp isFirst : forall ts s t,
  In t ts -> callback t = CbCreateSinglePacket i sp dp isFirst ->
  nth_error (data s) i = Some e ->
  exists fl,
    In fl (activeFlows (fold_left (fun s t => fire (callback t) (waitUntil (due t) s))
                                  ts s))
    /\ flowEvent fl = i.
Proof.
  induction ts as [|t0 ts IH]; intros s t Hin Hcb Hn; [destruct Hin|].
  assert (Hw : nth_error (data (waitUntil (due t0) s)) i = Some e)
    by (rewrite (lk_data _ _ (logKept_waitUntil (due t0) s)); exact Hn).
  simpl. destruct Hin as [->|Hin].
  - rewrite Hcb. simpl.
    destruct (createSinglePacket_flow (waitUntil (due t) s) i e sp dp isFirst Hw)
      as (fl & Hfl & Hev & _).
    exists fl. split; [|exact Hev].
    apply fireAll_keeps_flows. rewrite Hfl. apply in_or_app. right. left. reflexivity.
  - apply (IH (fire (callback t0) (waitUntil (due t0) s)) t Hin Hcb).
    rewrite (lk_data _ _ (logKept_fire (callback t0) _)). exact Hw.
Qed.

Lemma dispatched_event_gets_flow s i e ms :
  nth_error (data s) i = Some e ->
  0 <= ms ->
  exists fl,
    In fl (activeFlows (elapse ms (createPacketFlow i s))) /\ flowEvent fl = i.
Proof.
  intros Hn Hms.
  destruct (createPacketFlow_first_timer s i e Hn) as (sp & dp & Ht).
  unfold elapse. cbv zeta.
  match goal with |- exists fl, In fl (activeFlows (onBrowser _ (waitUntil _ ?a))) /\ _ =>
    assert (H : exists fl, In fl (activeFlows a) /\ flowEvent fl = i)
  end.
  { eapply fireAll_spawns
      with (t := mkTimer (clock (browser s)) (CbCreateSinglePacket i sp dp true)).
    - apply sortBy_In, filter_In. split; [exact Ht|].
      simpl. rewrite createPacketFlow_clock. apply Z.leb_le. lia.
    - reflexivity.
    - simpl. rewrite (proj1 (createPacketFlow_log i s)). exact Hn. }
  destruct H as (fl & Hfl & Hev). exists fl. split; [|exact Hev].
  simpl. rewrite waitUntil_flows. exact Hfl.
Qed.

(** C10.  [getNodePosition] returns a position for every identifier: that
    of the exact registry entry, else that of the first entry whose first
    three octets prefix the identifier, else a random fallback; it never
    returns null or undefined.  So [createPacketFlow] never aborts: it
    sets the timer of a first packet, due at once, and when the due
    callbacks run the event has a flow. *)
Theorem node_lookup_total :
  (forall nodeMap rnd n ip,
     exists pos, fst (getNodePosition nodeMap rnd n ip) = Some pos)
  /\ (forall nodeMap rnd n ip,
        (forall pos, mapGet nodeMap ip = Some pos ->
           getNodePosition nodeMap rnd n ip = (Some pos, n))
        /\ (mapGet nodeMap ip = None ->
            forall before k pos after,
              nodeMap = before ++ (k, pos) :: after ->
              (forall node, In node before ->
                 Js.startsWith ip (octetPrefix (fst node)) = false) ->
              Js.startsWith ip (octetPrefix k) = true ->
              getNodePosition nodeMap rnd n ip = (Some pos, n))
        /\ (mapGet nodeMap ip = None ->
            (forall node, In node nodeMap ->
               Js.startsWith ip (octetPrefix (fst node)) = false) ->
            getNodePosition nodeMap rnd n ip
            = (Some (mkVector3 ((rnd n - (1 # 2)) * 200)%Q 50%Q
                               ((rnd (S n) - (1 # 2)) * 200)%Q),
               S (S n))))
  /\ (forall s i e,
        nth_error (data s) i = Some e ->
        (exists sp dp,
           In (mkTimer (clock (browser s)) (CbCreateSinglePacket i sp dp true))
              (timers (browser (createPacketFlow i s))))
        /\ forall ms, 0 <= ms ->
             exists fl,
               In fl (activeFlows (elapse ms (createPacketFlow i s)))
               /\ flowEvent fl = i).
Proof.
  split; [|split].
  - intros nodeMap rnd n ip.
    destruct (getNodePosition_total nodeMap rnd n ip) as (pos & n' & E).
    exists pos. rewrite E. reflexivity.
  - exact getNodePosition_cases.
  - intros s i e Hn. split.
    + apply (createPacketFlow_first_timer s i e Hn).
    + intros ms Hms. apply (dispatched_event_gets_flow s i e ms Hn Hms).
Qed.

(** The harmless event of the quiet engine gets its flow at once. *)
Lemma node_lookup_total_witness :
  (exists sp dp,
     In (mkTimer (clock (browser Sample.quiet)) (CbCreateSinglePacket 0 sp dp true))
        (timers (browser (createPacketFlow 0 Sample.quiet))))
  /\ forall ms, 0 <= ms ->
       exists fl,
         In fl (activeFlows (elapse ms (createPacketFlow 0 Sample.quiet)))
         /\ flowEvent fl = 0%nat.
Proof.
  apply (proj2 (proj2 node_lookup_total) Sample.quiet 0%nat
               (Sample.event 0 "http" "benign" 0 [] true)).
  reflexivity.
Defined.

(** ** The log stays sorted *)

Lemma sortedByTime_timestamps (l l' : list Event) :
  map timestamp l' = map timestamp l -> sortedByTime l -> sortedByTime l'.
Proof.
  intros E H. revert l' E.
  induction H as [|a l Hs IH Hall]; intros l' E.
  - destruct l'; [constructor|discriminate].
  - destruct l' as [|a' l']; [discriminate|].
    simpl in E. inversion E as [[Ea El]].
    constructor; [apply IH, El|].
    rewrite Forall_forall in *. intros b Hb.
    assert (Hin : In (timestamp b) (map timestamp l))
      by (rewrite <- El; apply in_map, Hb).
    apply in_map_iff in Hin. destruct Hin as (b0 & Eb & Hb0).
    rewrite Ea, <- Eb. apply Hall, Hb0.
Qed.

Lemma writeProcessed_timestamps b (l : list Event) : forall i,
  map timestamp (writeProcessed i b l) = map timestamp l.
Proof.
  induction l as [|e l IH]; intro i; [destruct i; reflexivity|].
  destruct i; simpl; [reflexivity|]. rewrite IH. reflexivity.
Qed.

Lemma step_timestamps s input :
  map timestamp (data (step s input)) = map timestamp (data s).
Proof.
  destruct (Input_restart_dec input) as [->|Hne].
  - change (step s ClickRestart) with (restart s).
    rewrite restart_state. simpl. rewrite map_map. reflexivity.
  - destruct (step_log s input Hne) as [[D _]|(i & _ & _ & D & _)]; rewrite D.
    + reflexivity.
    + apply writeProcessed_timestamps.
Qed.

(** Every state an engine reaches holds its log in timestamp order, so the
    rule of choice applies at every tick. *)
Lemma reachable_sorted raw cam now rnd s0 inputs :
  construct raw cam now rnd = Some s0 ->
  sortedByTime (data (run s0 inputs)).
Proof.
  intro Hc. apply construct_sorted in Hc. revert s0 Hc.
  induction inputs as [|input rest IH]; intros s0 Hs; simpl; [exact Hs|].
  apply IH. eapply sortedByTime_timestamps; [apply step_timestamps|exact Hs].
Qed.

(** * Further properties of the engine *)

(** ** What the gate, the choreography and the callbacks never touch *)

(** A reading [f] of the state that the elementary writes below leave
    alone is left alone by [processEvents], [updateFlows], every deferred
    callback and the passing of time. *)
Section Frame.
Context {A : Type} (f : Timeline -> A).
Hypothesis f_shown : forall g s, f (onShown g s) = f s.
Hypothesis f_browser : forall g s, f (onBrowser g s) = f s.
Hypothesis f_data : forall d s, f (setData d s) = f s.
Hypothesis f_flows : forall fl s, f (setActiveFlows fl s) = f s.
Hypothesis f_camera : forall c s, f (setCamera c s) = f s.
Hypothesis f_call : forall i s, f (recordFlowCall i s) = f s.
Hypothesis f_playing : forall b s, f (onPlayback (setIsPlaying b) s) = f s.
Hypothesis f_last : forall t ty s, f (onPlayback (setLastEvent t ty) s) = f s.

Lemma frame_setTimeout cb d s : f (setTimeout cb d s) = f s.
Proof. unfold setTimeout. apply f_browser. Qed.

Lemma frame_highlight k s : f (highlight k s) = f s.
Proof.
  unfold highlight. cbv zeta. rewrite frame_setTimeout, !f_browser. apply f_playing.
Qed.

Lemma frame_dismiss box w s : f (dismiss box w s) = f s.
Proof.
  unfold dismiss, gsapTo. rewrite f_browser. destruct w; [|reflexivity].
  rewrite f_browser. apply f_playing.
Qed.

Lemma frame_nodePosition ip s : f (snd (nodePosition ip s)) = f s.
Proof. rewrite nodePosition_state. apply f_browser. Qed.

Lemma frame_followAttack i s : f (followAttack i s) = f s.
Proof.
  unfold followAttack. destruct (nth_error (data s) i) as [e|]; [|reflexivity].
  destruct (nodePosition_total (source_ip e) s) as (sp & n1 & E1). rewrite E1.
  destruct (nodePosition_total (destination_ip e) (onBrowser (setDraws n1) s))
    as (dp & n2 & E2).
  rewrite E2. unfold gsapTo. rewrite !f_browser. reflexivity.
Qed.

Lemma frame_spawnLoop i sp dp count : forall k s,
  f (spawnLoop i sp dp k count s) = f s.
Proof.
  induction count as [|count IH]; intros k s; simpl; [reflexivity|].
  rewrite IH. apply frame_setTimeout.
Qed.

Lemma frame_alerts e s : f (alerts e s) = f s.
Proof.
  unfold alerts.
  assert (A1 : forall s, f (alertCriticalAccess e s) = f s).
  { intro s'. unfold alertCriticalAccess, highlightCriticalAccess.
    destruct (_ && _); [|reflexivity].
    rewrite frame_setTimeout, frame_highlight. apply f_shown. }
  assert (A2 : forall s, f (alertNtds e s) = f s).
  { intro s'. unfold alertNtds, highlightNTDSExtraction.
    destruct (_ && _); [|reflexivity]. rewrite frame_highlight. apply f_shown. }
  assert (A3 : forall s, f (alertOt e s) = f s).
  { intro s'. unfold alertOt, highlightCriticalInfrastructure.
    destruct (_ && _); [|reflexivity].
    rewrite frame_setTimeout, frame_highlight. apply f_shown. }
  assert (A4 : forall s, f (alertExfiltration e s) = f s).
  { intro s'. unfold alertExfiltration, highlightExfiltration.
    destruct (_ && _); [|reflexivity]. apply frame_highlight. }
  rewrite A4, A3, A2, A1. reflexivity.
Qed.

Lemma frame_createPacketFlow i s : f (createPacketFlow i s) = f s.
Proof.
  unfold createPacketFlow. cbv zeta.
  destruct (nth_error (data (recordFlowCall i s)) i) as [e|]; [|apply f_call].
  destruct (nodePosition_total (source_ip e) (recordFlowCall i s)) as (sp & n1 & E1).
  rewrite E1.
  destruct (nodePosition_total (destination_ip e)
              (onBrowser (setDraws n1) (recordFlowCall i s))) as (dp & n2 & E2).
  rewrite E2, frame_spawnLoop, frame_alerts, !f_browser. apply f_call.
Qed.

Lemma frame_dispatch t i e s : f (dispatch t i e s) = f s.
Proof.
  unfold dispatch. cbv zeta.
  assert (F : forall s, f (followMajor i e s) = f s).
  { intro s'. unfold followMajor. destruct (_ && _); [|reflexivity].
    rewrite f_shown.
    destruct (String.eqb _ _); [apply frame_setTimeout|apply frame_followAttack]. }
  assert (Z : forall s, f (explainZeroDay e s) = f s).
  { intro s'. unfold explainZeroDay, highlightZeroDay.
    destruct (_ && _); [|reflexivity]. rewrite frame_highlight. apply f_shown. }
  rewrite F, Z, frame_createPacketFlow, f_data. apply f_last.
Qed.

Lemma frame_processEvents t s : f (processEvents t s) = f s.
Proof.
  unfold processEvents. destruct (gateClosed t s); [reflexivity|].
  destruct (selectNext _ _ _) as [[i e]|]; [apply frame_dispatch|reflexivity].
Qed.

Lemma frame_updateFlows dt s : f (updateFlows dt s) = f s.
Proof. unfold updateFlows. apply f_flows. Qed.

Lemma frame_createSinglePacket i sp dp isFirst s :
  f (createSinglePacket i sp dp isFirst s) = f s.
Proof.
  unfold createSinglePacket, animateMultiHop.
  destruct (nth_error (data s) i) as [e|]; [|reflexivity].
  destruct (proxy_chain e); [apply f_flows|].
  destruct (hops _ _ _ _). rewrite f_flows. apply f_browser.
Qed.

Lemma frame_fire cb s : f (fire cb s) = f s.
Proof.
  destruct cb; simpl.
  - apply frame_createSinglePacket.
  - apply f_shown.
  - apply f_shown.
  - apply frame_followAttack.
  - apply frame_dismiss.
Qed.

Lemma frame_finishTween e s : f (finishTween e s) = f s.
Proof. destruct e; simpl; [apply f_browser|apply f_camera|apply f_camera]. Qed.

Lemma frame_gsapTick ms s : f (gsapTick ms s) = f s.
Proof.
  unfold gsapTick. destruct (gsapPaused (browser s)); [reflexivity|]. cbv zeta.
  match goal with |- f (fold_left ?g ?l ?a) = _ =>
    transitivity (f a); [|apply f_browser];
    apply (fold_left_kept (fun x y => f y = f x))
  end.
  - reflexivity.
  - intros a b c H1 H2. congruence.
  - intros a t. apply frame_finishTween.
Qed.

Lemma frame_waitUntil t s : f (waitUntil t s) = f s.
Proof.
  unfold waitUntil. destruct (t <=? clock (browser s)); [reflexivity|].
  rewrite f_browser. apply frame_gsapTick.
Qed.

Lemma frame_fireAll ts : forall s,
  f (fold_left (fun s t => fire (callback t) (waitUntil (due t) s)) ts s) = f s.
Proof.
  induction ts as [|t ts IH]; intro s; simpl; [reflexivity|].
  rewrite IH, frame_fire. apply frame_waitUntil.
Qed.

Lemma frame_elapse ms s : f (elapse ms s) = f s.
Proof.
  unfold elapse. cbv zeta.
  rewrite f_browser, frame_waitUntil, frame_fireAll. apply f_browser.
Qed.

Lemma frame_togglePlayback s : f (togglePlayback s) = f s.
Proof.
  change (togglePlayback s)
    with (onPlayback (setIsPlaying (negb (isPlaying (playback s)))) s).
  apply f_playing.
Qed.

End Frame.

(** ** Stage resolver *)

Lemma findIndex_first {A} (p : A -> bool) : forall (l : list A) n x,
  nth_error l n = Some x -> p x = true ->
  (forall m y, (m < n)%nat -> nth_error l m = Some y -> p y = false) ->
  Js.findIndex p l = Some n.
Proof.
  induction l as [|a l IH]; intros n x Hn Hp Hbefore.
  - destruct n; discriminate.
  - destruct n as [|n]; simpl in *.
    + inversion Hn; subst. rewrite Hp. reflexivity.
    + rewrite (Hbefore 0%nat a) by (reflexivity || lia).
      rewrite (IH n x Hn Hp); [reflexivity|].
      intros m y Hm Hy. apply (Hbefore (S m) y); [lia|exact Hy].
Qed.

Lemma findIndex_nowhere {A} (p : A -> bool) (l : list A) :
  (forall y, In y l -> p y = false) -> Js.findIndex p l = None.
Proof.
  intro H. induction l as [|a l IH]; simpl; [reflexivity|].
  rewrite (H a) by (left; reflexivity). rewrite IH; [reflexivity|].
  intros y Hy. apply H. right. exact Hy.
Qed.

Lemma window_true (h : Q) (st : Stage) :
  Qle_bool (inject_Z (stageStart st)) h && Js.ltb h (inject_Z (stageEnd st)) = true
  <-> inWindow h st.
Proof. unfold inWindow. rewrite andb_true_iff, Qle_bool_iff, ltb_true. tauto. Qed.

Lemma window_false (h : Q) (st : Stage) :
  ~ inWindow h st ->
  Qle_bool (inject_Z (stageStart st)) h && Js.ltb h (inject_Z (stageEnd st)) = false.
Proof.
  intro H. destruct (_ && _) eqn:E; [|reflexivity].
  exfalso. apply H, window_true, E.
Qed.

Ltac stage_window :=
  unfold inWindow; simpl; unfold inject_Z; lra.

Lemma resolve_at (h : Q) (n : nat) (st : Stage) :
  nth_error stages n = Some st -> inWindow h st ->
  resolveStage h = Some n
  /\ forall m st', nth_error stages m = Some st' -> inWindow h st' -> m = n.
Proof.
  intros Hn Hw.
  assert (Hu : forall m st', nth_error stages m = Some st' -> inWindow h st' -> m = n).
  { intros m st' Hm Hw'.
    do 5 (destruct n as [|n]; [ inversion Hn; subst st;
      do 5 (destruct m as [|m]; [ inversion Hm; subst st';
                                   first [reflexivity | exfalso; revert Hw Hw'; stage_window] |]);
      destruct m; discriminate |]).
    destruct n; discriminate. }
  split; [|exact Hu].
  unfold resolveStage. eapply findIndex_first; [exact Hn|apply window_true, Hw|].
  intros m y Hm Hy. apply window_false. intro Hw'.
  specialize (Hu m y Hy Hw'). lia.
Qed.

(** X1.  The five stage windows partition the timeline: every hour from 0
    up to, not including, 72 resolves to the one stage whose window holds
    it, and an hour outside (negative, or 72 and later) resolves to none. *)
Theorem stage_partition (h : Q) :
  ((0 <= h)%Q -> (h < 72)%Q ->
   exists n st,
     resolveStage h = Some n
     /\ nth_error stages n = Some st
     /\ inWindow h st
     /\ forall m st', nth_error stages m = Some st' -> inWindow h st' -> m = n)
  /\ ((h < 0)%Q \/ (72 <= h)%Q -> resolveStage h = None).
Proof.
  split.
  - intros H0 H72.
    assert (Hcase : exists n st, nth_error stages n = Some st /\ inWindow h st).
    { destruct (Qlt_le_dec h 7); [exists 0%nat; eexists; split; [reflexivity|stage_window]|].
      destruct (Qlt_le_dec h 24); [exists 1%nat; eexists; split; [reflexivity|stage_window]|].
      destruct (Qlt_le_dec h 48); [exists 2%nat; eexists; split; [reflexivity|stage_window]|].
      destruct (Qlt_le_dec h 60); [exists 3%nat; eexists; split; [reflexivity|stage_window]|].
      exists 4%nat; eexists; split; [reflexivity|stage_window]. }
    destruct Hcase as (n & st & Hn & Hw).
    destruct (resolve_at h n st Hn Hw) as [Hr Hu].
    exists n, st. auto.
  - intro Hout. unfold resolveStage. apply findIndex_nowhere.
    intros st Hin. apply window_false. intro Hw.
    simpl in Hin.
    repeat (destruct Hin as [<-|Hin]; [revert Hw; destruct Hout; stage_window|]).
    exact Hin.
Qed.

(** An hour in the middle of the timeline. *)
Lemma stage_partition_witness :
  exists n st,
    resolveStage 30 = Some n
    /\ nth_error stages n = Some st
    /\ inWindow 30 st
    /\ forall m st', nth_error stages m = Some st' -> inWindow 30 st' -> m = n.
Proof.
  apply (proj1 (stage_partition 30)); [discriminate|reflexivity].
Defined.

Ltac framed lem :=
  apply lem; intros; reflexivity.

Lemma advanceClock_stage dt s :
  currentStage (playback (advanceClock dt s)) = currentStage (playback s).
Proof. unfold advanceClock. destruct (Js.ltb _ _); reflexivity. Qed.

Lemma update_stage_kept_after dt s :
  isPlaying (playback s) = true ->
  currentStage (playback (update dt s))
  = currentStage (playback (updateStage (advanceClock dt s))).
Proof.
  intro P. rewrite (update_unfold dt s P). cbv zeta.
  etransitivity; [framed (frame_updateFlows (fun x => currentStage (playback x)))|].
  framed (frame_processEvents (fun x => currentStage (playback x))).
Qed.

(** X2.  After a call of [update] while playing the stage index is the one
    the stage resolver finds for the new simulated hour; when the resolver
    finds none (the hour has reached 72) the index stays what it was. *)
Theorem stage_follows_clock (s : Timeline) (dt : Q) :
  isPlaying (playback s) = true ->
  let s' := update dt s in
  let hour := (currentTime (playback s') / (3600 * 1000))%Q in
  (forall n, resolveStage hour = Some n -> currentStage (playback s') = Z.of_nat n)
  /\ (resolveStage hour = None ->
      currentStage (playback s') = currentStage (playback s)).
Proof.
  intros P s' hour. subst s' hour.
  rewrite (update_stage_kept_after dt s P).
  destruct (update_timestamp dt s P) as [_ Ht]. cbv zeta in Ht. rewrite <- Ht.
  rewrite (ck_time _ _ (clockKept_updateStage (advanceClock dt s))).
  unfold updateStage.
  destruct (resolveStage _) as [m|] eqn:E.
  - split; [|discriminate]. intros n Hn. inversion Hn; subst m.
    destruct (negb _) eqn:Eneg.
    + destruct (nth_error stages n); reflexivity.
    + apply negb_false_iff, Z.eqb_eq in Eneg. symmetry. exact Eneg.
  - split; [discriminate|]. intros _. apply advanceClock_stage.
Qed.

(** A frame that carries a fresh engine from hour 0 into the third stage. *)
Lemma stage_follows_clock_witness :
  let s' := update 300 Sample.quiet in
  let hour := (currentTime (playback s') / (3600 * 1000))%Q in
  (forall n, resolveStage hour = Some n -> currentStage (playback s') = Z.of_nat n)
  /\ (resolveStage hour = None ->
      currentStage (playback s') = currentStage (playback Sample.quiet)).
Proof.
  apply (stage_follows_clock Sample.quiet 300). reflexivity.
Defined.

(** ** Speed *)

Lemma step_speed s input :
  playbackSpeed (playback (step s input))
  = match input with
    | ClickSpeed v => v
    | _ => playbackSpeed (playback s)
    end.
Proof.
  destruct input; cbn [step].
  - apply update_speed.
  - reflexivity.
  - reflexivity.
  - rewrite restart_state. reflexivity.
  - framed (frame_elapse (fun x => playbackSpeed (playback x))).
Qed.

(** X3.  Only [setSpeed] changes the speed: whatever frames, clicks,
    restarts, info boxes and callbacks a run holds, it ends with the speed
    of its last speed click, or with the speed it began with. *)
Theorem speed_only_by_setSpeed : forall (inputs : list Input) (s : Timeline),
  playbackSpeed (playback (run s inputs))
  = lastSpeed inputs (playbackSpeed (playback s)).
Proof.
  induction inputs as [|input rest IH]; intro s; [reflexivity|].
  unfold run, lastSpeed in *. simpl. rewrite IH, step_speed.
  destruct input; reflexivity.
Qed.

(** ** The clock stays within the timeline *)

Lemma clockInBounds_kept s s' :
  currentTime (playback s') = currentTime (playback s) ->
  playbackSpeed (playback s') = playbackSpeed (playback s) ->
  clockInBounds s -> clockInBounds s'.
Proof.
  unfold clockInBounds. intros T V H. rewrite T, V, !duration_72h in *. exact H.
Qed.

Lemma advanceClock_bounds dt s :
  clockInBounds s -> (0 <= dt)%Q ->
  clockInBounds (advanceClock dt s)
  /\ (currentTime (playback s) <= currentTime (playback (advanceClock dt s)))%Q.
Proof.
  unfold clockInBounds. rewrite !duration_72h. intros (V & T0 & T1) Hdt.
  assert (Hstep : (0 <= dt * playbackSpeed (playback s) * 360 * 1000)%Q).
  { repeat apply Qmult_le_0_compat; try assumption; discriminate. }
  unfold advanceClock. destruct (Js.ltb _ _) eqn:E; simpl.
  - rewrite ?duration_72h. unfold inject_Z in *.
    repeat split; try assumption; try lra; discriminate.
  - apply ltb_false in E. simpl in E. rewrite ?duration_72h in *.
    unfold inject_Z in *. repeat split; try assumption; lra.
Qed.

Lemma update_bounds dt s :
  clockInBounds s -> (0 <= dt)%Q ->
  clockInBounds (update dt s)
  /\ (currentTime (playback s) <= currentTime (playback (update dt s)))%Q.
Proof.
  intros Hb Hdt. destruct (isPlaying (playback s)) eqn:P.
  - destruct (advanceClock_bounds dt s Hb Hdt) as [Hb' Hm].
    pose proof (update_playing dt s P) as K.
    split.
    + eapply clockInBounds_kept; [apply (ck_time _ _ K)|apply (ck_speed _ _ K)|exact Hb'].
    + rewrite (ck_time _ _ K). exact Hm.
  - rewrite update_stopped by exact P. split; [exact Hb|apply Qle_refl].
Qed.

Lemma step_bounds s input :
  match input with
  | Frame dt => (0 <= dt)%Q
  | ClickSpeed v => (0 <= v)%Q
  | _ => True
  end ->
  clockInBounds s -> clockInBounds (step s input).
Proof.
  intros Hin Hb. destruct input; cbn [step].
  - apply update_bounds; assumption.
  - exact Hb.
  - destruct Hb as (_ & T0 & T1). repeat split; assumption.
  - rewrite restart_state. unfold clockInBounds. simpl.
    destruct Hb as (V & _ & _).
    repeat split; [exact V|discriminate|rewrite duration_72h; discriminate].
  - eapply clockInBounds_kept; [| |exact Hb].
    + framed (frame_elapse (fun x => currentTime (playback x))).
    + framed (frame_elapse (fun x => playbackSpeed (playback x))).
Qed.

(** X4.  With frames that do not run backwards and speeds that are not
    negative, simulated time never leaves the interval from 0 to the
    72-hour duration, whatever else happens, and a call of [update] never
    moves it back. *)
Theorem clock_stays_in_bounds :
  (forall inputs s,
     wellTimed inputs -> clockInBounds s -> clockInBounds (run s inputs))
  /\ (forall s dt,
        clockInBounds s -> (0 <= dt)%Q ->
        (currentTime (playback s) <= currentTime (playback (update dt s)))%Q
        /\ (currentTime (playback (update dt s)) <= 259200000)%Q).
Proof.
  split.
  - induction inputs as [|input rest IH]; intros s Hw Hb; [exact Hb|].
    inversion Hw as [|? ? Hin Hrest]; subst. simpl.
    apply IH; [exact Hrest|]. apply step_bounds; assumption.
  - intros s dt Hb Hdt. destruct (update_bounds dt s Hb Hdt) as [(_ & _ & T1) Hm].
    rewrite duration_72h in T1. split; assumption.
Qed.

(** A run that plays, overshoots the end, restarts and speeds up. *)
Lemma clock_stays_in_bounds_witness :
  clockInBounds
    (run Sample.quiet [Frame 500; Frame 500; ClickRestart; ClickSpeed 60; Frame 1]).
Proof.
  apply (proj1 clock_stays_in_bounds).
  - repeat constructor; discriminate.
  - repeat split; discriminate.
Defined.

(** ** No event is dispatched before its time *)

Lemma In_writeProcessed b (l : list Event) : forall i e',
  In e' (writeProcessed i b l) ->
  In e' l \/ exists e, nth_error l i = Some e /\ e' = setProcessed b e.
Proof.
  induction l as [|a l IH]; intros i e' Hin; [destruct i; destruct Hin|].
  destruct i as [|i]; simpl in Hin.
  - destruct Hin as [<-|Hin]; [right; exists a; auto|left; right; exact Hin].
  - destruct Hin as [<-|Hin]; [left; left; reflexivity|].
    destruct (IH i e' Hin) as [H|H]; [left; right; exact H|right; exact H].
Qed.

(** A call of [processEvents] changes the log only by flagging one
    candidate. *)
Lemma processEvents_flags_candidate t s :
  data (processEvents t s) = data s
  \/ exists i e, candidate t s i e
                 /\ data (processEvents t s) = writeProcessed i true (data s).
Proof.
  unfold processEvents. destruct (gateClosed t s); [left; reflexivity|].
  destruct (selectNext _ _ _) as [[i e]|] eqn:E; [|left; reflexivity].
  right. exists i, e. split.
  - apply availableEvents_In. eapply selectNext_In, E.
  - apply dispatch_log.
Qed.

Lemma dispatchedAreDue_kept s s' :
  data s' = data s -> startTime s' = startTime s ->
  (currentTime (playback s) <= currentTime (playback s'))%Q ->
  dispatchedAreDue s -> dispatchedAreDue s'.
Proof.
  unfold dispatchedAreDue. intros D S T H e He Hp. rewrite D in He. rewrite S.
  specialize (H e He Hp). lra.
Qed.

Lemma update_due dt s :
  clockInBounds s -> (0 <= dt)%Q ->
  dispatchedAreDue s -> dispatchedAreDue (update dt s).
Proof.
  intros Hb Hdt Hd. destruct (isPlaying (playback s)) eqn:P;
    [|rewrite update_stopped by exact P; exact Hd].
  destruct (update_bounds dt s Hb Hdt) as [_ Hm].
  destruct (update_timestamp dt s P) as [Hst Hct]. cbv zeta in Hst, Hct.
  destruct (before_gate dt s) as (Hdata & _).
  set (s2 := updateStage (advanceClock dt s)) in *.
  assert (Hd2 : dispatchedAreDue s2).
  { apply (dispatchedAreDue_kept s s2 Hdata Hst); [|exact Hd]. rewrite Hct. exact Hm. }
  assert (Hfinal : data (update dt s)
                   = data (processEvents (inject_Z (startTime s2) + currentTime (playback s2)) s2)).
  { rewrite (update_unfold dt s P). reflexivity. }
  pose proof (update_playing dt s P) as K.
  assert (Hstart : startTime (update dt s) = startTime s2).
  { rewrite (ck_start _ _ K). rewrite Hst.
    unfold advanceClock. destruct (Js.ltb _ _); reflexivity. }
  intros e He Hp. rewrite Hfinal in He. rewrite Hstart, <- Hct.
  destruct (processEvents_flags_candidate
              (inject_Z (startTime s2) + currentTime (playback s2)) s2)
    as [D|(i & x & (Hn & Hdue & _) & D)]; rewrite D in He.
  - apply Hd2; assumption.
  - apply In_writeProcessed in He. destruct He as [He|(x' & Hn' & ->)].
    + apply Hd2; assumption.
    + rewrite Hn in Hn'. inversion Hn'; subst x'. exact Hdue.
Qed.

Lemma step_due s input :
  match input with
  | Frame dt => (0 <= dt)%Q
  | ClickSpeed v => (0 <= v)%Q
  | _ => True
  end ->
  clockInBounds s -> dispatchedAreDue s -> dispatchedAreDue (step s input).
Proof.
  intros Hin Hb Hd. destruct input; cbn [step].
  - apply update_due; assumption.
  - exact Hd.
  - exact Hd.
  - rewrite restart_state. intros e He Hp. simpl in He.
    apply in_map_iff in He. destruct He as (e0 & <- & _). discriminate.
  - apply (dispatchedAreDue_kept s (elapse ms s)); [| | |exact Hd].
    + apply (lk_data _ _ (logKept_elapse ms s)).
    + framed (frame_elapse startTime).
    + assert (E : currentTime (playback (elapse ms s)) = currentTime (playback s))
        by framed (frame_elapse (fun x => currentTime (playback x))).
      rewrite E. apply Qle_refl.
Qed.

(** X5.  No event is dispatched before its time: with frames that do not
    run backwards, every event flagged as processed has a timestamp at or
    before the simulated present [startTime + currentTime], in every state
    a run reaches. *)
Theorem no_early_dispatch : forall (inputs : list Input) (s : Timeline),
  wellTimed inputs -> clockInBounds s -> dispatchedAreDue s ->
  dispatchedAreDue (run s inputs).
Proof.
  induction inputs as [|input rest IH]; intros s Hw Hb Hd; [exact Hd|].
  inversion Hw as [|? ? Hin Hrest]; subst. simpl.
  apply IH; [exact Hrest| |].
  - apply step_bounds; assumption.
  - apply step_due; assumption.
Qed.

(** The run of the continuity scenario. *)
Lemma no_early_dispatch_witness :
  dispatchedAreDue (run Sample.trio [Frame 70; Elapse 500; Frame (1 # 100)]).
Proof.
  apply no_early_dispatch.
  - repeat constructor; discriminate.
  - repeat split; discriminate.
  - intros e He Hp. simpl in He.
    repeat (destruct He as [<-|He]; [discriminate|]). destruct He.
Defined.

(** ** Flow lifetime *)

Lemma filter_map_flows (p : Flow -> bool) (g : Flow -> Flow) (l : list Flow) :
  filter p (map g l) = map g (filter (fun fl => p (g fl)) l).
Proof.
  induction l as [|fl l IH]; simpl; [reflexivity|].
  destruct (p (g fl)); simpl; rewrite IH; reflexivity.
Qed.

Lemma updateFlows_flows dt s :
  activeFlows (updateFlows dt s)
  = map (fun fl => mkFlow (flowEvent fl) (packetSize fl) (packetStart fl) (lineEnd fl)
                          (animation fl) (lifetime fl) (age fl + dt)%Q)
        (filter (outlives dt) (activeFlows s)).
Proof.
  unfold updateFlows. simpl. rewrite filter_map_flows. f_equal.
  apply filter_ext. intro fl. unfold outlives, Js.ltb. simpl. apply negb_involutive.
Qed.

Lemma olderCopy_refl fl : olderCopy fl fl.
Proof. repeat split. apply Qle_refl. Qed.

Lemma olderCopy_trans fl1 fl2 fl3 :
  olderCopy fl1 fl2 -> olderCopy fl2 fl3 -> olderCopy fl1 fl3.
Proof.
  intros (A1 & A2 & A3 & A4 & A5 & A6 & A7) (B1 & B2 & B3 & B4 & B5 & B6 & B7).
  repeat split; try congruence. eapply Qle_trans; eassumption.
Qed.

Lemma keptOlder_refl l : keptOlder l l.
Proof.
  induction l as [|fl l IH]; constructor; [apply olderCopy_refl|exact IH].
Qed.

Lemma keptOlder_trans l1 l2 :
  keptOlder l1 l2 -> forall l3, keptOlder l2 l3 -> keptOlder l1 l3.
Proof.
  induction 1 as [|fl before after _ IH|fl fl' before after Hfl _ IH]; intros l3 H3.
  - exact H3.
  - apply keptOlder_drop, IH, H3.
  - inversion H3 as [|? ? ? Hrest|? fl'' ? after3 Hfl' Hrest]; subst.
    + apply keptOlder_drop, IH, Hrest.
    + apply keptOlder_keep; [eapply olderCopy_trans; eassumption|apply IH, Hrest].
Qed.

(** One frame that does not run backwards drops flows or ages them. *)
Lemma updateFlows_keptOlder dt s :
  (0 <= dt)%Q -> keptOlder (activeFlows s) (activeFlows (updateFlows dt s)).
Proof.
  intro Hdt. rewrite updateFlows_flows.
  induction (activeFlows s) as [|fl l IH]; simpl; [constructor|].
  destruct (outlives dt fl); simpl.
  - apply keptOlder_keep; [|exact IH].
    repeat split. simpl. lra.
  - apply keptOlder_drop, IH.
Qed.

(** X6.  What [updateFlows] does to the flows.  One call keeps exactly the
    flows whose age plus the frame time does not exceed their lifetime, in
    their order and older by the frame time, nothing else about them
    changed; so after a call no flow is older than its lifetime.  Over any
    number of frames that do not run backwards the flows are the former
    ones with some of them gone and the others not younger, in the order
    they had: [updateFlows] adds no flow, brings none back and never
    reorders them. *)
Theorem flow_expiry :
  (forall dt s,
     Forall2 (agedBy dt) (filter (outlives dt) (activeFlows s))
             (activeFlows (updateFlows dt s))
     /\ Forall (fun fl => (age fl <= lifetime fl)%Q) (activeFlows (updateFlows dt s)))
  /\ (forall dts s,
        Forall (fun d => (0 <= d)%Q) dts ->
        keptOlder (activeFlows s) (activeFlows (ageFlows dts s))).
Proof.
  split.
  - intros dt s. rewrite updateFlows_flows. split.
    + induction (filter (outlives dt) (activeFlows s)) as [|fl l IH]; simpl; constructor.
      * repeat split; reflexivity.
      * exact IH.
    + apply Forall_forall. intros fl Hin. apply in_map_iff in Hin.
      destruct Hin as (fl0 & <- & Hin0). apply filter_In in Hin0.
      destruct Hin0 as [_ Hlive]. apply Qle_bool_iff in Hlive. exact Hlive.
  - induction dts as [|dt rest IH]; intros s Hpos; [apply keptOlder_refl|].
    inversion Hpos as [|? ? Hdt Hrest]; subst.
    change (ageFlows (dt :: rest) s) with (ageFlows rest (updateFlows dt s)).
    eapply keptOlder_trans; [apply updateFlows_keptOlder, Hdt|apply IH, Hrest].
Qed.

(** The five flows of the credential theft over three seconds of frames. *)
Lemma flow_expiry_witness :
  let s := elapse 1000 (update (1 # 1000) (Sample.fresh [Sample.theft])) in
  keptOlder (activeFlows s) (activeFlows (ageFlows [1; 2]%Q s)).
Proof.
  apply (proj2 flow_expiry). repeat constructor; discriminate.
Defined.

(** ** Constructor *)

Lemma insertSorted_perm {A} (key : A -> Z) x (l : list A) :
  Permutation (x :: l) (Js.insertSorted key x l).
Proof.
  induction l as [|y l IH]; simpl; [apply Permutation_refl|].
  destruct (key x <=? key y); [apply Permutation_refl|].
  eapply Permutation_trans; [apply perm_swap|]. apply perm_skip, IH.
Qed.

Lemma sortBy_perm {A} (key : A -> Z) (l : list A) :
  Permutation l (Js.sortBy key l).
Proof.
  induction l as [|x l IH]; simpl; [constructor|].
  eapply Permutation_trans; [apply perm_skip, IH|apply insertSorted_perm].
Qed.

Lemma insertSorted_same_key {A} (key : A -> Z) (t : Z) x (l : list A) :
  filter (fun a => key a =? t) (Js.insertSorted key x l)
  = filter (fun a => key a =? t) (x :: l).
Proof.
  induction l as [|y l IH]; [reflexivity|].
  cbn [Js.insertSorted]. destruct (key x <=? key y) eqn:E; [reflexivity|].
  apply Z.leb_gt in E. cbn [filter] in *. rewrite IH.
  destruct (key x =? t) eqn:Ex, (key y =? t) eqn:Ey; try reflexivity.
  apply Z.eqb_eq in Ex, Ey. lia.
Qed.

Lemma sortBy_stable {A} (key : A -> Z) (t : Z) (l : list A) :
  filter (fun a => key a =? t) (Js.sortBy key l) = filter (fun a => key a =? t) l.
Proof.
  induction l as [|x l IH]; [reflexivity|].
  cbn [Js.sortBy]. rewrite insertSorted_same_key. cbn [filter]. rewrite IH. reflexivity.
Qed.

(** X7.  The constructor throws on an empty log.  Otherwise the engine
    holds a permutation of the log in ascending timestamp order, events of
    one timestamp keeping the order they were loaded in; its time origin is
    the earliest timestamp of the log; it starts playing at 1x from time 0
    in stage 0 with nothing dispatched, no flow and no timer. *)
Theorem constructor_sorts (raw : list Event) (cam : Camera) (now : Z) (rnd : nat -> Q) :
  (raw = [] -> construct raw cam now rnd = None)
  /\ (raw <> [] ->
      exists s,
        construct raw cam now rnd = Some s
        /\ Permutation raw (data s)
        /\ sortedByTime (data s)
        /\ (forall t, filter (fun e => timestamp e =? t) (data s)
                      = filter (fun e => timestamp e =? t) raw)
        /\ (forall e, In e raw -> startTime s <= timestamp e)
        /\ (exists e, In e raw /\ startTime s = timestamp e)
        /\ playback s = mkPlayback 0 1 true 0 0 None
        /\ activeFlows s = [] /\ flowCalls s = []
        /\ timers (browser s) = [] /\ overlays (browser s) = []).
Proof.
  split.
  - intros ->. reflexivity.
  - intro Hne. unfold construct.
    pose proof (sortBy_perm timestamp raw) as Hperm.
    pose proof (sortBy_sorted timestamp raw) as Hsorted.
    pose proof (fun t => sortBy_stable timestamp t raw) as Hstable.
    destruct (Js.sortBy timestamp raw) as [|first rest] eqn:E.
    + apply Permutation_sym, Permutation_nil in Hperm. contradiction.
    + eexists. split; [reflexivity|]. simpl.
      repeat split; try assumption; try reflexivity.
      * intros e He.
        assert (Hin : In e (first :: rest)) by (eapply Permutation_in; eassumption).
        destruct Hin as [<-|Hin]; [lia|].
        inversion Hsorted as [|? ? _ Hall]; subst.
        rewrite Forall_forall in Hall. apply Hall, Hin.
      * exists first. split; [|reflexivity].
        eapply Permutation_in; [apply Permutation_sym, Hperm|left; reflexivity].
Qed.

(** The three events of the continuity scenario. *)
Lemma constructor_sorts_witness :
  exists s,
    construct Sample.rawTrio initialCamera 0 Sample.noRandom = Some s
    /\ Permutation Sample.rawTrio (data s)
    /\ sortedByTime (data s)
    /\ (forall t, filter (fun e => timestamp e =? t) (data s)
                  = filter (fun e => timestamp e =? t) Sample.rawTrio)
    /\ (forall e, In e Sample.rawTrio -> startTime s <= timestamp e)
    /\ (exists e, In e Sample.rawTrio /\ startTime s = timestamp e)
    /\ playback s = mkPlayback 0 1 true 0 0 None
    /\ activeFlows s = [] /\ flowCalls s = []
    /\ timers (browser s) = [] /\ overlays (browser s) = [].
Proof.
  apply (proj2 (constructor_sorts Sample.rawTrio initialCamera 0 Sample.noRandom)).
  discriminate.
Defined.

(** ** Counters *)

Lemma processed_count_flagged (l : list Event) : forall i e,
  nth_error l i = Some e -> processed e = false ->
  List.length (filter processed (writeProcessed i true l))
  = S (List.length (filter processed l)).
Proof.
  induction l as [|a l IH]; intros i e Hn Hp; [destruct i; discriminate|].
  destruct i as [|i]; simpl in *.
  - inversion Hn; subst. rewrite Hp. reflexivity.
  - destruct (processed a); simpl; rewrite (IH i e Hn Hp); reflexivity.
Qed.

Lemma nodup_length_le (l : list string) :
  (List.length (nodup string_dec l) <= List.length l)%nat.
Proof.
  induction l as [|x l IH]; simpl; [lia|].
  destruct (in_dec string_dec x l); simpl; lia.
Qed.

Lemma filter_length_weaker {A} (p q : A -> bool) (l : list A) :
  (List.length (filter (fun a => p a && q a) l) <= List.length (filter p l))%nat.
Proof.
  induction l as [|a l IH]; simpl; [lia|].
  destruct (p a), (q a); simpl; lia.
Qed.

Lemma step_counts s input :
  input <> ClickRestart ->
  (processedEvents (step s input) + List.length (flowCalls s)
   = processedEvents s + List.length (flowCalls (step s input)))%nat.
Proof.
  intro Hne. unfold processedEvents.
  destruct (step_log s input Hne) as [[D C]|(i & Hp & Hl & D & C)]; rewrite D, C.
  - reflexivity.
  - unfold isProcessed in Hp.
    destruct (nth_error (data s) i) as [e|] eqn:N.
    + rewrite (processed_count_flagged (data s) i e N Hp). simpl. lia.
    + apply nth_error_None in N. lia.
Qed.

(** X8.  The event counter counts dispatches: along a run without
    [restart] the number of processed events grows by exactly the number of
    events handed to [createPacketFlow]; [restart] sets it, and the count of
    compromised destinations, back to zero; and the compromised
    destinations are never more than the processed events, nor these more
    than the log. *)
Theorem counters_count_dispatches :
  (forall inputs s,
     restartFree inputs ->
     (processedEvents (run s inputs) + List.length (flowCalls s)
      = processedEvents s + List.length (flowCalls (run s inputs)))%nat)
  /\ (forall s, processedEvents (restart s) = 0%nat /\ compromised (restart s) = 0%nat)
  /\ (forall s, (compromised s <= processedEvents s)%nat
                /\ (processedEvents s <= List.length (data s))%nat).
Proof.
  split; [|split].
  - induction inputs as [|input rest IH]; intros s Hfree; [reflexivity|].
    inversion Hfree as [|? ? Hne Hrest]; subst. simpl.
    pose proof (IH (step s input) Hrest) as H1.
    pose proof (step_counts s input Hne) as H2.
    unfold run in *. lia.
  - intro s. unfold processedEvents, compromised. rewrite restart_state. simpl.
    assert (H : forall p, (forall e, p (setProcessed false e) = false) ->
                          filter p (map (setProcessed false) (data s)) = []).
    { intros p Hp. induction (data s) as [|e l IHl]; simpl; [reflexivity|].
      rewrite Hp. exact IHl. }
    rewrite !H by reflexivity. split; reflexivity.
  - intro s. unfold compromised, processedEvents. split.
    + eapply Nat.le_trans; [apply nodup_length_le|].
      rewrite length_map. apply filter_length_weaker.
    + apply filter_length_le.
Qed.

(** The two frames of the gate scenario. *)
Lemma counters_count_dispatches_witness :
  (processedEvents (run Sample.pair [Frame (1 # 10); Elapse 100; Frame (1 # 10)])
   + List.length (flowCalls Sample.pair)
   = processedEvents Sample.pair
     + List.length (flowCalls (run Sample.pair [Frame (1 # 10); Elapse 100; Frame (1 # 10)])))%nat.
Proof.
  apply (proj1 counters_count_dispatches).
  repeat constructor; discriminate.
Defined.

(** ** Node registry *)

Lemma mapGet_mapSet_same (m : NodeMap) k v : mapGet (mapSet m k v) k = Some v.
Proof.
  induction m as [|[k0 v0] m IH]; simpl.
  - rewrite String.eqb_refl. reflexivity.
  - destruct (String.eqb k0 k) eqn:E; simpl; rewrite E; [reflexivity|exact IH].
Qed.

Lemma mapGet_mapSet_other (m : NodeMap) k k' v :
  k' <> k -> mapGet (mapSet m k v) k' = mapGet m k'.
Proof.
  intro Hne. induction m as [|[k0 v0] m IH]; simpl.
  - apply String.eqb_neq in Hne. rewrite String.eqb_sym, Hne. reflexivity.
  - destruct (String.eqb k0 k) eqn:E; simpl.
    + apply String.eqb_eq in E. subst k0.
      assert (E' : String.eqb k k' = false)
        by (apply String.eqb_neq; congruence).
      rewrite E'. reflexivity.
    + destruct (String.eqb k0 k'); [reflexivity|exact IH].
Qed.

Lemma register_other (nodes : list (string * Vector3)) : forall (m : NodeMap) k,
  ~ In k (map fst nodes) ->
  mapGet (fold_left (fun m node => mapSet m (fst node) (snd node)) nodes m) k
  = mapGet m k.
Proof.
  induction nodes as [|[k0 v0] nodes IH]; intros m k Hk; [reflexivity|].
  simpl in *. rewrite IH by tauto.
  apply mapGet_mapSet_other. intro E. apply Hk. left. congruence.
Qed.

Lemma register_found (nodes : list (string * Vector3)) : forall (m : NodeMap) k v,
  NoDup (map fst nodes) -> In (k, v) nodes ->
  mapGet (fold_left (fun m node => mapSet m (fst node) (snd node)) nodes m) k
  = Some v.
Proof.
  induction nodes as [|[k0 v0] nodes IH]; intros m k v Hnd Hin; [destruct Hin|].
  simpl in *. inversion Hnd as [|? ? Hnot Hnd']; subst.
  destruct Hin as [E|Hin].
  - inversion E; subst. rewrite register_other by exact Hnot.
    apply mapGet_mapSet_same.
  - apply IH; assumption.
Qed.

Lemma topology_distinct : NoDup (map fst topology).
Proof.
  simpl. repeat (constructor; [simpl; intuition discriminate|]). constructor.
Qed.

(** X9.  The registry is a faithful map: what [set] stores under an
    address [get] returns, and other addresses are not disturbed.  A
    registry built from nodes with distinct addresses resolves each of them
    to the very position it was created with, without a draw of
    [Math.random]; the fifteen nodes of the topology are such. *)
Theorem registry_round_trip :
  (forall (m : NodeMap) k v, mapGet (mapSet m k v) k = Some v)
  /\ (forall (m : NodeMap) k k' v, k' <> k -> mapGet (mapSet m k v) k' = mapGet m k')
  /\ (forall (nodes : list (string * Vector3)) ip pos rnd n,
        NoDup (map fst nodes) -> In (ip, pos) nodes ->
        getNodePosition
          (fold_left (fun m node => mapSet m (fst node) (snd node)) nodes [])
          rnd n ip
        = (Some pos, n))
  /\ (forall ip pos rnd n,
        In (ip, pos) topology ->
        getNodePosition createNetworkInfrastructure rnd n ip = (Some pos, n)).
Proof.
  split; [exact mapGet_mapSet_same|].
  split; [exact mapGet_mapSet_other|].
  assert (H : forall (nodes : list (string * Vector3)) ip pos rnd n,
            NoDup (map fst nodes) -> In (ip, pos) nodes ->
            getNodePosition
              (fold_left (fun m node => mapSet m (fst node) (snd node)) nodes [])
              rnd n ip
            = (Some pos, n)).
  { intros nodes ip pos rnd n Hnd Hin. unfold getNodePosition.
    rewrite (register_found nodes [] ip pos Hnd Hin). reflexivity. }
  split; [exact H|].
  intros ip pos rnd n Hin. apply (H topology ip pos rnd n topology_distinct Hin).
Qed.

(** The water treatment plant. *)
Lemma registry_round_trip_witness :
  getNodePosition createNetworkInfrastructure Sample.noRandom 0 "10.1.1.30"
  = (Some (vec 600 50 0), 0%nat).
Proof.
  apply (proj2 (proj2 (proj2 registry_round_trip))).
  simpl. do 12 right. left. reflexivity.
Defined.

(** ** No flow without a dispatch *)

Lemma spawnEvent_isSpawn t i : spawnEvent t = Some i -> isSpawn t = true.
Proof. unfold spawnEvent, isSpawn. destruct (callback t); congruence. Qed.

Lemma addsNoSpawn_spawns s s' :
  addsNoSpawn s s' ->
  filter isSpawn (timers (browser s')) = filter isSpawn (timers (browser s)).
Proof.
  intros [_ (extra & T & F)]. rewrite T, filter_app, F. apply app_nil_r.
Qed.

Lemma addsNoSpawn_followAttack i s : addsNoSpawn s (followAttack i s).
Proof.
  unfold followAttack. destruct (nth_error (data s) i) as [e|]; [|apply addsNoSpawn_refl].
  destruct (nodePosition_total (source_ip e) s) as (sp & n1 & E1). rewrite E1.
  destruct (nodePosition_total (destination_ip e) (onBrowser (setDraws n1) s))
    as (dp & n2 & E2).
  rewrite E2. exact (addsNoSpawn_refl s).
Qed.

Lemma addsNoSpawn_after_flow i e s :
  addsNoSpawn s (followMajor i e (explainZeroDay e s)).
Proof.
  eapply addsNoSpawn_trans with (s2 := explainZeroDay e s).
  - unfold explainZeroDay, highlightZeroDay.
    destruct (_ && _); [|apply addsNoSpawn_refl].
    eapply addsNoSpawn_trans; [apply addsNoSpawn_onShown|apply addsNoSpawn_highlight].
  - generalize (explainZeroDay e s). intro s1.
    unfold followMajor. destruct (_ && _); [|apply addsNoSpawn_refl].
    eapply addsNoSpawn_trans; [|apply addsNoSpawn_onShown].
    destruct (String.eqb _ _).
    + apply addsNoSpawn_setTimeout. reflexivity.
    + apply addsNoSpawn_followAttack.
Qed.

Lemma batchTimers_event now i sp dp count t :
  In t (batchTimers now i sp dp count) -> spawnEvent t = Some i.
Proof.
  unfold batchTimers. intro H. apply in_map_iff in H.
  destruct H as (k & <- & _). reflexivity.
Qed.

(** The packet timers pending after a dispatch are the old ones and those
    of the dispatched event. *)
Lemma dispatch_spawns t i e s tm :
  In tm (filter isSpawn (timers (browser (dispatch t i e s)))) ->
  In tm (filter isSpawn (timers (browser s))) \/ spawnEvent tm = Some i.
Proof.
  unfold dispatch. cbv zeta.
  match goal with |- context [createPacketFlow i ?a] => set (s1 := a) end.
  change (filter isSpawn (timers (browser s)))
    with (filter isSpawn (timers (browser s1))).
  rewrite (addsNoSpawn_spawns _ _ (addsNoSpawn_after_flow i e (createPacketFlow i s1))).
  destruct (nth_error (data s1) i) as [x|] eqn:N.
  - destruct (createPacketFlow_batch s1 i x N) as (sp & dp & Hb). rewrite Hb.
    intro H. apply in_app_or in H. destruct H as [H|H]; [left; exact H|].
    right. eapply batchTimers_event, H.
  - unfold createPacketFlow. cbv zeta.
    replace (nth_error (data (recordFlowCall i s1)) i) with (@None Event)
      by (symmetry; exact N).
    intro H. left. exact H.
Qed.

Lemma processEvents_shape t s :
  processEvents t s = s \/ exists i e, processEvents t s = dispatch t i e s.
Proof.
  unfold processEvents. destruct (gateClosed t s); [left; reflexivity|].
  destruct (selectNext _ _ _) as [[i e]|]; [right; eauto|left; reflexivity].
Qed.

Lemma flowsAreDispatched_spawns s :
  flowsAreDispatched s <->
  (forall fl, In fl (activeFlows s) -> In (flowEvent fl) (flowCalls s))
  /\ (forall t i, In t (filter isSpawn (timers (browser s))) ->
                  spawnEvent t = Some i -> In i (flowCalls s)).
Proof.
  unfold flowsAreDispatched. split; intros [H1 H2]; (split; [exact H1|]).
  - intros t i Ht Hs. apply filter_In in Ht. apply (H2 t i); tauto.
  - intros t i Ht Hs. apply (H2 t i); [|exact Hs].
    apply filter_In. split; [exact Ht|eapply spawnEvent_isSpawn, Hs].
Qed.

Lemma processEvents_dispatched t s :
  flowsAreDispatched s -> flowsAreDispatched (processEvents t s).
Proof.
  intro H. destruct (processEvents_shape t s) as [->|(i & e & ->)]; [exact H|].
  apply flowsAreDispatched_spawns in H. destruct H as [H1 H2].
  apply flowsAreDispatched_spawns.
  destruct (dispatch_log t i e s) as [_ C]. rewrite C.
  assert (Hflows : activeFlows (dispatch t i e s) = activeFlows s)
    by framed (frame_dispatch activeFlows).
  rewrite Hflows. split.
  - intros fl Hfl. right. apply H1, Hfl.
  - intros tm j Htm Hj. destruct (dispatch_spawns t i e s tm Htm) as [Hold|Hnew].
    + right. apply (H2 tm j Hold Hj).
    + left. congruence.
Qed.

Lemma update_dispatched dt s :
  flowsAreDispatched s -> flowsAreDispatched (update dt s).
Proof.
  intro H. destruct (isPlaying (playback s)) eqn:P;
    [|rewrite update_stopped by exact P; exact H].
  rewrite (update_unfold dt s P). cbv zeta.
  destruct (before_gate dt s) as (_ & C & _ & _ & B & Fl).
  set (s2 := updateStage (advanceClock dt s)) in *.
  assert (H2 : flowsAreDispatched s2).
  { unfold flowsAreDispatched. rewrite C, B, Fl. exact H. }
  pose proof (processEvents_dispatched
                (inject_Z (startTime s2) + currentTime (playback s2)) s2 H2) as [G1 G2].
  generalize dependent (processEvents (inject_Z (startTime s2) + currentTime (playback s2)) s2).
  intros s3 G1 G2. split.
  - intros fl Hfl. rewrite updateFlows_flows in Hfl.
    apply in_map_iff in Hfl. destruct Hfl as (fl0 & <- & Hfl0).
    apply filter_In in Hfl0. apply (G1 fl0), Hfl0.
  - exact G2.
Qed.

Lemma fire_timers cb s : timers (browser (fire cb s)) = timers (browser s).
Proof.
  destruct cb as [i sp dp isFirst| | |i|box w]; simpl; try reflexivity.
  - unfold createSinglePacket, animateMultiHop.
    destruct (nth_error (data s) i) as [e|]; [|reflexivity].
    destruct (proxy_chain e); [reflexivity|]. destruct (hops _ _ _ _). reflexivity.
  - unfold followAttack. destruct (nth_error (data s) i) as [e|]; [|reflexivity].
    destruct (nodePosition_total (source_ip e) s) as (sp & n1 & E1). rewrite E1.
    destruct (nodePosition_total (destination_ip e) (onBrowser (setDraws n1) s))
      as (dp & n2 & E2).
    rewrite E2. reflexivity.
  - unfold dismiss. destruct w; reflexivity.
Qed.

Lemma fire_new_flow cb s fl :
  In fl (activeFlows (fire cb s)) ->
  In fl (activeFlows s) \/ spawnEvent (mkTimer 0 cb) = Some (flowEvent fl).
Proof.
  destruct cb as [i sp dp isFirst| | |i|box w]; simpl; try (intro H; left; exact H).
  - unfold createSinglePacket, animateMultiHop.
    destruct (nth_error (data s) i) as [e|]; [|intro H; left; exact H].
    destruct (proxy_chain e).
    + simpl. intro H. apply in_app_or in H.
      destruct H as [H|[<-|[]]]; [left; exact H|right; reflexivity].
    + destruct (hops _ _ _ _). simpl. intro H. apply in_app_or in H.
      destruct H as [H|[<-|[]]]; [left; exact H|right; reflexivity].
  - rewrite followAttack_flows. intro H. left. exact H.
  - unfold dismiss. destruct w; intro H; left; exact H.
Qed.

Lemma gsapTick_timers ms s : timers (browser (gsapTick ms s)) = timers (browser s).
Proof.
  unfold gsapTick. destruct (gsapPaused (browser s)); [reflexivity|]. cbv zeta.
  match goal with |- timers (browser (fold_left ?g ?l ?a)) = _ =>
    change (timers (browser (fold_left g l a)) = timers (browser a));
    apply (fold_left_kept (fun x y => timers (browser y) = timers (browser x)))
  end.
  - reflexivity.
  - intros a b c H1 H2. congruence.
  - intros a t. destruct (tweenEnd t); reflexivity.
Qed.

Lemma waitUntil_timers t s : timers (browser (waitUntil t s)) = timers (browser s).
Proof.
  unfold waitUntil. destruct (t <=? clock (browser s)); [reflexivity|].
  simpl. apply gsapTick_timers.
Qed.

Lemma waitUntil_dispatched t s :
  flowsAreDispatched s -> flowsAreDispatched (waitUntil t s).
Proof.
  unfold flowsAreDispatched.
  rewrite waitUntil_timers, waitUntil_flows, (lk_calls _ _ (logKept_waitUntil t s)).
  auto.
Qed.

Lemma fireAll_dispatched ts : forall s,
  (forall t i, In t ts -> spawnEvent t = Some i -> In i (flowCalls s)) ->
  flowsAreDispatched s ->
  flowsAreDispatched (fold_left (fun s t => fire (callback t) (waitUntil (due t) s)) ts s).
Proof.
  induction ts as [|t0 ts IH]; intros s Hts H; [exact H|].
  simpl.
  assert (Cw : flowCalls (waitUntil (due t0) s) = flowCalls s)
    by apply (lk_calls _ _ (logKept_waitUntil (due t0) s)).
  apply (waitUntil_dispatched (due t0)) in H.
  set (s1 := waitUntil (due t0) s) in *.
  destruct H as [H1 H2].
  assert (C : flowCalls (fire (callback t0) s1) = flowCalls s)
    by (rewrite (lk_calls _ _ (logKept_fire (callback t0) s1)); exact Cw).
  apply IH.
  - intros t i Ht Hs. rewrite C. apply (Hts t i); [right; exact Ht|exact Hs].
  - split.
    + intros fl Hfl. rewrite C.
      destruct (fire_new_flow (callback t0) s1 fl Hfl) as [Hold|Hnew];
        [rewrite <- Cw; apply H1, Hold|].
      apply (Hts t0 (flowEvent fl)); [left; reflexivity|exact Hnew].
    + intros t i Ht Hs. rewrite C. rewrite fire_timers in Ht.
      rewrite <- Cw. apply (H2 t i Ht Hs).
Qed.

Lemma elapse_dispatched ms s :
  flowsAreDispatched s -> flowsAreDispatched (elapse ms s).
Proof.
  intros [H1 H2]. unfold elapse. cbv zeta.
  match goal with |- flowsAreDispatched (onBrowser ?g (waitUntil ?t ?a)) =>
    assert (H : flowsAreDispatched a)
  end.
  { apply fireAll_dispatched.
    - intros t i Ht Hs. apply sortBy_In, filter_In in Ht. simpl.
      apply (H2 t i); tauto.
    - split; simpl.
      + exact H1.
      + intros t i Ht Hs. apply filter_In in Ht. apply (H2 t i); tauto. }
  apply (waitUntil_dispatched (clock (browser s) + ms)) in H. exact H.
Qed.

(** X10.  No flow without a dispatch: in every state a run reaches, with
    or without restarts, each active flow and each pending packet timer
    belongs to an event that was handed to [createPacketFlow]. *)
Theorem flows_only_for_dispatched : forall (inputs : list Input) (s : Timeline),
  flowsAreDispatched s -> flowsAreDispatched (run s inputs).
Proof.
  induction inputs as [|input rest IH]; intros s H; [exact H|].
  simpl. apply IH. destruct input; cbn [step].
  - apply update_dispatched, H.
  - exact H.
  - exact H.
  - rewrite restart_state. destruct H as [_ H2]. split; simpl.
    + intros fl [].
    + exact H2.
  - apply elapse_dispatched, H.
Qed.

(** A dispatch, a restart in mid-batch and the stale timers running. *)
Lemma flows_only_for_dispatched_witness :
  flowsAreDispatched
    (run (Sample.fresh [Sample.theft])
         [Frame (1 # 1000); Elapse 300; ClickRestart; Elapse 1000]).
Proof.
  apply flows_only_for_dispatched.
  split; simpl; [intros fl []|intros t i []].
Defined.

(** ** One box per kind *)

Lemma sameBoxes_refl s : sameBoxes s s.
Proof. split; reflexivity. Qed.

Lemma sameBoxes_trans s1 s2 s3 : sameBoxes s1 s2 -> sameBoxes s2 s3 -> sameBoxes s1 s3.
Proof. intros [A1 B1] [A2 B2]. split; congruence. Qed.

Lemma sameBoxes_once k flag s s' :
  sameBoxes s s' -> shownOnce k flag s -> shownOnce k flag s'.
Proof. intros [A B]. unfold shownOnce, countBox. rewrite A, B. auto. Qed.

Lemma sameBoxes_followAttack i s : sameBoxes s (followAttack i s).
Proof.
  unfold followAttack. destruct (nth_error (data s) i) as [e|]; [|apply sameBoxes_refl].
  destruct (nodePosition_total (source_ip e) s) as (sp & n1 & E1). rewrite E1.
  destruct (nodePosition_total (destination_ip e) (onBrowser (setDraws n1) s))
    as (dp & n2 & E2).
  rewrite E2. split; reflexivity.
Qed.

Lemma sameBoxes_spawnLoop i sp dp count : forall k s,
  sameBoxes s (spawnLoop i sp dp k count s).
Proof.
  induction count as [|count IH]; intros k s; simpl; [apply sameBoxes_refl|].
  eapply sameBoxes_trans; [|apply IH]. split; reflexivity.
Qed.

Lemma sameBoxes_createSinglePacket i sp dp isFirst s :
  sameBoxes s (createSinglePacket i sp dp isFirst s).
Proof.
  unfold createSinglePacket, animateMultiHop.
  destruct (nth_error (data s) i) as [e|]; [|apply sameBoxes_refl].
  destruct (proxy_chain e); [split; reflexivity|].
  destruct (hops _ _ _ _). split; reflexivity.
Qed.

Lemma sameBoxes_before_gate dt s : sameBoxes s (updateStage (advanceClock dt s)).
Proof.
  unfold updateStage, advanceClock, onStageChange, animateCamera.
  destruct (Js.ltb _ _); simpl;
    destruct (resolveStage _) as [n|]; simpl; try (split; reflexivity);
    destruct (negb _); simpl; try (split; reflexivity);
    destruct (nth_error stages n); split; reflexivity.
Qed.

Lemma countBox_highlight k k' s :
  countBox k (highlight k' s)
  = (countBox k s + (if AlertKind_eq_dec k' k then 1 else 0))%nat.
Proof.
  unfold countBox, highlight. simpl. rewrite filter_app, length_app. simpl.
  destruct (AlertKind_eq_dec k' k); reflexivity.
Qed.

Lemma once_highlight_other k flag k' s :
  k' <> k -> shownOnce k flag s -> shownOnce k flag (highlight k' s).
Proof.
  intros Hne H. unfold shownOnce in *. rewrite countBox_highlight.
  destruct (AlertKind_eq_dec k' k); [contradiction|].
  change (shown (highlight k' s)) with (shown s). lia.
Qed.

Lemma once_onShown k flag (g : Shown -> Shown) s :
  flag (g (shown s)) = flag (shown s) ->
  shownOnce k flag s -> shownOnce k flag (onShown g s).
Proof. intros E H. unfold shownOnce in *. simpl. rewrite E. exact H. Qed.

(** Showing the box of a kind whose flag is down, and raising the flag. *)
Lemma once_trigger k flag (g : Shown -> Shown) s :
  flag (g (shown s)) = true -> flag (shown s) = false ->
  shownOnce k flag s -> shownOnce k flag (highlight k (onShown g s)).
Proof.
  intros Hup Hdown H. unfold shownOnce in *. rewrite Hdown in H.
  rewrite countBox_highlight.
  change (shown (highlight k (onShown g s))) with (g (shown s)). rewrite Hup.
  change (countBox k (onShown g s)) with (countBox k s).
  destruct (AlertKind_eq_dec k k); lia.
Qed.

Lemma filter_after_filter {A} (p q : A -> bool) (l : list A) :
  (List.length (filter p (filter q l)) <= List.length (filter p l))%nat.
Proof.
  induction l as [|a l IH]; simpl; [lia|].
  destruct (q a); simpl; destruct (p a); simpl; lia.
Qed.

Lemma once_dismiss k flag box w s :
  shownOnce k flag s -> shownOnce k flag (dismiss box w s).
Proof.
  apply sameBoxes_once. unfold dismiss. destruct w; split; reflexivity.
Qed.

(** A fade that completes takes its box away, a camera tween none. *)
Lemma once_finishTween k flag e s :
  shownOnce k flag s -> shownOnce k flag (finishTween e s).
Proof.
  intro H. destruct e as [box|pos|pos]; [|exact H|exact H].
  unfold shownOnce in *.
  assert (Hc : (countBox k (finishTween (TwRemoveBox box) s) <= countBox k s)%nat)
    by (unfold countBox; simpl; apply filter_after_filter).
  change (shown (finishTween (TwRemoveBox box) s)) with (shown s). lia.
Qed.

Lemma once_gsapTick k flag ms s :
  shownOnce k flag s -> shownOnce k flag (gsapTick ms s).
Proof.
  intro H. unfold gsapTick. destruct (gsapPaused (browser s)); [exact H|]. cbv zeta.
  apply fold_left_inv; [intros a t; apply once_finishTween|exact H].
Qed.

Lemma once_waitUntil k flag t s :
  shownOnce k flag s -> shownOnce k flag (waitUntil t s).
Proof.
  intro H. unfold waitUntil. destruct (t <=? clock (browser s)); [exact H|].
  apply (once_gsapTick k flag (t - clock (browser s))) in H. exact H.
Qed.

Section OneBox.
Variable k : AlertKind.
Variable flag : Shown -> bool.
Hypothesis flag_critical : forall b sh, flag (setCriticalAccessShown b sh) = flag sh.
Hypothesis flag_ot : forall b sh, flag (setOtShown b sh) = flag sh.
Hypothesis flag_follow : forall v sh, flag (setLastFollowedStage v sh) = flag sh.
Hypothesis k_critical : CriticalAccess <> k.
Hypothesis k_infra : CriticalInfrastructure <> k.
Hypothesis k_exfil : Exfiltration <> k.
Hypothesis once_ntds : forall e s,
  shownOnce k flag s -> shownOnce k flag (alertNtds e s).
Hypothesis once_zero : forall e s,
  shownOnce k flag s -> shownOnce k flag (explainZeroDay e s).

Lemma once_alerts e s : shownOnce k flag s -> shownOnce k flag (alerts e s).
Proof.
  intro H. unfold alerts.
  assert (A1 : shownOnce k flag (alertCriticalAccess e s)).
  { unfold alertCriticalAccess, highlightCriticalAccess.
    destruct (_ && _); [|exact H].
    eapply sameBoxes_once; [split; reflexivity|].
    apply once_highlight_other; [exact k_critical|].
    apply once_onShown; [apply flag_critical|exact H]. }
  apply (once_ntds e) in A1.
  assert (A3 : shownOnce k flag (alertOt e (alertNtds e (alertCriticalAccess e s)))).
  { revert A1. generalize (alertNtds e (alertCriticalAccess e s)). intros s' H'.
    unfold alertOt, highlightCriticalInfrastructure.
    destruct (_ && _); [|exact H'].
    eapply sameBoxes_once; [split; reflexivity|].
    apply once_highlight_other; [exact k_infra|].
    apply once_onShown; [apply flag_ot|exact H']. }
  revert A3. generalize (alertOt e (alertNtds e (alertCriticalAccess e s))). intros s' H'.
  unfold alertExfiltration, highlightExfiltration.
  destruct (_ && _); [|exact H'].
  apply once_highlight_other; [exact k_exfil|exact H'].
Qed.

Lemma once_createPacketFlow i s :
  shownOnce k flag s -> shownOnce k flag (createPacketFlow i s).
Proof.
  intro H. unfold createPacketFlow. cbv zeta.
  destruct (nth_error (data (recordFlowCall i s)) i) as [e|]; [|exact H].
  destruct (nodePosition_total (source_ip e) (recordFlowCall i s)) as (sp & n1 & E1).
  rewrite E1.
  destruct (nodePosition_total (destination_ip e)
              (onBrowser (setDraws n1) (recordFlowCall i s))) as (dp & n2 & E2).
  rewrite E2.
  eapply sameBoxes_once; [apply sameBoxes_spawnLoop|].
  apply once_alerts. exact H.
Qed.

Lemma once_followMajor i e s :
  shownOnce k flag s -> shownOnce k flag (followMajor i e s).
Proof.
  intro H. unfold followMajor. destruct (_ && _); [|exact H].
  apply once_onShown; [apply flag_follow|].
  destruct (String.eqb _ _).
  - exact H.
  - eapply sameBoxes_once; [apply sameBoxes_followAttack|exact H].
Qed.

Lemma once_processEvents t s :
  shownOnce k flag s -> shownOnce k flag (processEvents t s).
Proof.
  intro H. destruct (processEvents_shape t s) as [->|(i & e & ->)]; [exact H|].
  unfold dispatch. cbv zeta.
  apply once_followMajor, once_zero, once_createPacketFlow. exact H.
Qed.

Lemma once_update dt s : shownOnce k flag s -> shownOnce k flag (update dt s).
Proof.
  intro H. destruct (isPlaying (playback s)) eqn:P;
    [|rewrite update_stopped by exact P; exact H].
  rewrite (update_unfold dt s P). cbv zeta.
  eapply sameBoxes_once with (s := processEvents _ _); [split; reflexivity|].
  apply once_processEvents.
  eapply sameBoxes_once; [apply sameBoxes_before_gate|exact H].
Qed.

Lemma once_fire cb s : shownOnce k flag s -> shownOnce k flag (fire cb s).
Proof.
  intro H. destruct cb as [i sp dp isFirst| | |i|box w]; simpl.
  - eapply sameBoxes_once; [apply sameBoxes_createSinglePacket|exact H].
  - apply once_onShown; [apply flag_critical|exact H].
  - apply once_onShown; [apply flag_ot|exact H].
  - eapply sameBoxes_once; [apply sameBoxes_followAttack|exact H].
  - apply once_dismiss, H.
Qed.

Lemma once_elapse ms s : shownOnce k flag s -> shownOnce k flag (elapse ms s).
Proof.
  intro H. unfold elapse. cbv zeta.
  match goal with |- shownOnce k flag (onBrowser ?g (waitUntil ?t ?a)) =>
    assert (H0 : shownOnce k flag a)
  end.
  { apply fold_left_inv; [|exact H].
    intros a t Ha. apply once_fire, once_waitUntil, Ha. }
  apply (once_waitUntil k flag (clock (browser s) + ms)) in H0. exact H0.
Qed.

Lemma once_run : forall inputs s,
  shownOnce k flag s -> shownOnce k flag (run s inputs).
Proof.
  induction inputs as [|input rest IH]; intros s H; [exact H|].
  simpl. apply IH. destruct input; cbn [step].
  - apply once_update, H.
  - exact H.
  - exact H.
  - unfold shownOnce, countBox. rewrite restart_state. simpl. lia.
  - apply once_elapse, H.
Qed.

End OneBox.

(** X11.  The zero-day box and the NTDS box are never on screen twice: in
    every state a run reaches, restarts included, the document holds at
    most one info box of each of the two kinds, and none while the flag
    that guards the kind ([cveExplained], [ntdsShown]) is down. *)
Theorem one_box_per_kind (inputs : list Input) (s : Timeline) :
  shownOnce ZeroDay cveExplained s ->
  shownOnce NTDSExtraction ntdsShown s ->
  shownOnce ZeroDay cveExplained (run s inputs)
  /\ shownOnce NTDSExtraction ntdsShown (run s inputs)
  /\ (countBox ZeroDay (run s inputs) <= 1)%nat
  /\ (countBox NTDSExtraction (run s inputs) <= 1)%nat.
Proof.
  intros HZ HN.
  assert (GZ : shownOnce ZeroDay cveExplained (run s inputs)).
  { apply once_run; try (intros; reflexivity); try discriminate; try exact HZ.
    - intros e s0 H. unfold alertNtds, highlightNTDSExtraction.
      destruct (_ && _); [|exact H].
      apply once_highlight_other; [discriminate|].
      apply once_onShown; [reflexivity|exact H].
    - intros e s0 H. unfold explainZeroDay, highlightZeroDay.
      destruct (cveExplained (shown s0)) eqn:E;
        [rewrite andb_false_r; exact H|].
      destruct (String.eqb _ _); [|exact H]. simpl.
      apply once_trigger; [reflexivity|exact E|exact H]. }
  assert (GN : shownOnce NTDSExtraction ntdsShown (run s inputs)).
  { apply once_run; try (intros; reflexivity); try discriminate; try exact HN.
    - intros e s0 H. unfold alertNtds, highlightNTDSExtraction.
      destruct (ntdsShown (shown s0)) eqn:E;
        [rewrite andb_false_r; exact H|].
      destruct (_ && _); [|exact H]. simpl.
      apply once_trigger; [reflexivity|exact E|exact H].
    - intros e s0 H. unfold explainZeroDay, highlightZeroDay.
      destruct (_ && _); [|exact H].
      apply once_highlight_other; [discriminate|].
      apply once_onShown; [reflexivity|exact H]. }
  split; [exact GZ|]. split; [exact GN|].
  unfold shownOnce in GZ, GN.
  split.
  - destruct (cveExplained (shown (run s inputs))); lia.
  - destruct (ntdsShown (shown (run s inputs))); lia.
Qed.

(** The zero-day exploit dispatched, restarted in mid-box and dispatched
    again. *)
Lemma one_box_per_kind_witness :
  let inputs := [Frame (1 # 1000); ClickRestart; Frame (1 # 1000); Elapse 7000] in
  shownOnce ZeroDay cveExplained (run (Sample.fresh [Sample.exploit]) inputs)
  /\ shownOnce NTDSExtraction ntdsShown (run (Sample.fresh [Sample.exploit]) inputs)
  /\ (countBox ZeroDay (run (Sample.fresh [Sample.exploit]) inputs) <= 1)%nat
  /\ (countBox NTDSExtraction (run (Sample.fresh [Sample.exploit]) inputs) <= 1)%nat.
Proof.
  apply one_box_per_kind; unfold shownOnce, countBox; simpl; lia.
Defined.

(** ** What a dispatch records *)

Lemma dispatch_memory t i e s :
  lastEventProcessedTime (playback (dispatch t i e s)) = t
  /\ lastProcessedEventType (playback (dispatch t i e s)) = Some (attack_type e).
Proof.
  assert (G : forall (A : Type) (f : Playback -> A),
            (forall b p, f (setIsPlaying b p) = f p) ->
            f (playback (dispatch t i e s))
            = f (setLastEvent t (Some (attack_type e)) (playback s))).
  { intros A f Hf. unfold dispatch. cbv zeta.
    assert (Z : forall s0, f (playback (explainZeroDay e s0)) = f (playback s0)).
    { intro s0. unfold explainZeroDay, highlightZeroDay.
      destruct (_ && _); [|reflexivity]. simpl. apply Hf. }
    assert (F : forall s0, f (playback (followMajor i e s0)) = f (playback s0)).
    { intro s0. unfold followMajor. destruct (_ && _); [|reflexivity].
      destruct (String.eqb _ _); [reflexivity|].
      apply (frame_followAttack (fun x => f (playback x))); intros; reflexivity. }
    rewrite F, Z.
    rewrite (frame_createPacketFlow (fun x => f (playback x)));
      try (intros; reflexivity).
    intros b s0. simpl. apply Hf. }
  split.
  - apply (G Q lastEventProcessedTime). reflexivity.
  - apply (G (option string) lastProcessedEventType). reflexivity.
Qed.

(** X12.  What a dispatching frame records: when a call of [update] hands
    event [i] to [createPacketFlow], that event was due and unprocessed, it
    is now flagged as processed and otherwise unchanged, the gate remembers
    its attack type, and the gate's timestamp is the simulated present. *)
Theorem dispatch_records (s : Timeline) (dt : Q) (i : nat) :
  flowCalls (update dt s) = i :: flowCalls s ->
  exists e,
    nth_error (data s) i = Some e
    /\ processed e = false
    /\ (inject_Z (timestamp e)
        <= inject_Z (startTime s) + currentTime (playback (update dt s)))%Q
    /\ nth_error (data (update dt s)) i = Some (setProcessed true e)
    /\ lastProcessedEventType (playback (update dt s)) = Some (attack_type e)
    /\ lastEventProcessedTime (playback (update dt s))
       = (inject_Z (startTime s) + currentTime (playback (update dt s)))%Q.
Proof.
  intro Hcall.
  assert (Hgrow : forall (l : list nat), l <> i :: l).
  { intros l E. apply (f_equal (@List.length nat)) in E. simpl in E. lia. }
  destruct (isPlaying (playback s)) eqn:P;
    [|rewrite update_stopped in Hcall by exact P; exfalso; eapply Hgrow, Hcall].
  destruct (update_timestamp dt s P) as [Hst Hct]. cbv zeta in Hst, Hct.
  destruct (before_gate dt s) as (Hd & Hf & _).
  rewrite (update_unfold dt s P) in *. cbv zeta in *.
  set (s2 := updateStage (advanceClock dt s)) in *.
  set (t := (inject_Z (startTime s2) + currentTime (playback s2))%Q) in *.
  assert (Hflows : forall x, flowCalls (updateFlows dt x) = flowCalls x
                             /\ data (updateFlows dt x) = data x
                             /\ playback (updateFlows dt x) = playback x)
    by (intro x; repeat split; reflexivity).
  destruct (Hflows (processEvents t s2)) as (F1 & F2 & F3).
  rewrite F1 in Hcall. rewrite F2, F3. clear F1 F2 F3 Hflows.
  unfold processEvents in *.
  destruct (gateClosed t s2);
    [exfalso; rewrite Hf in Hcall; eapply Hgrow, Hcall|].
  destruct (selectNext _ _ _) as [[j e]|] eqn:E;
    [|exfalso; rewrite Hf in Hcall; eapply Hgrow, Hcall].
  destruct (dispatch_log t j e s2) as [D C].
  rewrite C, Hf in Hcall. inversion Hcall; subst j.
  apply selectNext_In, availableEvents_In in E. destruct E as (Hn & Hdue & Hp).
  destruct (dispatch_memory t i e s2) as [M1 M2].
  exists e. rewrite <- Hd.
  assert (Ht : t = (inject_Z (startTime s) + currentTime (playback s2))%Q)
    by (subst t; rewrite Hst; reflexivity).
  rewrite (ck_time _ _ (clockKept_dispatch t i e s2)).
  repeat split; try assumption.
  - rewrite <- Ht. exact Hdue.
  - rewrite D, nth_error_writeProcessed, Nat.eqb_refl, Hn. reflexivity.
  - rewrite M1. exact Ht.
Qed.

(** The first frame of the gate scenario dispatches event 0. *)
Lemma dispatch_records_witness :
  exists e,
    nth_error (data Sample.pair) 0 = Some e
    /\ processed e = false
    /\ (inject_Z (timestamp e)
        <= inject_Z (startTime Sample.pair)
           + currentTime (playback (update (1 # 10) Sample.pair)))%Q
    /\ nth_error (data (update (1 # 10) Sample.pair)) 0 = Some (setProcessed true e)
    /\ lastProcessedEventType (playback (update (1 # 10) Sample.pair))
       = Some (attack_type e)
    /\ lastEventProcessedTime (playback (update (1 # 10) Sample.pair))
       = (inject_Z (startTime Sample.pair)
          + currentTime (playback (update (1 # 10) Sample.pair)))%Q.
Proof.
  apply (dispatch_records Sample.pair (1 # 10) 0%nat). reflexivity.
Defined.

(** ** The log, the time origin and the registry are fixed *)

Lemma step_fixed s input :
  map (setProcessed false) (data (step s input)) = map (setProcessed false) (data s)
  /\ startTime (step s input) = startTime s
  /\ nodeMap (step s input) = nodeMap s.
Proof.
  split; [|split].
  - destruct (Input_restart_dec input) as [->|Hne].
    + change (step s ClickRestart) with (restart s).
      rewrite restart_state. simpl. rewrite map_map. reflexivity.
    + destruct (step_log s input Hne) as [[D _]|(i & _ & _ & D & _)]; rewrite D;
        [reflexivity|].
      generalize (data s). clear. intro l. revert i.
      induction l as [|e l IH]; intro i; [destruct i; reflexivity|].
      destruct i; simpl; [reflexivity|]. rewrite IH. reflexivity.
  - destruct input; cbn [step]; try reflexivity.
    + destruct (isPlaying (playback s)) eqn:P;
        [|rewrite update_stopped by exact P; reflexivity].
      rewrite (ck_start _ _ (update_playing deltaTime s P)).
      unfold advanceClock. destruct (Js.ltb _ _); reflexivity.
    + framed (frame_elapse startTime).
  - destruct input; cbn [step]; try reflexivity.
    + destruct (isPlaying (playback s)) eqn:P;
        [|rewrite update_stopped by exact P; reflexivity].
      rewrite (update_unfold deltaTime s P). cbv zeta.
      etransitivity; [framed (frame_updateFlows nodeMap)|].
      etransitivity; [framed (frame_processEvents nodeMap)|].
      unfold updateStage, advanceClock, onStageChange, animateCamera.
      destruct (Js.ltb _ _); simpl;
        destruct (resolveStage _) as [n|]; simpl; try reflexivity;
        destruct (negb _); simpl; try reflexivity;
        destruct (nth_error stages n); reflexivity.
    + framed (frame_elapse nodeMap).
Qed.

(** X13.  Nothing the engine does changes the log apart from the
    [processed] flags: along every run the events keep their content and
    their order, and the time origin and the node registry stay what the
    constructor made them. *)
Theorem log_is_fixed : forall (inputs : list Input) (s : Timeline),
  map (setProcessed false) (data (run s inputs)) = map (setProcessed false) (data s)
  /\ List.length (data (run s inputs)) = List.length (data s)
  /\ startTime (run s inputs) = startTime s
  /\ nodeMap (run s inputs) = nodeMap s.
Proof.
  induction inputs as [|input rest IH]; intro s; [repeat split; reflexivity|].
  simpl. destruct (IH (step s input)) as (A & _ & B & C).
  destruct (step_fixed s input) as (A' & B' & C').
  assert (Hmap : map (setProcessed false) (data (run (step s input) rest))
                 = map (setProcessed false) (data s)) by congruence.
  repeat split; try congruence.
  apply (f_equal (@List.length Event)) in Hmap. rewrite !length_map in Hmap. exact Hmap.
Qed.

(** ** The script of a multi-hop packet *)

Lemma scriptSeconds_app (a b : list TimelineItem) :
  (scriptSeconds (a ++ b) == scriptSeconds a + scriptSeconds b)%Q.
Proof.
  induction a as [|item a IH]; cbn [app scriptSeconds]; [ring|].
  destruct item; cbn [app scriptSeconds]; rewrite ?IH; ring.
Qed.

Lemma hops_script nodeMap rnd : forall path n,
  let items := fst (hops nodeMap rnd n path) in
  List.length (filter isTween items) = (List.length path - 1)%nat
  /\ (scriptSeconds items
      == (15 # 10) * inject_Z (Z.of_nat (List.length path - 1))
         + (3 # 10) * inject_Z (Z.of_nat (List.length path - 2)))%Q.
Proof.
  induction path as [|fromIp tl IH]; intro n; [split; reflexivity|].
  destruct tl as [|toIp rest]; [split; reflexivity|].
  cbv zeta. rewrite hops_step.
  destruct (getNodePosition_total nodeMap rnd n fromIp) as (fp & n1 & E1). rewrite E1.
  destruct (getNodePosition_total nodeMap rnd n1 toIp) as (tp & n2 & E2). rewrite E2.
  specialize (IH n2). cbv zeta in IH. destruct IH as [IHt IHs].
  destruct (hops nodeMap rnd n2 (toIp :: rest)) as [items n3]. simpl in IHt, IHs.
  cbv zeta. cbn [fst]. split.
  - rewrite !filter_app, !length_app, IHt. destruct rest; simpl; lia.
  - rewrite !scriptSeconds_app, IHs.
    destruct rest as [|next rest].
    + simpl. reflexivity.
    + cbn [List.length scriptSeconds].
      rewrite ?Nat.sub_succ, ?Nat.sub_0_r.
      rewrite !Nat2Z.inj_succ, <- !Z.add_1_r, !inject_Z_plus.
      change (inject_Z 1) with 1%Q. ring.
Qed.

(** X14.  The script of a multi-hop packet: the waypoints always hold the
    destination; the script moves the packet once per hop, that is one
    tween fewer than there are waypoints, and it runs 1.5 seconds per hop
    plus 0.3 seconds per waypoint strictly between the first and the
    last. *)
Theorem multi_hop_script (s : Timeline) (e : Event) (isFirst : bool) :
  let n := List.length (fullPath e) in
  let items := fst (animateMultiHop e isFirst s) in
  In (destination_ip e) (fullPath e)
  /\ List.length (filter isTween items) = (n - 1)%nat
  /\ (scriptSeconds items
      == (15 # 10) * inject_Z (Z.of_nat (n - 1))
         + (3 # 10) * inject_Z (Z.of_nat (n - 2)))%Q.
Proof.
  cbv zeta. split.
  - unfold fullPath.
    destruct (Js.arrayIncludes _ (destination_ip e)) eqn:Inc.
    + apply arrayIncludes_In, Inc.
    + apply in_or_app. right. left. reflexivity.
  - unfold animateMultiHop.
    destruct (hops_script (nodeMap s) (random (browser s)) (fullPath e)
                          (draws (browser s))) as [Ht Hs].
    destruct (hops _ _ _ _) as [items n']. simpl in Ht, Hs. cbn [fst]. split.
    + rewrite filter_app, length_app, Ht. simpl. lia.
    + rewrite scriptSeconds_app, Hs. simpl. ring.
Qed.

(** ** Nothing due, nothing done *)

(** X15.  With no event due and unprocessed, [processEvents] changes
    nothing, whatever the gate: a log that is used up, or not yet begun,
    leaves the engine alone. *)
Theorem nothing_due_nothing_done (t : Q) (s : Timeline) :
  (forall j x, ~ candidate t s j x) -> processEvents t s = s.
Proof.
  intro Hnone. unfold processEvents. destruct (gateClosed t s); [reflexivity|].
  destruct (selectNext _ _ _) as [[i e]|] eqn:E; [|reflexivity].
  exfalso. apply (Hnone i e), availableEvents_In. eapply selectNext_In, E.
Qed.

(** A minute before the first event of the gate scenario. *)
Lemma nothing_due_nothing_done_witness :
  processEvents (inject_Z Sample.t0 - 60000)%Q Sample.pair = Sample.pair.
Proof.
  apply nothing_due_nothing_done.
  intros j x (Hn & Hdue & _).
  destruct j as [|[|[|j]]]; simpl in Hn; inversion Hn; subst x;
    revert Hdue; vm_compute; intro H; apply H; reflexivity.
Defined.

(** ** The packet of a flow *)

(** X16.  A new flow starts at age 0 with a lifetime of 3 seconds, its
    packet at the source and its line ending at the destination.  The
    packet of a credential-access event has size 8; any other packet has
    size [2 + severity / 10 * 4], which for a severity from 0 to 10 lies
    between 2 and 6. *)
Theorem packet_of_flow (s : Timeline) (i : nat) (e : Event)
    (sp dp : Vector3) (isFirst : bool) :
  nth_error (data s) i = Some e ->
  exists fl,
    activeFlows (createSinglePacket i sp dp isFirst s) = activeFlows s ++ [fl]
    /\ flowEvent fl = i /\ age fl = 0%Q /\ lifetime fl = 3%Q
    /\ packetStart fl = sp /\ lineEnd fl = dp
    /\ (category e = "credential_access" -> packetSize fl = 8%Q)
    /\ (category e <> "credential_access" ->
        packetSize fl = (2 + severity e / 10 * 4)%Q
        /\ ((0 <= severity e)%Q -> (severity e <= 10)%Q ->
            (2 <= packetSize fl)%Q /\ (packetSize fl <= 6)%Q)).
Proof.
  intro Hn. unfold createSinglePacket. rewrite Hn.
  assert (Hsize : forall fl,
            packetSize fl = (if String.eqb (category e) "credential_access" then 8%Q
                             else (2 + severity e / 10 * 4)%Q) ->
            (category e = "credential_access" -> packetSize fl = 8%Q)
            /\ (category e <> "credential_access" ->
                packetSize fl = (2 + severity e / 10 * 4)%Q
                /\ ((0 <= severity e)%Q -> (severity e <= 10)%Q ->
                    (2 <= packetSize fl)%Q /\ (packetSize fl <= 6)%Q))).
  { intros fl Hfl. split.
    - intro Hc. rewrite Hc in Hfl. exact Hfl.
    - intro Hc. apply String.eqb_neq in Hc. rewrite Hc in Hfl.
      split; [exact Hfl|]. intros H0 H10. rewrite Hfl.
      unfold Qdiv. setoid_replace (/ 10)%Q with (1 # 10)%Q by reflexivity. lra. }
  destruct (proxy_chain e).
  - eexists. do 6 (split; [reflexivity|]). apply Hsize. reflexivity.
  - unfold animateMultiHop. destruct (hops _ _ _ _).
    eexists. do 6 (split; [reflexivity|]). apply Hsize. reflexivity.
Qed.

(** The first packet of the credential theft. *)
Lemma packet_of_flow_witness :
  exists fl,
    activeFlows (createSinglePacket 0 (vec 0 50 0) (vec 200 100 0) true
                                    (Sample.fresh [Sample.theft]))
    = activeFlows (Sample.fresh [Sample.theft]) ++ [fl]
    /\ flowEvent fl = 0%nat /\ age fl = 0%Q /\ lifetime fl = 3%Q
    /\ packetStart fl = vec 0 50 0 /\ lineEnd fl = vec 200 100 0
    /\ (category Sample.theft = "credential_access" -> packetSize fl = 8%Q)
    /\ (category Sample.theft <> "credential_access" ->
        packetSize fl = (2 + severity Sample.theft / 10 * 4)%Q
        /\ ((0 <= severity Sample.theft)%Q -> (severity Sample.theft <= 10)%Q ->
            (2 <= packetSize fl)%Q /\ (packetSize fl <= 6)%Q)).
Proof.
  apply (packet_of_flow (Sample.fresh [Sample.theft]) 0%nat Sample.theft).
  reflexivity.
Defined.

(** ** An info box stays until it is dismissed *)

Lemma finishTween_tweens e s : tweens (browser (finishTween e s)) = tweens (browser s).
Proof. destruct e; reflexivity. Qed.

Lemma finishAll_tweens ts s :
  tweens (browser (fold_left (fun s t => finishTween (tweenEnd t) s) ts s))
  = tweens (browser s).
Proof.
  apply (fold_left_kept (fun x y => tweens (browser y) = tweens (browser x))).
  - reflexivity.
  - intros a b c H1 H2. congruence.
  - intros a t. apply finishTween_tweens.
Qed.

(** Tweens that complete leave a box they do not fade where it is. *)
Lemma finishAll_keeps o : forall ts s,
  (forall t, In t ts -> fadedBox t <> Some (fst o)) ->
  In o (overlays (browser s)) ->
  In o (overlays (browser (fold_left (fun s t => finishTween (tweenEnd t) s) ts s))).
Proof.
  induction ts as [|t ts IH]; intros s Hts Hin; [exact Hin|].
  simpl. apply IH; [intros t' Ht'; apply Hts; right; exact Ht'|].
  pose proof (Hts t (or_introl eq_refl)) as Ht. unfold fadedBox in Ht.
  destruct (tweenEnd t) as [box|pos|pos]; simpl; try exact Hin.
  apply filter_In. split; [exact Hin|].
  apply negb_true_iff, Nat.eqb_neq. congruence.
Qed.

Lemma staying_gsapTick o ms s :
  In o (overlays (browser s)) /\ notFading (fst o) s ->
  In o (overlays (browser (gsapTick ms s))) /\ notFading (fst o) (gsapTick ms s).
Proof.
  intros [Hin Hno]. unfold gsapTick.
  destruct (gsapPaused (browser s)); [split; assumption|]. cbv zeta. split.
  - apply finishAll_keeps; [|exact Hin].
    intros t Ht. apply sortBy_In, filter_In in Ht. apply Hno. tauto.
  - unfold notFading. rewrite finishAll_tweens. simpl.
    intros t Ht. apply in_map_iff in Ht. destruct Ht as (t0 & <- & Ht0).
    apply filter_In in Ht0. apply (Hno t0). tauto.
Qed.

Lemma staying_waitUntil o t s :
  In o (overlays (browser s)) /\ notFading (fst o) s ->
  In o (overlays (browser (waitUntil t s))) /\ notFading (fst o) (waitUntil t s).
Proof.
  intro H. unfold waitUntil. destruct (t <=? clock (browser s)); [exact H|].
  apply (staying_gsapTick o (t - clock (browser s))) in H. exact H.
Qed.

(** A callback other than the dismissal of the box leaves the box in the
    document and starts no fade of it. *)
Lemma staying_fire o cb s :
  (forall wasPlaying, cb <> CbDismiss (fst o) wasPlaying) ->
  In o (overlays (browser s)) /\ notFading (fst o) s ->
  In o (overlays (browser (fire cb s))) /\ notFading (fst o) (fire cb s).
Proof.
  intros Hcb [Hin Hno].
  destruct cb as [i sp dp isFirst| | |i|box w]; simpl.
  - unfold createSinglePacket, animateMultiHop.
    destruct (nth_error (data s) i) as [e|]; [|split; assumption].
    destruct (proxy_chain e); [split; assumption|].
    destruct (hops _ _ _ _). split; assumption.
  - split; assumption.
  - split; assumption.
  - unfold followAttack. destruct (nth_error (data s) i) as [e|]; [|split; assumption].
    destruct (nodePosition_total (source_ip e) s) as (sp & n1 & E1). rewrite E1.
    destruct (nodePosition_total (destination_ip e) (onBrowser (setDraws n1) s))
      as (dp & n2 & E2).
    rewrite E2. split; [exact Hin|].
    unfold notFading. simpl. intros t Ht.
    rewrite <- app_assoc in Ht. apply in_app_or in Ht.
    destruct Ht as [Ht|[<-|[<-|[]]]]; [apply Hno, Ht|discriminate|discriminate].
  - assert (Hbox : box <> fst o) by (intros ->; apply (Hcb w); reflexivity).
    unfold dismiss. destruct w; (split; [exact Hin|]);
      unfold notFading; simpl; intros t Ht; apply in_app_or in Ht;
      (destruct Ht as [Ht|[<-|[]]]; [apply Hno, Ht|]);
      unfold fadedBox; simpl; congruence.
Qed.

(** X17.  An info box stays in the document until it is dismissed: while
    none of its dismissals has come due and no fade of it is in flight, the
    passing of time, with whatever other callbacks and tweens it brings,
    leaves the box where it is and starts no fade of it. *)
Theorem box_stays_until_dismissed (ms : Z) (s : Timeline) (o : nat * AlertKind) :
  In o (overlays (browser s)) ->
  notFading (fst o) s ->
  dismissalAfter (fst o) (clock (browser s) + ms) s ->
  In o (overlays (browser (elapse ms s))) /\ notFading (fst o) (elapse ms s).
Proof.
  intros Hin Hno Hlate. unfold elapse. cbv zeta.
  match goal with |- In o (overlays (browser (onBrowser ?g (waitUntil ?t ?a)))) /\ _ =>
    assert (H : In o (overlays (browser a)) /\ notFading (fst o) a)
  end.
  { match goal with |- context [fold_left ?f ?l ?a] =>
      assert (Hl : forall t, In t l -> forall w, callback t <> CbDismiss (fst o) w);
      [|revert Hl; generalize l;
        assert (H0 : In o (overlays (browser a)) /\ notFading (fst o) a)
          by (split; assumption);
        revert H0; generalize a]
    end.
    - intros t Ht w Hcb. apply sortBy_In, filter_In in Ht. destruct Ht as [Ht Hdue].
      apply Z.leb_le in Hdue. pose proof (Hlate t w Ht Hcb). lia.
    - intros a H0 l. revert a H0.
      induction l as [|t l IH]; intros a H0 Hl; [exact H0|].
      simpl. apply IH; [|intros t' Ht'; apply Hl; right; exact Ht'].
      apply staying_fire; [intro w; apply Hl; left; reflexivity|].
      apply staying_waitUntil, H0. }
  apply (staying_waitUntil o (clock (browser s) + ms)) in H. exact H.
Qed.

(** The zero-day box just before its dismissal comes due. *)
Lemma box_stays_until_dismissed_witness :
  In (0%nat, ZeroDay) (overlays (browser (elapse 6999 Sample.explaining)))
  /\ notFading 0 (elapse 6999 Sample.explaining).
Proof.
  apply (box_stays_until_dismissed 6999 Sample.explaining (0%nat, ZeroDay)).
  - vm_compute. left. reflexivity.
  - unfold notFading. vm_compute. intros t [].
  - unfold dismissalAfter. vm_compute.
    intros t w [<-|[<-|[]]] Hcb; [discriminate Hcb|reflexivity].
Defined.

(** ** Camera moves and restart *)




